(** * Expense migration: a shallow embedding of the migration pipeline

    The development follows the TypeScript sources:
    - [TableService]      (column mapping, row retrieval),
    - [FileService]       (attachment pipeline, scratch and staging files),
    - [StorageService]    (object upload),
    - [MigrationService]  (prepare / insert phases, migration and recovery).

    Values exchanged with the tabular-data API are JSON values; objects keep
    their fields in insertion order, as JavaScript objects do.  Everything
    outside the process (remote API, object storage, downloads, failing file
    operations) is an oracle of the environment that sees the whole history
    of earlier interactions.  Console output is not modelled. *)

From stdpp Require Import base strings list gmap pretty.
From Stdlib Require Import ZArith Lia Ascii.

Set Warnings "-register-all,-clear-no-such-hyp".
Open Scope string_scope.
Open Scope list_scope.

(** ** JavaScript numbers

    The code never computes with numbers: it passes them through, tests their
    truthiness inside [||] chains and prints them with [String].  The model
    keeps the number type abstract behind this interface. *)
Class NumberModel := {
  number : Type;
  num_zero : number;                 (* the literal 0 *)
  num_truthy : number -> bool;       (* false on 0, -0 and NaN *)
  num_toString : number -> string    (* Number::toString *)
}.

Section Program.
Context `{NumberModel}.

(** ** JSON values, plus [undefined] for absent properties *)
Inductive value :=
| VUndefined
| VNull
| VBool (b : bool)
| VNum (n : number)
| VStr (s : string)
| VArr (items : list value)
| VObj (fields : list (string * value)).

(** [o[key]]: the first field with that name, [undefined] when absent. *)
Fixpoint get (fields : list (string * value)) (key : string) : value :=
  match fields with
  | [] => VUndefined
  | (k, v) :: rest => if String.eqb k key then v else get rest key
  end.

(** [o[key] = v]: an existing key keeps its position, a new one is appended. *)
Fixpoint set (fields : list (string * value)) (key : string) (v : value)
  : list (string * value) :=
  match fields with
  | [] => [(key, v)]
  | (k, w) :: rest =>
      if String.eqb k key then (k, v) :: rest else (k, w) :: set rest key v
  end.

(** [key in o] for own properties. *)
Definition has (fields : list (string * value)) (key : string) : bool :=
  existsb (fun kv => String.eqb (fst kv) key) fields.

Definition truthy (v : value) : bool :=
  match v with
  | VUndefined | VNull => false
  | VBool b => b
  | VNum n => num_truthy n
  | VStr s => negb (String.eqb s EmptyString)
  | VArr _ | VObj _ => true
  end.

(** [a || b] *)
Definition js_or (a b : value) : value := if truthy a then a else b.

Definition is_nullish (v : value) : bool :=
  match v with VUndefined | VNull => true | _ => false end.

Definition typeof_number (v : value) : bool :=
  match v with VNum _ => true | _ => false end.

Definition typeof_string (v : value) : bool :=
  match v with VStr _ => true | _ => false end.

(** [v === 'lit'] *)
Definition is_str (v : value) (lit : string) : bool :=
  match v with VStr s => String.eqb s lit | _ => false end.

(** What [String(v)] returns, when it returns.  Arrays join their elements
    with commas, printing null and undefined elements as the empty string;
    objects print as [[object Object]].  The coercion raises on some
    objects: [ToString] below says on which, and is this function
    elsewhere. *)
Fixpoint js_String (v : value) : string :=
  match v with
  | VUndefined => "undefined"
  | VNull => "null"
  | VBool true => "true"
  | VBool false => "false"
  | VNum n => num_toString n
  | VStr s => s
  | VArr items =>
      (fix join (l : list value) : string :=
         match l with
         | [] => EmptyString
         | [x] => if is_nullish x then EmptyString else js_String x
         | x :: rest =>
             (if is_nullish x then EmptyString else js_String x)
             +:+ "," +:+ join rest
         end) items
  | VObj _ => "[object Object]"
  end.

(** ** MigrationService.cleanBackticks

    [value.replace(/^```|```$/g, '').trim()].  The global replace removes a
    fence at the start, then a fence at the end of what is left.  [trim]
    is modelled on the ASCII white space characters. *)
Definition fence : list ascii := String.list_ascii_of_string "```".

Definition is_space (c : ascii) : bool :=
  let n := nat_of_ascii c in
  ((n =? 32) || ((9 <=? n) && (n <=? 13)))%nat.

Fixpoint starts_with (p s : list ascii) : bool :=
  match p, s with
  | [], _ => true
  | a :: p', b :: s' => Ascii.eqb a b && starts_with p' s'
  | _ :: _, [] => false
  end.

Definition strip_prefix (p s : list ascii) : list ascii :=
  if starts_with p s then drop (length p) s else s.

Definition strip_suffix (p s : list ascii) : list ascii :=
  rev (strip_prefix (rev p) (rev s)).

Fixpoint trim_start (s : list ascii) : list ascii :=
  match s with
  | c :: s' => if is_space c then trim_start s' else s
  | [] => []
  end.

Definition trim (s : list ascii) : list ascii :=
  rev (trim_start (rev (trim_start s))).

Definition cleanBackticks (s : string) : string :=
  String.string_of_list_ascii
    (trim (strip_suffix fence (strip_prefix fence (String.list_ascii_of_string s)))).

(** ** MigrationService.sanitizeValue

    The [instanceof Date] branch is unreachable on JSON values and has no
    counterpart here.  [sanitizeValue] is the value the method returns,
    when it returns; [sanitizeValue_run] below is the method with the
    TypeError its coercions can raise, and agrees with this one wherever
    it returns. *)
Definition sanitizeObject (o : list (string * value)) : value :=
  let self := VObj o in
  if is_str (get o "@type") "MonetaryAmount" then
    (if typeof_number (get o "amount") then get o "amount" else VNum num_zero)
  else if is_str (get o "@type") "StructuredValue" then
    js_or (get o "name")
      (js_or (get o "url") (js_or (get o "displayText") (VStr (js_String self))))
  else if is_str (get o "@type") "Person" then
    js_or (get o "email") (js_or (get o "name") (VStr (js_String self)))
  else if is_str (get o "@type") "ImageObject" then
    js_or (get o "url") (js_or (get o "name") (VStr (js_String self)))
  else if truthy (get o "name") then VStr (js_String (get o "name"))
  else if truthy (get o "url") then VStr (js_String (get o "url"))
  else if truthy (get o "displayText") then VStr (js_String (get o "displayText"))
  else if truthy (get o "text") then VStr (js_String (get o "text"))
  else VStr (js_String self).

Fixpoint sanitizeValue (v : value) : value :=
  match v with
  | VUndefined | VNull => VNull
  | VBool _ | VNum _ => v
  | VStr s => VStr (cleanBackticks s)
  | VArr items =>
      VArr (List.filter (fun item => negb (is_nullish item))
                        (List.map sanitizeValue items))
  | VObj o => sanitizeObject o
  end.

(** ** String coercion and sanitization, with the error they can raise

    [String(v)] calls the value's [toString].  A parsed object that has a
    field of its own named [toString] shadows the inherited method with
    something that is no function, and the coercion raises a TypeError; so
    does the coercion of an array that holds such an object, which joins
    the string forms of its elements.  [coercible v]: [String(v)] returns. *)
Fixpoint coercible (v : value) : bool :=
  match v with
  | VArr items => forallb (fun x => is_nullish x || coercible x) items
  | VObj o => negb (has o "toString")
  | _ => true
  end.

(** [String(v)]: [None] when it raises. *)
Definition ToString (v : value) : option string :=
  if coercible v then Some (js_String v) else None.

(** [a || rest], where [rest] is evaluated only when [a] is falsy. *)
Definition or_else (a : value) (rest : option value) : option value :=
  if truthy a then Some a else rest.

Definition text_of (v : value) : option value :=
  match ToString v with
  | Some s => Some (VStr s)
  | None => None
  end.

(** [sanitizeValue] with its TypeError: [None] when a coercion raises. *)
Definition sanitizeObject_run (o : list (string * value)) : option value :=
  let self := VObj o in
  if is_str (get o "@type") "MonetaryAmount" then
    Some (if typeof_number (get o "amount") then get o "amount"
          else VNum num_zero)
  else if is_str (get o "@type") "StructuredValue" then
    or_else (get o "name")
      (or_else (get o "url") (or_else (get o "displayText") (text_of self)))
  else if is_str (get o "@type") "Person" then
    or_else (get o "email") (or_else (get o "name") (text_of self))
  else if is_str (get o "@type") "ImageObject" then
    or_else (get o "url") (or_else (get o "name") (text_of self))
  else if truthy (get o "name") then text_of (get o "name")
  else if truthy (get o "url") then text_of (get o "url")
  else if truthy (get o "displayText") then text_of (get o "displayText")
  else if truthy (get o "text") then text_of (get o "text")
  else text_of self.

Fixpoint sanitizeValue_run (v : value) : option value :=
  match v with
  | VUndefined | VNull => Some VNull
  | VBool _ | VNum _ => Some v
  | VStr s => Some (VStr (cleanBackticks s))
  | VArr items =>
      match
        (fix each (l : list value) : option (list value) :=
           match l with
           | [] => Some []
           | x :: rest =>
               match sanitizeValue_run x with
               | Some y =>
                   match each rest with
                   | Some ys => Some (y :: ys)
                   | None => None
                   end
               | None => None
               end
           end) items
      with
      | Some sanitized =>
          Some (VArr (List.filter (fun item => negb (is_nullish item))
                                  sanitized))
      | None => None
      end
  | VObj o => sanitizeObject_run o
  end.

(** ** cleanMarkdown (types.ts)

    The helper of the analysis parser: anything falsy or not a string is
    handed back, a text is cleaned as [cleanBackticks] cleans it. *)
Definition cleanMarkdown (text : value) : value :=
  match text with
  | VStr s => if String.eqb s EmptyString then text else VStr (cleanBackticks s)
  | _ => text
  end.

(** ** Node's [path] module, on plain file names

    Paths are strings with [/] separators; [path.join] does no normalisation
    here, so the model is exact for names without separators or dot
    segments. *)
Definition path_join (dir name : string) : string := dir +:+ "/" +:+ name.

Definition slash : ascii := "/"%char.
Definition dot : ascii := "."%char.

(** The portion after the last separator. *)
Fixpoint last_segment (s : list ascii) : list ascii :=
  match s with
  | [] => []
  | c :: s' =>
      if existsb (Ascii.eqb slash) s' then last_segment s'
      else if Ascii.eqb c slash then s' else s
  end.

(** Index of the last occurrence of [c], as [lastIndexOf] gives it. *)
Fixpoint last_index_of (c : ascii) (s : list ascii) : option nat :=
  match s with
  | [] => None
  | d :: s' =>
      match last_index_of c s' with
      | Some i => Some (S i)
      | None => if Ascii.eqb d c then Some 0 else None
      end
  end.

(** [path.extname]: from the last dot of the last portion, unless that dot
    is its first character. *)
Definition extname_chars (p : list ascii) : list ascii :=
  let seg := last_segment p in
  if starts_with seg [dot; dot] && (length seg =? 2)%nat then []
  else match last_index_of dot seg with
       | None | Some 0 => []
       | Some i => drop i seg
       end.

Definition path_extname (p : string) : string :=
  String.string_of_list_ascii (extname_chars (String.list_ascii_of_string p)).

(** [path.basename(p, ext)]: the last portion, without [ext] when it ends
    with it and is more than it; nothing is left of a path that is [ext]
    itself. *)
Definition path_basename (p ext : string) : string :=
  let seg := last_segment (String.list_ascii_of_string p) in
  let e := String.list_ascii_of_string ext in
  String.string_of_list_ascii
    (match e with
     | [] => seg
     | _ => if String.eqb p ext then []
            else if bool_decide (seg = e) then seg
            else strip_suffix e seg
     end).

Definition lower (c : ascii) : ascii :=
  let n := nat_of_ascii c in
  if ((65 <=? n) && (n <=? 90))%nat then ascii_of_nat (n + 32) else c.

Definition toLowerCase (s : string) : string :=
  String.string_of_list_ascii (List.map lower (String.list_ascii_of_string s)).

(** [s.replace(/[^a-zA-Z0-9_-]/g, '_')], on ASCII text. *)
Definition is_name_char (c : ascii) : bool :=
  let n := nat_of_ascii c in
  (((97 <=? n) && (n <=? 122)) || ((65 <=? n) && (n <=? 90))
   || ((48 <=? n) && (n <=? 57)) || (n =? 95) || (n =? 45))%nat.

Definition sanitizeName (s : string) : string :=
  String.string_of_list_ascii
    (List.map (fun c => if is_name_char c then c else "_"%char)
              (String.list_ascii_of_string s)).

(** [s.replace(pat, '')] with a string pattern: the first occurrence only. *)
Fixpoint remove_first (pat s : list ascii) : list ascii :=
  if starts_with pat s then drop (length pat) s
  else match s with
       | [] => []
       | c :: s' => c :: remove_first pat s'
       end.

(** [list.includes(x)] on strings. *)
Definition includes (l : list string) (x : string) : bool :=
  existsb (String.eqb x) l.

(** The names every object answers to without having them as fields of its
    own: the properties of [Object.prototype]. *)
Definition inherited_names : list string :=
  ["constructor"; "hasOwnProperty"; "isPrototypeOf"; "propertyIsEnumerable";
   "toLocaleString"; "toString"; "valueOf"; "__proto__";
   "__defineGetter__"; "__defineSetter__"; "__lookupGetter__";
   "__lookupSetter__"].

(** ** Data model (types.ts) *)
Record CodaColumn := {
  col_id : string;
  col_name : string;
  col_display : bool;
  col_calculated : bool;
  col_format_type : string
}.

Record ColumnMapping := {
  sourceColumn : CodaColumn;
  destinationColumn : CodaColumn;
  transform : option (value -> value)
}.

Record Transformation := { tr_from : string; tr_to : string }.

(** The two sizes are whole numbers that are not negative: a configuration
    that passed [validateConfig] has positive ones. *)
Record MigrationConfig := {
  sourceDocId : string;
  sourceTableId : string;
  destinationDocId : string;
  destinationTableId : string;
  spacesBucket : string;
  spacesEndpoint : string;
  migrationFolder : string;
  batchSize : nat;
  insertBatchSize : nat;
  columnMappings : gmap string string;
  skipColumns : list string;
  transformations : option (gmap string Transformation)
}.

Record Row := {
  row_id : string;
  row_name : string;
  row_values : list (string * value)
}.

Record ProcessedFile := {
  originalName : string;
  pdfPath : string;
  uploadedUrl : string
}.

Record PreparedRow := {
  prep_sourceRowId : string;
  destinationData : list (string * value);
  prep_processedFiles : list ProcessedFile
}.

Record MigrationResult := {
  success : bool;
  sourceRowId : string;
  destinationRowId : option string;
  processedFiles : list ProcessedFile;
  error : option string
}.

(** One entry of what [insertRowsBatch] returns. *)
Record BatchResult := {
  br_success : bool;
  br_destinationRowId : option string;
  br_error : option string
}.

(** The JSON files the orchestrator writes and recovery reads.  The counts
    [totalFailed] and [totalStillFailed] are the lengths of [failedRowIds]
    and are not kept apart. *)
Record Ledger := {
  timestamp : string;
  originalFailureCount : option nat;
  recoveredCount : option nat;
  failedRowIds : option (list string);
  failedRows : list (string * option string)
}.

Inductive document :=
| Unparseable
| LedgerJson (l : Ledger)
| ResultsJson (rs : list MigrationResult).

(** ** The world: files on disk, calls made so far, and the orchestrator's
    accumulating result list (its only shared mutable state). *)
Inductive event :=
| EGetTable (doc table : string)
| EGetColumns (doc table : string)
| EGetRowsPage (doc table : string) (limit : nat) (pageToken : option string)
| EGetRowsByIds (doc table : string) (ids : list string)
| EDownload (url : string)
| EPutObject (key : string)
| EInsertRows (doc table : string) (rows : list (list (string * value))).

Record world := {
  files : gset string;
  documents : gmap string document;
  log : list event;
  allResults : list MigrationResult
}.

Definition with_files (f : gset string) (w : world) : world :=
  {| files := f; documents := documents w; log := log w;
     allResults := allResults w |}.

Definition with_documents (d : gmap string document) (w : world) : world :=
  {| files := files w; documents := d; log := log w;
     allResults := allResults w |}.

Definition with_log (l : list event) (w : world) : world :=
  {| files := files w; documents := documents w; log := l;
     allResults := allResults w |}.

Definition with_results (r : list MigrationResult) (w : world) : world :=
  {| files := files w; documents := documents w; log := log w;
     allResults := r |}.

(** What a [fetch] can come back with: a rejected promise (or any exception
    while reading the body), a non-2xx status, or a decoded body. *)
Inductive response (A : Type) :=
| Rejected (message : string)
| NotOk (status : nat) (statusText body : string)
| Ok200 (body : A).
Arguments Rejected {A} _.
Arguments NotOk {A} _ _ _.
Arguments Ok200 {A} _.

Inductive io_op :=
| IoOpen (path : string)
| IoWrite (path : string)
| IoCopy (src dst : string)
| IoUnlink (path : string)
| IoReadFile (path : string)
| IoEncodeImage (path : string)
| IoDrawPlaceholder (path : string)
| IoLoadPdf (path : string)
| IoRemoveTree (dir : string).

(** The environment: every answer may depend on the whole world so far. *)
Record env := {
  net_table : world -> string -> string -> response unit;
  net_columns : world -> string -> string -> response (list CodaColumn);
  net_rows_page :
    world -> string -> string -> nat -> option string ->
    response (list Row * option string);
  net_rows_by_ids :
    world -> string -> string -> list string -> response (option (list Row));
  net_download : world -> string -> response unit;
  net_put : world -> string -> option string;
  net_insert :
    world -> list (list (string * value)) -> response (option (list string));
  io_error : world -> io_op -> option string;
  clock_iso : world -> string;
  clock_ms : world -> string;
  localeSort : list CodaColumn -> list CodaColumn
}.

(** ** Computations: state, exceptions, and loops that may not return *)
Inductive outcome (A : Type) :=
| Ok (a : A)
| Throw (message : string)
| Diverge.
Arguments Ok {A} _.
Arguments Throw {A} _.
Arguments Diverge {A}.

Definition M (A : Type) : Type := world -> outcome A * world.

Definition ret {A} (a : A) : M A := fun w => (Ok a, w).

Definition throw {A} (msg : string) : M A := fun w => (Throw msg, w).

Definition diverge {A} : M A := fun w => (Diverge, w).

Definition bind {A B} (m : M A) (k : A -> M B) : M B :=
  fun w =>
    match m w with
    | (Ok a, w') => k a w'
    | (Throw e, w') => (Throw e, w')
    | (Diverge, w') => (Diverge, w')
    end.

Notation "'let!' x ':=' m 'in' k" := (bind m (fun x => k))
  (at level 10, x name, m at level 100, k at level 200).
Notation "m '>>' k" := (bind m (fun _ => k))
  (at level 100, k at level 200, right associativity).

(** [try { m } catch (error) { h(message) }] *)
Definition try_catch {A} (m : M A) (h : string -> M A) : M A :=
  fun w =>
    match m w with
    | (Throw e, w') => h e w'
    | r => r
    end.

(** [try { m } finally { f }], for an [f] that swallows its own errors. *)
Definition try_finally {A} (m : M A) (f : M unit) : M A :=
  fun w =>
    match m w with
    | (Diverge, w') => (Diverge, w')
    | (r, w') => (r, snd (f w'))
    end.

Definition read {A} (f : world -> A) : M A := fun w => (Ok (f w), w).

Definition emit (e : event) : M unit :=
  fun w => (Ok tt, with_log (log w ++ [e]) w).

(** Runs [m] and hands back what it threw instead of throwing: both schema
    requests of [createColumnMapping] are issued before either is awaited. *)
Definition attempt {A} (m : M A) : M (string + A) :=
  fun w =>
    match m w with
    | (Ok a, w') => (Ok (inr a), w')
    | (Throw e, w') => (Ok (inl e), w')
    | (Diverge, w') => (Diverge, w')
    end.

(** [for (const x of xs) { ys.push(await f(x)) }] inside a [try] whose
    handler still reads [ys]: the elements pushed so far, and the error that
    stopped the loop if one did. *)
Fixpoint collect {A B} (xs : list A) (f : A -> M B) (ys : list B)
  : M (list B * option string) :=
  match xs with
  | [] => ret (ys, None)
  | x :: rest =>
      let! r := attempt (f x) in
      match r with
      | inr y => collect rest f (ys ++ [y])
      | inl e => ret (ys, Some e)
      end
  end.

(** [for (const x of xs) body(x)] *)
Fixpoint for_each {A} (xs : list A) (body : A -> M unit) : M unit :=
  match xs with
  | [] => ret tt
  | x :: rest => body x >> for_each rest body
  end.

(** [`${error}`] and [error.message] for the [Error] objects thrown here. *)
Definition error_string (msg : string) : string := "Error: " +:+ msg.

(** ** TableService *)
Section Services.
Variable E : env.
Variable config : MigrationConfig.

(** [request<T>(endpoint)]: throws on a rejected fetch and on a non-2xx
    status. *)
Definition request {A} (e : event) (answer : world -> response A) : M A :=
  let! r := read answer in
  emit e >>
  match r with
  | Rejected msg => throw msg
  | NotOk status statusText body =>
      throw ("HTTP " +:+ pretty status +:+ ": " +:+ statusText
             +:+ "\nResponse: " +:+ body)
  | Ok200 a => ret a
  end.

Definition getTable (docId tableId : string) : M unit :=
  request (EGetTable docId tableId) (fun w => net_table E w docId tableId).

Definition getTableColumns (docId tableId : string) : M (list CodaColumn) :=
  let! items :=
    request (EGetColumns docId tableId)
            (fun w => net_columns E w docId tableId) in
  ret (localeSort E items).

(** [createTransform]: the configured directive first, then the automatic
    coercion when the declared types differ, else no transform.
    [config.transformations?.[name]] also finds what every object inherits:
    for such a name the directive is a function or the prototype, which is
    truthy and has no [from], so that the transform hands the value back.
    The coercion is [String], which raises on a value that is not
    [coercible]; the function here gives its result where it returns. *)
Definition createTransform (sourceCol destCol : CodaColumn)
  : option (value -> value) :=
  let automatic :=
    if negb (String.eqb (col_format_type sourceCol) (col_format_type destCol))
    then
      Some (fun v =>
        if String.eqb (col_format_type destCol) "text" && negb (is_nullish v)
        then VStr (js_String v)
        else if String.eqb (col_format_type destCol) "link" && typeof_string v
        then v
        else v)
    else None in
  match transformations config with
  | Some directives =>
      match directives !! col_name sourceCol with
      | Some transformation =>
          Some (fun v =>
            if String.eqb (tr_from transformation) "select"
               && String.eqb (tr_to transformation) "lookup"
            then (if truthy v && typeof_string v then v else v)
            else v)
      | None =>
          if includes inherited_names (col_name sourceCol)
          then Some (fun v => v)
          else automatic
      end
  | None => automatic
  end.

(** One turn of the loop over the source columns: the mapping list after
    looking at [sourceCol]. *)
Definition mapColumn (destColumns : list CodaColumn)
    (mappings : list ColumnMapping) (sourceCol : CodaColumn)
  : list ColumnMapping :=
  if col_calculated sourceCol then mappings
  else if includes (skipColumns config) (col_name sourceCol) then mappings
  else
    match columnMappings config !! col_name sourceCol with
    | None => mappings
    | Some destColumnName =>
        if String.eqb destColumnName EmptyString then mappings
        else
          match List.find
                  (fun dc => String.eqb (col_name dc) destColumnName
                             && negb (col_calculated dc))
                  destColumns with
          | Some destCol =>
              mappings ++ [{| sourceColumn := sourceCol;
                              destinationColumn := destCol;
                              transform := createTransform sourceCol destCol |}]
          | None => mappings
          end
    end.

(** The loop of [createColumnMapping] once both schemas are there. *)
Definition buildColumnMappings (sourceColumns destColumns : list CodaColumn)
  : list ColumnMapping :=
  fold_left (mapColumn destColumns) sourceColumns [].

Definition createColumnMapping
    (srcDoc srcTable dstDoc dstTable : string) : M (list ColumnMapping) :=
  let! sourceColumns := attempt (getTableColumns srcDoc srcTable) in
  let! destColumns := attempt (getTableColumns dstDoc dstTable) in
  match sourceColumns, destColumns with
  | inr src, inr dst => ret (buildColumnMappings src dst)
  | inl e, _ => throw e
  | _, inl e => throw e
  end.

Definition getTableRows (docId tableId : string) (limit : nat)
    (pageToken : option string) : M (list Row * option string) :=
  request (EGetRowsPage docId tableId limit pageToken)
          (fun w => net_rows_page E w docId tableId limit pageToken).

(** A page token counts when it is a non-empty string. *)
Definition live_token (t : option string) : option string :=
  match t with
  | Some s => if String.eqb s EmptyString then None else Some s
  | None => None
  end.

(** [getAllTableRows]: the do-while over page tokens; [fuel] bounds the
    number of pages, and running out of it stands for a sweep that never
    ends. *)
Fixpoint sweep (fuel : nat) (docId tableId : string) (limit : nat)
    (pageToken : option string) (allRows : list Row) : M (list Row) :=
  match fuel with
  | 0 => diverge
  | S fuel' =>
      let! page := getTableRows docId tableId limit (live_token pageToken) in
      let allRows := allRows ++ fst page in
      match live_token (snd page) with
      | Some t => sweep fuel' docId tableId limit (Some t) allRows
      | None => ret allRows
      end
  end.

Definition getAllTableRows (fuel : nat) (docId tableId : string) (limit : nat)
  : M (list Row) :=
  sweep fuel docId tableId limit None [].

(** [rowIds.slice(i, i + batchSize)] *)
Definition slice {A} (l : list A) (i n : nat) : list A := take n (drop i l).

(** One turn of the loop of [getSpecificRows]: the rows to append for the
    chunk [batchIds].  A failed request contributes nothing and the loop
    goes on. *)
Definition fetchChunk (docId tableId : string) (batchIds : list string)
  : M (list Row) :=
  try_catch
    (let! r := read (fun w => net_rows_by_ids E w docId tableId batchIds) in
     emit (EGetRowsByIds docId tableId batchIds) >>
     match r with
     | Rejected msg => throw msg
     | NotOk _ _ _ => ret []
     | Ok200 None => ret []
     | Ok200 (Some items) =>
         ret (List.filter (fun item => includes batchIds (row_id item)) items)
     end)
    (fun _ => ret []).

(** [getSpecificRows]: [for (let i = 0; i < rowIds.length; i += 20)].  The
    loop runs at most [length rowIds] times, which is the fuel. *)
Fixpoint specificRowsFrom (fuel : nat) (docId tableId : string)
    (rowIds : list string) (i : nat) (rows : list Row) : M (list Row) :=
  match fuel with
  | 0 => ret rows
  | S fuel' =>
      if (i <? length rowIds)%nat then
        let! got := fetchChunk docId tableId (slice rowIds i 20) in
        specificRowsFrom fuel' docId tableId rowIds (i + 20) (rows ++ got)
      else ret rows
  end.

Definition getSpecificRows (docId tableId : string) (rowIds : list string)
  : M (list Row) :=
  specificRowsFrom (length rowIds) docId tableId rowIds 0 [].

(** ** FileService *)
Definition tempDir : string := "temp".
Definition uploadDir : string := "upload".

(** A file operation that the environment may refuse. *)
Definition io (op : io_op) : M unit :=
  fun w =>
    match io_error E w op with
    | Some msg => (Throw msg, w)
    | None => (Ok tt, w)
    end.

Definition existsSync (p : string) : M bool :=
  read (fun w => bool_decide (p ∈ files w)).

Definition enoent (p : string) : string :=
  "ENOENT: no such file or directory, open '" +:+ p +:+ "'".

(** [fs.writeFileSync(p, data)] opens [p] for writing, which creates the
    file, and then writes: when the write fails the file is there all the
    same. *)
Definition writeFileSync (p : string) : M unit :=
  io (IoOpen p) >>
  (fun w => (Ok tt, with_files ({[p]} ∪ files w) w)) >>
  io (IoWrite p).

Definition readFileSync (p : string) : M unit :=
  let! there := existsSync p in
  if there then io (IoReadFile p) else throw (enoent p).

Definition copyFileSync (src dst : string) : M unit :=
  let! there := existsSync src in
  if there
  then io (IoCopy src dst) >> fun w => (Ok tt, with_files ({[dst]} ∪ files w) w)
  else throw (enoent src).

Definition unlinkSync (p : string) : M unit :=
  io (IoUnlink p) >> fun w => (Ok tt, with_files (files w ∖ {[p]}) w).

(** [fs.rmSync(dir, { recursive: true, force: true })] *)
Definition rmSync (dir : string) : M unit :=
  io (IoRemoveTree dir) >>
  fun w =>
    (Ok tt,
     with_files (filter (fun p => String.prefix (dir +:+ "/") p = false)
                        (files w)) w).

Definition downloadFile (url filename : value) : M string :=
  let! r := read (fun w => net_download E w (js_String url)) in
  emit (EDownload (js_String url)) >>
  match r with
  | Rejected msg => throw msg
  | NotOk _ statusText _ => throw ("Failed to download file: " +:+ statusText)
  | Ok200 _ =>
      match filename with
      | VStr name =>
          let filepath := path_join tempDir name in
          writeFileSync filepath >> ret filepath
      | _ => throw "The 'path' argument must be of type string"
      end
  end.

(** [imageToPdf]: the re-encoding reads the image, which must be there, and
    may fail on its content; the document is written last. *)
Definition imageToPdf (imagePath outputPath : string) : M unit :=
  let! there := existsSync imagePath in
  if there
  then io (IoEncodeImage imagePath) >> writeFileSync outputPath
  else throw ("Input file is missing: " +:+ imagePath).

Definition createPlaceholderPdf (originalPath outputPath : string) : M unit :=
  io (IoDrawPlaceholder originalPath) >> writeFileSync outputPath.

Definition imageTypes : list string :=
  [".jpg"; ".jpeg"; ".png"; ".gif"; ".bmp"; ".webp"].

Definition convertToPdf (filePath : string) : M string :=
  let ext := toLowerCase (path_extname filePath) in
  let basename := path_basename filePath ext in
  let outputPath := path_join tempDir (basename +:+ ".pdf") in
  if String.eqb ext ".pdf" then
    if String.eqb filePath outputPath then ret outputPath
    else copyFileSync filePath outputPath >> ret outputPath
  else if includes imageTypes ext then
    imageToPdf filePath outputPath >> ret outputPath
  else
    createPlaceholderPdf filePath outputPath >> ret outputPath.

Definition mergePdfs (pdfPaths : list string) (outputPath : string) : M string :=
  match pdfPaths with
  | [] => throw "No PDF files to merge"
  | [only] => copyFileSync only outputPath >> ret outputPath
  | _ =>
      for_each pdfPaths (fun pdfPath =>
        readFileSync pdfPath >> io (IoLoadPdf pdfPath)) >>
      writeFileSync outputPath >>
      ret outputPath
  end.

Definition cleanup (filePaths : list string) : M unit :=
  for_each filePaths (fun filePath =>
    try_catch
      (let! there := existsSync filePath in
       if there then unlinkSync filePath else ret tt)
      (fun _ => ret tt)).

(** [[...new Set(xs)]]: first occurrences, in order. *)
Fixpoint unique (seen xs : list string) : list string :=
  match xs with
  | [] => []
  | x :: rest =>
      if includes seen x then unique seen rest
      else x :: unique (x :: seen) rest
  end.

(** [o.key] on a value that the caller knows to be an object. *)
Definition prop (v : value) (key : string) : value :=
  match v with VObj o => get o key | _ => VUndefined end.

(** The download loop, with its index for the fallback file name. *)
Fixpoint numbered {A} (i : nat) (xs : list A) : list (nat * A) :=
  match xs with
  | [] => []
  | x :: rest => (i, x) :: numbered (S i) rest
  end.

(** [processAttachments].  The source wraps the three stages in one [try]
    whose handler cleans [[...downloadedFiles, ...convertedPdfs]] as the two
    arrays stand when the error occurs; here each stage hands its array to
    the same handler. *)
Definition processAttachments (attachments : list value) (baseFileName : string)
  : M (option ProcessedFile) :=
  match attachments with
  | [] => ret None
  | _ =>
      let! down :=
        collect (numbered 0 attachments)
          (fun ia =>
             let fileName :=
               js_or (prop (snd ia) "name")
                     (VStr ("attachment_" +:+ pretty (fst ia + 1)%nat)) in
             downloadFile (prop (snd ia) "url") fileName) [] in
      let downloadedFiles := fst down in
      match snd down with
      | Some e => cleanup (downloadedFiles ++ []) >> throw e
      | None =>
          let! conv := collect downloadedFiles convertToPdf [] in
          let convertedPdfs := fst conv in
          match snd conv with
          | Some e => cleanup (downloadedFiles ++ convertedPdfs) >> throw e
          | None =>
              try_catch
                (let tempFinalPdfPath :=
                   path_join tempDir (baseFileName +:+ ".pdf") in
                 (match convertedPdfs with
                  | [single] =>
                      if negb (String.eqb single tempFinalPdfPath)
                      then copyFileSync single tempFinalPdfPath
                      else ret tt
                  | _ => mergePdfs convertedPdfs tempFinalPdfPath >> ret tt
                  end) >>
                 let uploadPdfPath :=
                   path_join uploadDir (baseFileName +:+ ".pdf") in
                 copyFileSync tempFinalPdfPath uploadPdfPath >>
                 let filesToCleanup :=
                   (downloadedFiles ++ convertedPdfs)
                   ++ (if includes convertedPdfs tempFinalPdfPath then []
                       else [tempFinalPdfPath]) in
                 cleanup (unique [] filesToCleanup) >>
                 ret (Some {| originalName := baseFileName;
                              pdfPath := uploadPdfPath;
                              uploadedUrl := EmptyString |}))
                (fun e => cleanup (downloadedFiles ++ convertedPdfs) >> throw e)
          end
      end
  end.

Definition cleanupTempDir : M unit :=
  try_catch (rmSync tempDir) (fun _ => ret tt).

Definition cleanupUploadDir : M unit :=
  try_catch (rmSync uploadDir) (fun _ => ret tt).

Definition cleanupAllDirectories : M unit :=
  cleanupTempDir >> cleanupUploadDir.

Definition cleanupProcessedFile (processedFile : ProcessedFile) : M unit :=
  cleanup [pdfPath processedFile].

(** ** StorageService *)
Definition constructPublicUrl (key : string) : string :=
  let baseUrl :=
    String.string_of_list_ascii
      (remove_first (String.list_ascii_of_string "https://")
                    (String.list_ascii_of_string (spacesEndpoint config))) in
  "https://" +:+ spacesBucket config +:+ "." +:+ baseUrl +:+ "/" +:+ key.

Definition putObject (key : string) : M unit :=
  let! r := read (fun w => net_put E w key) in
  emit (EPutObject key) >>
  match r with
  | Some msg => throw msg
  | None => ret tt
  end.

Definition uploadFile (filePath fileName : string) : M string :=
  try_catch
    (readFileSync filePath >>
     let key := migrationFolder config +:+ "/" +:+ fileName in
     putObject key >>
     ret (constructPublicUrl key))
    (fun e => throw ("Failed to upload file: " +:+ error_string e)).

Definition testConnection : M bool :=
  try_catch
    (let! now := read (clock_ms E) in
     putObject (migrationFolder config +:+ "/connection-test-" +:+ now +:+ ".txt") >>
     ret true)
    (fun _ => ret false).

Definition contentTypes : list (string * string) :=
  [(".pdf", "application/pdf"); (".jpg", "image/jpeg"); (".jpeg", "image/jpeg");
   (".png", "image/png"); (".gif", "image/gif"); (".bmp", "image/bmp");
   (".webp", "image/webp"); (".txt", "text/plain"); (".csv", "text/csv");
   (".json", "application/json"); (".xml", "application/xml");
   (".doc", "application/msword");
   (".docx",
    "application/vnd.openxmlformats-officedocument.wordprocessingml.document");
   (".xls", "application/vnd.ms-excel");
   (".xlsx",
    "application/vnd.openxmlformats-officedocument.spreadsheetml.sheet");
   (".ppt", "application/vnd.ms-powerpoint");
   (".pptx",
    "application/vnd.openxmlformats-officedocument.presentationml.presentation")].

(** [contentTypes[ext] || 'application/octet-stream'] *)
Definition getContentType (fileName : string) : string :=
  let ext := toLowerCase (path_extname fileName) in
  match List.find (fun kv => String.eqb (fst kv) ext) contentTypes with
  | Some kv => snd kv
  | None => "application/octet-stream"
  end.

Definition getFileUrl (fileName : string) : string :=
  constructPublicUrl (migrationFolder config +:+ "/" +:+ fileName).

(** ** MigrationService

    [migrate] and [recover] inline the same two loops, apart from their
    delays and log lines; the loops are [preparePhase] and [insertPhase]
    here.  The private [processRow] and [insertRow] have no caller and are
    left out. *)
Definition srcDoc := sourceDocId config.
Definition srcTable := sourceTableId config.
Definition dstDoc := destinationDocId config.
Definition dstTable := destinationTableId config.

Definition testConnections : M unit :=
  try_catch
    (getTable srcDoc srcTable >> getTable dstDoc dstTable)
    (fun e => throw ("Coda API access failed: " +:+ error_string e)) >>
  let! spacesConnected := testConnection in
  if spacesConnected then ret tt
  else throw "DigitalOcean Spaces connection failed".

(** The test both [prepareRow] and [mapRowData] make on a mapping. *)
Definition isReceiptMapping (m : ColumnMapping) : bool :=
  String.eqb (col_name (sourceColumn m)) "Record file"
  && String.eqb (col_name (destinationColumn m)) "Receipt".

Definition looksLikeAttachment (item : value) : bool :=
  match item with
  | VObj o => truthy (get o "url") && truthy (get o "name")
  | _ => false
  end.

Definition extractAttachmentsFromColumn (row : Row) (columnId : string)
  : list value :=
  match get (row_values row) columnId with
  | VArr items => List.filter looksLikeAttachment items
  | _ => []
  end.

Definition getBaseFileName (row : Row) (attachments : list value) : M string :=
  let fallback :=
    if negb (String.eqb (row_name row) EmptyString)
    then ret (sanitizeName (row_name row))
    else ret ("row_" +:+ sanitizeName (row_id row)) in
  match attachments with
  | first :: _ =>
      if truthy (prop first "name") then
        match prop first "name" with
        | VStr fileName =>
            let chars := String.list_ascii_of_string fileName in
            let baseName :=
              match last_index_of dot chars with
              | Some i => String.string_of_list_ascii (take i chars)
              | None => EmptyString
              end in
            ret (sanitizeName
                   (if String.eqb baseName EmptyString then fileName
                    else baseName))
        | _ => throw "fileName.substring is not a function"
        end
      else fallback
  | [] => fallback
  end.

Definition processRowAttachments (row : Row) (attachments : list value)
  : M (option ProcessedFile) :=
  let! baseFileName := getBaseFileName row attachments in
  let! processedFile := processAttachments attachments baseFileName in
  match processedFile with
  | Some pf =>
      let! url := uploadFile (pdfPath pf) (originalName pf +:+ ".pdf") in
      ret (Some {| originalName := originalName pf;
                   pdfPath := pdfPath pf;
                   uploadedUrl := url |})
  | None => ret None
  end.

(** One turn of the loop of [mapRowData]. *)
Definition mapRowStep (sourceRow : Row) (files_ : list ProcessedFile)
    (data : list (string * value)) (mapping : ColumnMapping)
  : list (string * value) :=
  let sourceValue := get (row_values sourceRow) (col_id (sourceColumn mapping)) in
  if isReceiptMapping mapping then
    match files_ with
    | first :: _ =>
        set data (col_id (destinationColumn mapping)) (VStr (uploadedUrl first))
    | [] => data
    end
  else
    let destinationValue :=
      match transform mapping with
      | Some f => if negb (is_nullish sourceValue) then f sourceValue
                  else sourceValue
      | None => sourceValue
      end in
    let destinationValue := sanitizeValue destinationValue in
    if negb (is_nullish destinationValue)
    then set data (col_id (destinationColumn mapping)) destinationValue
    else data.

Definition mapRowData (sourceRow : Row) (mappings : list ColumnMapping)
    (files_ : list ProcessedFile) : list (string * value) :=
  fold_left (mapRowStep sourceRow files_) mappings [].

Definition prepareRow (sourceRow : Row) (mappings : list ColumnMapping)
  : M PreparedRow :=
  let! fs :=
    match List.find isReceiptMapping mappings with
    | Some attachmentColumnMapping =>
        let attachments :=
          extractAttachmentsFromColumn sourceRow
            (col_id (sourceColumn attachmentColumnMapping)) in
        if (0 <? length attachments)%nat then
          let! processedFile := processRowAttachments sourceRow attachments in
          ret (match processedFile with Some f => [f] | None => [] end)
        else ret []
    | None => ret []
    end in
  ret {| prep_sourceRowId := row_id sourceRow;
         destinationData := mapRowData sourceRow mappings fs;
         prep_processedFiles := fs |}.

Definition batchFailure (e : string) : BatchResult :=
  {| br_success := false; br_destinationRowId := None; br_error := Some e |}.

Definition batchSuccess (rowId : string) : BatchResult :=
  {| br_success := true; br_destinationRowId := Some rowId; br_error := None |}.

Definition insertRowsBatch (rowDataArray : list (list (string * value)))
  : M (list BatchResult) :=
  match rowDataArray with
  | [] => ret []
  | _ =>
      try_catch
        (let! r := read (fun w => net_insert E w rowDataArray) in
         emit (EInsertRows dstDoc dstTable rowDataArray) >>
         match r with
         | Rejected msg => throw msg
         | NotOk status statusText errorText =>
             let e := "Failed to insert batch: HTTP " +:+ pretty status
                      +:+ ": " +:+ statusText +:+ "\nResponse: " +:+ errorText in
             ret (List.map (fun _ => batchFailure e) rowDataArray)
         | Ok200 (Some (rowId :: more)) =>
             ret (List.map batchSuccess (rowId :: more))
         | Ok200 _ =>
             ret (List.map
                    (fun _ => batchFailure
                                "No row IDs returned from batch insert operation")
                    rowDataArray)
         end)
        (fun errorMessage =>
           ret (List.map (fun _ => batchFailure errorMessage) rowDataArray))
  end.

Definition push (r : MigrationResult) : M unit :=
  fun w => (Ok tt, with_results (allResults w ++ [r]) w).

Definition prepareFailed (sourceRow : Row) (e : string) : MigrationResult :=
  {| success := false; sourceRowId := row_id sourceRow;
     destinationRowId := None; processedFiles := []; error := Some e |}.

Definition insertFailed (p : PreparedRow) (e : option string) : MigrationResult :=
  {| success := false; sourceRowId := prep_sourceRowId p;
     destinationRowId := None; processedFiles := prep_processedFiles p;
     error := e |}.

Definition inserted (p : PreparedRow) (rowId : option string) : MigrationResult :=
  {| success := true; sourceRowId := prep_sourceRowId p;
     destinationRowId := rowId; processedFiles := prep_processedFiles p;
     error := None |}.

(** Phase 1, the loop over the source rows: a row that fails preparation
    gets its failed result at once, the others are collected. *)
Fixpoint preparePhase (sourceRows : list Row) (mappings : list ColumnMapping)
    (preparedRows : list PreparedRow) : M (list PreparedRow) :=
  match sourceRows with
  | [] => ret preparedRows
  | sourceRow :: rest =>
      let! preparedRows :=
        try_catch
          (let! result := prepareRow sourceRow mappings in
           ret (preparedRows ++ [result]))
          (fun e => push (prepareFailed sourceRow e) >> ret preparedRows) in
      preparePhase rest mappings preparedRows
  end.

(** [for (let i = 0; i < rows.length; i += batchSize)
       batches.push(rows.slice(i, i + batchSize))].
    With a positive batch size the loop runs at most [length rows] times;
    [None] stands for the loop that never ends. *)
Fixpoint makeBatches {A} (fuel batchSize : nat) (rows : list A) (i : nat)
  : option (list (list A)) :=
  if (i <? length rows)%nat then
    match fuel with
    | 0 => None
    | S fuel' =>
        match makeBatches fuel' batchSize rows (i + batchSize) with
        | Some batches => Some (slice rows i batchSize :: batches)
        | None => None
        end
    end
  else Some [].

Definition releaseFiles (p : PreparedRow) : M unit :=
  for_each (prep_processedFiles p) cleanupProcessedFile.

(** The loop that maps batch results back to rows, reading
    [batchResults[i]] for each row of the batch in turn. *)
Fixpoint recordBatch (todo : list PreparedRow) (batchResults : list BatchResult)
    (i : nat) : M unit :=
  match todo with
  | [] => ret tt
  | preparedRow :: rest =>
      match batchResults !! i with
      | None => throw "Cannot read properties of undefined (reading 'success')"
      | Some batchResult =>
          push (if br_success batchResult
                then inserted preparedRow (br_destinationRowId batchResult)
                else insertFailed preparedRow (br_error batchResult)) >>
          releaseFiles preparedRow >>
          recordBatch rest batchResults (S i)
      end
  end.

Definition insertBatch (batch : list PreparedRow) : M unit :=
  try_catch
    (let rowDataArray := List.map destinationData batch in
     let! batchResults := insertRowsBatch rowDataArray in
     recordBatch batch batchResults 0)
    (fun e =>
       for_each batch (fun preparedRow =>
         push (insertFailed preparedRow (Some e)) >> releaseFiles preparedRow)).

(** Phase 2. *)
Definition insertPhase (preparedRows : list PreparedRow) : M unit :=
  if (0 <? length preparedRows)%nat then
    match makeBatches (length preparedRows) (insertBatchSize config)
                      preparedRows 0 with
    | Some batches => for_each batches insertBatch
    | None => diverge
    end
  else ret tt.

(** [fs.writeFileSync(path, JSON.stringify(d))]: opening truncates what
    was there, so that a failed write leaves a text that does not parse. *)
Definition writeDocument (path : string) (d : document) : M unit :=
  io (IoOpen path) >>
  (fun w => (Ok tt, with_documents (<[path := Unparseable]> (documents w)) w)) >>
  io (IoWrite path) >>
  fun w => (Ok tt, with_documents (<[path := d]> (documents w)) w).

Definition failedOnes (rs : list MigrationResult) : list MigrationResult :=
  List.filter (fun r => negb (success r)) rs.

Definition ledgerRows (rs : list MigrationResult) : list (string * option string) :=
  List.map (fun r => (sourceRowId r, error r)) rs.

(** [migrate]; [fuel] bounds the pages of the sweep.  The result list is
    created empty once the rows are there, and whatever happens the two
    working directories are removed at the end. *)
Definition migrate (fuel : nat) : M (list MigrationResult) :=
  try_finally
    (testConnections >>
     let! mappings := createColumnMapping srcDoc srcTable dstDoc dstTable in
     if (length mappings =? 0)%nat
     then throw "No column mappings found. Check your configuration."
     else
       let! sourceRows :=
         getAllTableRows fuel srcDoc srcTable (batchSize config) in
       if (length sourceRows =? 0)%nat then ret []
       else
         (fun w => (Ok tt, with_results [] w)) >>
         let! preparedRows := preparePhase sourceRows mappings [] in
         insertPhase preparedRows >>
         let! results := read allResults in
         let failedResults := failedOnes results in
         (if (0 <? length failedResults)%nat then
            let! now := read (clock_iso E) in
            writeDocument "failed-rows.json"
              (LedgerJson
                 {| timestamp := now;
                    originalFailureCount := None;
                    recoveredCount := None;
                    failedRowIds := Some (List.map sourceRowId failedResults);
                    failedRows := ledgerRows failedResults |})
          else ret tt) >>
         ret results)
    cleanupAllDirectories.

(** [recover]: the ledger is read first; with no failed row id the method
    returns before its [try] block. *)
Definition recover (failedRowsPath : option string) : M (list MigrationResult) :=
  let failedRowsFile :=
    match failedRowsPath with
    | Some p => if String.eqb p EmptyString then "failed-rows.json" else p
    | None => "failed-rows.json"
    end in
  let! found := read (fun w => documents w !! failedRowsFile) in
  match found with
  | None => throw ("Failed rows file not found: " +:+ failedRowsFile)
  | Some doc =>
      io (IoReadFile failedRowsFile) >>
      let! ids :=
        match doc with
        | Unparseable => throw "Unexpected token in JSON"
        | LedgerJson l => ret (default [] (failedRowIds l))
        | ResultsJson _ => ret []
        end in
      if (length ids =? 0)%nat then ret []
      else
        try_finally
          (testConnections >>
           let! mappings := createColumnMapping srcDoc srcTable dstDoc dstTable in
           if (length mappings =? 0)%nat
           then throw "No column mappings found. Check your configuration."
           else
             let! sourceRows := getSpecificRows srcDoc srcTable ids in
             if (length sourceRows =? 0)%nat then ret []
             else
               (fun w => (Ok tt, with_results [] w)) >>
               let! preparedRows := preparePhase sourceRows mappings [] in
               insertPhase preparedRows >>
               let! results := read allResults in
               writeDocument "recovery-results.json" (ResultsJson results) >>
               let stillFailed := failedOnes results in
               (if (0 <? length stillFailed)%nat then
                  let! now := read (clock_iso E) in
                  writeDocument "still-failed-rows.json"
                    (LedgerJson
                       {| timestamp := now;
                          originalFailureCount := Some (length ids);
                          recoveredCount :=
                            Some (length (List.filter success results));
                          failedRowIds :=
                            Some (List.map sourceRowId stillFailed);
                          failedRows := ledgerRows stillFailed |})
                else ret tt) >>
               ret results)
          cleanupAllDirectories
  end.

End Services.

(** ** ConfigService

    The parsed YAML document, with what may be missing from it optional.
    Sizes are whole numbers. *)
Record YamlEndpoint := {
  y_docId : option string;
  y_tableId : option string
}.

Record YamlSettings := {
  y_batchSize : option Z;
  y_insertBatchSize : option Z;
  y_migrationFolder : option string
}.

Record YamlMigration := {
  y_source : option YamlEndpoint;
  y_destination : option YamlEndpoint;
  y_settings : option YamlSettings;
  y_columnMappings : option (gmap string string);
  y_skipColumns : list string;
  y_transformations : option (gmap string Transformation)
}.

(** [!s] on an optional string and on an optional number. *)
Definition missing_text (s : option string) : bool :=
  match s with
  | Some t => String.eqb t EmptyString
  | None => true
  end.

Definition missing_number (n : option Z) : bool :=
  match n with
  | Some z => (z =? 0)%Z
  | None => true
  end.

(** [validateConfig]: the error it throws, if any. *)
Definition validateConfig (config : option YamlMigration) : option string :=
  match config with
  | None => Some "Configuration must have a 'migration' section"
  | Some migration =>
      match y_source migration, y_destination migration with
      | Some source, Some destination =>
          match y_settings migration with
          | None => Some "Configuration must have a 'settings' section"
          | Some settings =>
              match y_columnMappings migration with
              | None => Some "Configuration must have a 'columnMappings' section"
              | Some _ =>
                  if missing_text (y_docId source)
                     || missing_text (y_tableId source)
                  then Some "Source configuration must have docId and tableId"
                  else if missing_text (y_docId destination)
                          || missing_text (y_tableId destination)
                  then Some "Destination configuration must have docId and tableId"
                  else if missing_number (y_batchSize settings)
                          || missing_number (y_insertBatchSize settings)
                          || missing_text (y_migrationFolder settings)
                  then Some "Settings must have batchSize, insertBatchSize, and migrationFolder"
                  else if ((default 0 (y_batchSize settings) <=? 0)
                           || (100 <? default 0 (y_batchSize settings)))%Z
                  then Some "Batch size must be between 1 and 100"
                  else if ((default 0 (y_insertBatchSize settings) <=? 0)
                           || (50 <? default 0 (y_insertBatchSize settings)))%Z
                  then Some "Insert batch size must be between 1 and 50"
                  else None
              end
          end
      | _, _ =>
          Some "Configuration must have both 'source' and 'destination' sections"
      end
  end.

(** The storage variables of the process environment. *)
Record SpacesVariables := {
  DO_SPACES_BUCKET : option string;
  DO_SPACES_ENDPOINT : option string;
  DO_SPACES_KEY : option string;
  DO_SPACES_SECRET : option string
}.

(** [createMigrationConfig]; the credentials and the region go to the
    storage client and are not kept in [MigrationConfig].  Reading a field
    of a missing [source], [destination] or [settings] section raises.  A
    missing [columnMappings] section would give a configuration whose
    mapping table is undefined, for which [MigrationConfig] has no value:
    the model stops there, where the source fails at the first column it
    looks up. *)
Definition createMigrationConfig (migration : YamlMigration)
    (vars : SpacesVariables) : string + MigrationConfig :=
  if missing_text (DO_SPACES_BUCKET vars) || missing_text (DO_SPACES_ENDPOINT vars)
     || missing_text (DO_SPACES_KEY vars) || missing_text (DO_SPACES_SECRET vars)
  then inl "DigitalOcean Spaces environment variables are not set. Required: DO_SPACES_BUCKET, DO_SPACES_ENDPOINT, DO_SPACES_KEY, DO_SPACES_SECRET"
  else
    match y_source migration, y_destination migration, y_settings migration,
          y_columnMappings migration with
    | Some source, Some destination, Some settings, Some mappings =>
        inr {| sourceDocId := default EmptyString (y_docId source);
               sourceTableId := default EmptyString (y_tableId source);
               destinationDocId := default EmptyString (y_docId destination);
               destinationTableId := default EmptyString (y_tableId destination);
               spacesBucket := default EmptyString (DO_SPACES_BUCKET vars);
               spacesEndpoint := default EmptyString (DO_SPACES_ENDPOINT vars);
               migrationFolder := default EmptyString (y_migrationFolder settings);
               batchSize := Z.to_nat (default 0%Z (y_batchSize settings));
               insertBatchSize := Z.to_nat (default 0%Z (y_insertBatchSize settings));
               columnMappings := mappings;
               skipColumns := y_skipColumns migration;
               transformations := y_transformations migration |}
    | _, _, _, _ => inl "Cannot read properties of undefined"
    end.

End Program.

Arguments Rejected {A} _.
Arguments NotOk {A} _ _ _.
Arguments Ok200 {A} _.
Arguments Ok {A} _.
Arguments Throw {A} _.
Arguments Diverge {A}.

(** ** A concrete number model

    Finite decimals [units / 10^scale], enough for the values that appear in
    the examples below. *)
Record decimal := { dec_units : Z; dec_scale : nat }.

Definition decimal_toString (d : decimal) : string :=
  let p := (10 ^ Z.of_nat (dec_scale d))%Z in
  let a := Z.abs (dec_units d) in
  let sign := if (dec_units d <? 0)%Z then "-" else EmptyString in
  let frac := pretty (a mod p + p)%Z in
  sign +:+ pretty (a / p)%Z
  +:+ (if (dec_scale d =? 0)%nat then EmptyString
       else "." +:+ String.substring 1 (dec_scale d) frac).

#[export] Instance decimal_numbers : NumberModel := {|
  number := decimal;
  num_zero := {| dec_units := 0; dec_scale := 0 |};
  num_truthy := fun d => negb (dec_units d =? 0)%Z;
  num_toString := decimal_toString
|}.

Definition dec (units : Z) (scale : nat) : value :=
  VNum {| dec_units := units; dec_scale := scale |}.

(** The spec's monetary and person examples, with their type tags. *)
Definition monetary_42_5 : value :=
  VObj [("@type", VStr "MonetaryAmount"); ("currency", VStr "USD");
        ("amount", dec 425 1)].

Definition person_jo : value :=
  VObj [("@type", VStr "Person"); ("name", VStr "Jo");
        ("email", VStr "jo@x.com")].

(** A reference to another row that also carries an email. *)
Definition reference_acme : list (string * value) :=
  [("@type", VStr "StructuredValue"); ("name", VStr "Acme");
   ("email", VStr "billing@acme.test"); ("url", VStr "https://coda.io/r/1")].

(** A person known by url only. *)
Definition person_url_only : list (string * value) :=
  [("@type", VStr "Person"); ("url", VStr "https://coda.io/u/7")].

(** The preference order as the specification words it, for persons and
    structured references alike: email, then name, then url. *)
Definition spec_reference_choice (o : list (string * value)) : value :=
  js_or (get o "email") (js_or (get o "name") (get o "url")).

(** ** A concrete configuration and concrete environments *)
Definition recordFileColumn : CodaColumn :=
  {| col_id := "c-record"; col_name := "Record file"; col_display := false;
     col_calculated := false; col_format_type := "attachments" |}.

Definition notesColumn : CodaColumn :=
  {| col_id := "c-notes"; col_name := "Notes"; col_display := false;
     col_calculated := false; col_format_type := "text" |}.

Definition amountColumn : CodaColumn :=
  {| col_id := "c-amount"; col_name := "Amount"; col_display := true;
     col_calculated := false; col_format_type := "currency" |}.

Definition refColumn : CodaColumn :=
  {| col_id := "c-ref"; col_name := "Ref #"; col_display := false;
     col_calculated := true; col_format_type := "number" |}.

Definition receiptColumn : CodaColumn :=
  {| col_id := "c-receipt"; col_name := "Receipt"; col_display := false;
     col_calculated := false; col_format_type := "link" |}.

Definition destAmountColumn : CodaColumn :=
  {| col_id := "c-total"; col_name := "Amount"; col_display := true;
     col_calculated := false; col_format_type := "currency" |}.

(** Two source columns feed the Receipt column, as the shipped
    configuration does for its Status column. *)
Definition demo_config : MigrationConfig :=
  {| sourceDocId := "doc-src"; sourceTableId := "grid-src";
     destinationDocId := "doc-dst"; destinationTableId := "grid-dst";
     spacesBucket := "receipts";
     spacesEndpoint := "https://nyc3.digitaloceanspaces.com";
     migrationFolder := "Migration";
     batchSize := 100; insertBatchSize := 20;
     columnMappings :=
       <["Amount" := "Amount"]>
         (<["Notes" := "Receipt"]> (<["Record file" := "Receipt"]> ∅));
     skipColumns := ["Ref #"];
     transformations := None |}.

Definition demo_source_columns : list CodaColumn :=
  [amountColumn; notesColumn; recordFileColumn; refColumn].

Definition demo_dest_columns : list CodaColumn :=
  [destAmountColumn; receiptColumn].

(** A cooperative remote: both tables exist, the sweep returns [rows] in one
    page, a targeted request returns all of [rows] whatever was asked,
    downloads and uploads succeed, and inserts and file operations answer
    as [insert] and [io] say. *)
Definition demo_env (rows : list Row)
    (insert : list (list (string * value)) -> response (option (list string)))
    (io : io_op -> option string) : env :=
  {| net_table := fun _ _ _ => Ok200 tt;
     net_columns := fun _ _ table =>
       Ok200 (if String.eqb table "grid-src" then demo_source_columns
              else demo_dest_columns);
     net_rows_page := fun _ _ _ _ _ => Ok200 (rows, None);
     net_rows_by_ids := fun _ _ _ _ => Ok200 (Some rows);
     net_download := fun _ _ => Ok200 tt;
     net_put := fun _ _ => None;
     net_insert := fun _ payloads => insert payloads;
     io_error := fun _ op => io op;
     clock_iso := fun _ => "2025-01-01T00:00:00.000Z";
     clock_ms := fun _ => "1735689600000";
     localeSort := fun columns => columns |}.

(** A remote that cannot be reached. *)
Definition offline_env : env :=
  {| net_table := fun _ _ _ => Rejected "fetch failed";
     net_columns := fun _ _ _ => Rejected "fetch failed";
     net_rows_page := fun _ _ _ _ _ => Rejected "fetch failed";
     net_rows_by_ids := fun _ _ _ _ => Rejected "fetch failed";
     net_download := fun _ _ => Rejected "fetch failed";
     net_put := fun _ _ => Some "fetch failed";
     net_insert := fun _ _ => Rejected "fetch failed";
     io_error := fun _ _ => None;
     clock_iso := fun _ => "2025-01-01T00:00:00.000Z";
     clock_ms := fun _ => "1735689600000";
     localeSort := fun columns => columns |}.

Definition no_io_error (op : io_op) : option string := None.

Definition empty_world : world :=
  {| files := ∅; documents := ∅; log := []; allResults := [] |}.

Definition row_1 : Row :=
  {| row_id := "i-src-1"; row_name := "Taxi";
     row_values := [("c-amount", dec 1850 2); ("c-notes", VStr "see attached")] |}.

Definition row_2 : Row :=
  {| row_id := "i-src-2"; row_name := "Hotel";
     row_values := [("c-amount", dec 24000 2)] |}.

(** A row with one attachment whose name has a space in it. *)
Definition row_with_receipt : Row :=
  {| row_id := "i-src-3"; row_name := "Lunch";
     row_values :=
       [("c-amount", dec 1200 2);
        ("c-record",
         VArr [VObj [("@type", VStr "ImageObject");
                     ("name", VStr "my receipt.png");
                     ("url", VStr "https://codahosted.io/my-receipt")]])] |}.

(** The remote acknowledges one row however many were sent. *)
Definition one_id_only (payloads : list (list (string * value)))
  : response (option (list string)) :=
  Ok200 (Some ["i-dst-1"]).

(** The remote hands out the same identifier for every row. *)
Definition same_id_for_all (payloads : list (list (string * value)))
  : response (option (list string)) :=
  Ok200 (Some (List.map (fun _ => "i-dst-7") payloads)).

(** The remote hands out one fresh identifier per row. *)
Definition fresh_ids (payloads : list (list (string * value)))
  : response (option (list string)) :=
  Ok200 (Some (List.map (fun i => "i-dst-" +:+ pretty i)
                        (seq 1 (length payloads)))).

(** The disk fills up when the merged document is copied to staging. *)
Definition staging_copy_fails (op : io_op) : option string :=
  match op with
  | IoCopy _ dst =>
      if String.prefix "upload/" dst
      then Some "ENOSPC: no space left on device" else None
  | _ => None
  end.

(** A configuration document as [migration-config.yaml] has it, with sizes
    10 and 5. *)
Definition demo_yaml : YamlMigration :=
  {| y_source := Some {| y_docId := Some "doc-src"; y_tableId := Some "grid-src" |};
     y_destination :=
       Some {| y_docId := Some "doc-dst"; y_tableId := Some "grid-dst" |};
     y_settings :=
       Some {| y_batchSize := Some 10%Z; y_insertBatchSize := Some 5%Z;
               y_migrationFolder := Some "expense-receipts" |};
     y_columnMappings := Some {["Notes" := "Notes"]};
     y_skipColumns := ["Row ID"];
     y_transformations := None |}.

Definition demo_vars : SpacesVariables :=
  {| DO_SPACES_BUCKET := Some "receipts";
     DO_SPACES_ENDPOINT := Some "https://nyc3.digitaloceanspaces.com";
     DO_SPACES_KEY := Some "key";
     DO_SPACES_SECRET := Some "secret" |}.

(** ** Vocabulary of the statements *)
Section Vocabulary.
Context `{NumberModel}.

(** The four tags [sanitizeValue] knows. *)
Definition known_tag (v : value) : bool :=
  is_str v "MonetaryAmount" || is_str v "StructuredValue"
  || is_str v "Person" || is_str v "ImageObject".

(** [config.transformations?.[name]] is truthy: a directive is configured
    under that name, or the name is one every object answers to. *)
Definition configured (config : MigrationConfig) (name : string) : bool :=
  match transformations config with
  | Some directives =>
      bool_decide (is_Some (directives !! name))
      || includes inherited_names name
  | None => false
  end.

(** A value in which no structured value has a field of its own named
    [toString]: none of its string coercions raises. *)
Fixpoint plain (v : value) : bool :=
  match v with
  | VArr items => forallb plain items
  | VObj o => negb (has o "toString") && forallb (fun kv => plain (snd kv)) o
  | _ => true
  end.

(** The value a mapping reads from a row, after its transform. *)
Definition transformed (sourceRow : Row) (m : ColumnMapping) : value :=
  let sourceValue := get (row_values sourceRow) (col_id (sourceColumn m)) in
  match transform m with
  | Some f => if is_nullish sourceValue then sourceValue else f sourceValue
  | None => sourceValue
  end.

(** The ordinary path of a mapped column: transform, sanitize, and bind the
    destination column unless nothing is left. *)
Definition ordinaryStep (sourceRow : Row) (data : list (string * value))
    (m : ColumnMapping) : list (string * value) :=
  let v := sanitizeValue (transformed sourceRow m) in
  if is_nullish v then data else set data (col_id (destinationColumn m)) v.

(** Whether a mapping writes a binding into the payload of a row: the
    'Record file' mapping when there is a processed file, any other mapping
    when something is left of its value. *)
Definition binds (sourceRow : Row) (fs : list ProcessedFile)
    (m : ColumnMapping) : bool :=
  if isReceiptMapping m then
    match fs with [] => false | _ :: _ => true end
  else negb (is_nullish (sanitizeValue (transformed sourceRow m))).


(** What the schema mapper promises about a mapping it emits. *)
Definition valid_mapping (config : MigrationConfig) (m : ColumnMapping) : Prop :=
  col_calculated (sourceColumn m) = false
  /\ (col_name (sourceColumn m) ∉ skipColumns config)
  /\ col_calculated (destinationColumn m) = false
  /\ columnMappings config !! col_name (sourceColumn m)
     = Some (col_name (destinationColumn m)).

(** A source column whose configured destination is missing from the
    destination schema, or is there only as a calculated column. *)
Definition no_target (config : MigrationConfig) (destColumns : list CodaColumn)
    (c : CodaColumn) : Prop :=
  forall n dc,
    columnMappings config !! col_name c = Some n ->
    dc ∈ destColumns -> col_name dc = n -> col_calculated dc = true.

(** The file a recovery run reads. *)
Definition ledgerPath (failedRowsPath : option string) : string :=
  match failedRowsPath with
  | Some p => if String.eqb p EmptyString then "failed-rows.json" else p
  | None => "failed-rows.json"
  end.

(** The partition of a list into consecutive chunks of [n] elements, the
    last one possibly shorter. *)
Fixpoint chunks {A} (fuel n : nat) (l : list A) : list (list A) :=
  match fuel with
  | 0 => []
  | S fuel' =>
      match l with
      | [] => []
      | _ => take n l :: chunks fuel' n (drop n l)
      end
  end.

Definition chunked {A} (n : nat) (l : list A) : list (list A) :=
  chunks (length l) n l.

(** Targeted retrieval as the specification words it: what one chunk
    contributes is its response filtered down to the requested ids, and
    nothing when the request failed. *)
Definition chunkRows (r : response (option (list Row))) (batchIds : list string)
  : list Row :=
  match r with
  | Ok200 (Some items) =>
      List.filter (fun item => includes batchIds (row_id item)) items
  | _ => []
  end.

(** Each chunk is requested on its own, one after the other, and the rows
    are concatenated. *)
Fixpoint targeted (E : env) (docId tableId : string) (cs : list (list string))
    (w : world) : list Row * world :=
  match cs with
  | [] => ([], w)
  | c :: rest =>
      let got := chunkRows (net_rows_by_ids E w docId tableId c) c in
      let w1 := with_log (log w ++ [EGetRowsByIds docId tableId c]) w in
      let r := targeted E docId tableId rest w1 in
      (got ++ fst r, snd r)
  end.

(** The batch-insert contract as the specification words it: [K] successes
    with distinct identifiers, or [K] failures sharing one error. *)
Definition all_or_nothing (K : nat) (results : list BatchResult) : Prop :=
  (length results = K
   /\ Forall (fun r => br_success r = true) results
   /\ NoDup (List.map br_destinationRowId results))
  \/ (length results = K
      /\ exists e, Forall (fun r => r = batchFailure e) results).

(** A response that fails the whole batch: a wire failure, or no
    identifier at all. *)
Definition fails_batch (r : response (option (list string))) : bool :=
  match r with
  | Ok200 (Some (_ :: _)) => false
  | _ => true
  end.

(** A computation that comes back (with a value or an exception) and
    leaves the orchestrator's result list alone. *)
Definition quiet {A} (m : M A) : Prop :=
  forall w, fst (m w) <> Diverge /\ allResults (snd (m w)) = allResults w.

(** A remote whose insert answers never carry fewer identifiers than rows
    were sent, unless they carry none. *)
Definition complete_answers (E : env) : Prop :=
  forall w payloads ids,
    net_insert E w payloads = Ok200 (Some ids) ->
    ids = [] \/ length payloads <= length ids.

(** A step that comes back and adds at most the file whose path it
    returns; when it throws, at most one file, in the scratch directory:
    the one a failed write leaves behind. *)
Definition careful (m : M string) : Prop :=
  forall w,
    match m w with
    | (Ok p, w') => files w' ⊆ files w ∪ {[p]}
    | (Throw _, w') =>
        exists q, String.prefix "temp/" q = true /\ files w' ⊆ files w ∪ {[q]}
    | (Diverge, _) => False
    end.

(** A file name that [path.join] appends as it is: it holds no separator
    and is not a dot segment. *)
Definition plain_name (s : string) : bool :=
  negb (existsb (Ascii.eqb slash) (String.list_ascii_of_string s))
  && negb (String.eqb s ".") && negb (String.eqb s "..").

(** An attachment whose name, when it is a text, is a plain file name. *)
Definition plain_attachment (a : value) : Prop :=
  match prop a "name" with
  | VStr s => plain_name s = true
  | _ => True
  end.

(** What the destination API takes: a boolean, a number, a text, or an
    array of such values. *)
Fixpoint api_value (v : value) : bool :=
  match v with
  | VBool _ | VNum _ | VStr _ => true
  | VArr items => forallb api_value items
  | VUndefined | VNull | VObj _ => false
  end.

Definition primitive (v : value) : bool :=
  match v with
  | VArr _ | VObj _ => false
  | _ => true
  end.

(** Values as the table API types them: structured values carry plain
    fields, and may come in arrays. *)
Fixpoint flat_fields (v : value) : bool :=
  match v with
  | VArr items => forallb flat_fields items
  | VObj o => forallb (fun kv => primitive (snd kv)) o
  | _ => true
  end.

(** [s.trim()] *)
Definition trimmed (s : string) : string :=
  String.string_of_list_ascii (trim (String.list_ascii_of_string s)).

(** What a mapping that writes puts into the payload. *)
Definition written (sourceRow : Row) (fs : list ProcessedFile)
    (m : ColumnMapping) : value :=
  if isReceiptMapping m then
    match fs with
    | first :: _ => VStr (uploadedUrl first)
    | [] => VUndefined
    end
  else sanitizeValue (transformed sourceRow m).

(** A source column the schema mapper has a destination for. *)
Definition mappable (config : MigrationConfig) (destColumns : list CodaColumn)
    (c dc : CodaColumn) : Prop :=
  col_calculated c = false
  /\ (col_name c ∉ skipColumns config)
  /\ (exists n, columnMappings config !! col_name c = Some n
                /\ n <> EmptyString
                /\ List.find (fun d => String.eqb (col_name d) n
                                       && negb (col_calculated d))
                             destColumns = Some dc).

(** A computation that leaves one component of the world as it found
    it, whatever its outcome. *)
Definition keeps {X A} (proj : world -> X) (m : M A) : Prop :=
  forall w, proj (snd (m w)) = proj w.

(** A computation all of whose requests satisfy [P]. *)
Definition emits {A} (P : event -> Prop) (m : M A) : Prop :=
  forall w, exists evs, log (snd (m w)) = log w ++ evs /\ Forall P evs.

(** The sweep as a relation, without a bound on its pages: from the world
    [w] and the token [tok], page after page, to the first page that comes
    without a next token. *)
Inductive paged (E : env) (docId tableId : string) (limit : nat)
  : world -> option string -> list Row -> world -> Prop :=
| paged_last w tok items next :
    net_rows_page E w docId tableId limit (live_token tok)
    = Ok200 (items, next) ->
    live_token next = None ->
    paged E docId tableId limit w tok items
      (with_log (log w ++ [EGetRowsPage docId tableId limit (live_token tok)]) w)
| paged_more w tok items next t rest w' :
    net_rows_page E w docId tableId limit (live_token tok)
    = Ok200 (items, next) ->
    live_token next = Some t ->
    paged E docId tableId limit
      (with_log (log w ++ [EGetRowsPage docId tableId limit (live_token tok)]) w)
      (Some t) rest w' ->
    paged E docId tableId limit w tok (items ++ rest) w'.

(** The staged documents of a list of prepared rows. *)
Definition staged_paths (rows : list PreparedRow) : list string :=
  flat_map (fun p => List.map pdfPath (prep_processedFiles p)) rows.

(** A path inside one of the two working directories. *)
Definition in_workdir (p : string) : bool :=
  String.prefix "temp/" p || String.prefix "upload/" p.

(** A disk on which removing a directory tree always works. *)
Definition rm_works (E : env) : Prop :=
  forall w dir, io_error E w (IoRemoveTree dir) = None.

(** The kinds of requests, by the phase that makes them. *)
Definition setup_request (e : event) : Prop :=
  match e with
  | EGetTable _ _ | EGetColumns _ _ | EPutObject _ => True
  | _ => False
  end.

Definition page_request (e : event) : Prop :=
  match e with
  | EGetRowsPage _ _ _ _ => True
  | _ => False
  end.

(** A targeted request for some of the ids [ids]. *)
Definition targeted_request (ids : list string) (e : event) : Prop :=
  match e with
  | EGetRowsByIds _ _ asked => asked ⊆ ids
  | _ => False
  end.

Definition file_request (e : event) : Prop :=
  match e with
  | EDownload _ | EPutObject _ => True
  | _ => False
  end.

Definition insert_request (config : MigrationConfig) (e : event) : Prop :=
  match e with
  | EInsertRows d t _ =>
      d = destinationDocId config /\ t = destinationTableId config
  | _ => False
  end.

(** A list of requests that falls into consecutive segments, one per
    phase, the requests of each segment being of that phase's kind. *)
Fixpoint in_phases (phases : list (event -> Prop)) (evs : list event) : Prop :=
  match phases with
  | [] => evs = []
  | P :: rest =>
      exists here later,
        evs = here ++ later /\ Forall P here /\ in_phases rest later
  end.

(** A computation whose requests come phase by phase. *)
Definition phased {A} (phases : list (event -> Prop)) (m : M A) : Prop :=
  forall w, exists evs,
    log (snd (m w)) = log w ++ evs /\ in_phases phases evs.

(** How many entries of [ids] are the row [id]. *)
Definition occurrences (id : string) (ids : list string) : nat :=
  length (List.filter (String.eqb id) ids).

(** Results that account for the rows [ids], row by row: a row has at
    least as many results as it has entries in [ids] and at most twice as
    many.  So every row of [ids] has a result, a row listed once has one
    or two, and a row that is not in [ids] has none. *)
Definition accounted (ids : list string) (results : list MigrationResult) : Prop :=
  forall id,
    occurrences id ids <= occurrences id (List.map sourceRowId results)
    /\ occurrences id (List.map sourceRowId results) <= 2 * occurrences id ids.

(** A disk on which deleting a file always works. *)
Definition unlink_works (E : env) : Prop :=
  forall w path, io_error E w (IoUnlink path) = None.

End Vocabulary.

(* ================================================================= *)
(** * Properties *)

Section SanitizeProperties.
Context `{NumberModel}.

Lemma is_str_eq (v : value) (lit : string) :
  is_str v lit = true <-> v = VStr lit.
Proof.
  destruct v; simpl; split; try discriminate; intros E.
  - apply String.eqb_eq in E. by subst.
  - injection E as ->. apply String.eqb_refl.
Qed.

Lemma js_String_object (o : list (string * value)) :
  js_String (VObj o) = "[object Object]".
Proof. reflexivity. Qed.

(** C10: a value tagged as a monetary amount whose amount is not a number
    sanitizes to the number 0. *)
Theorem sanitize_monetary_without_number (o : list (string * value)) :
  get o "@type" = VStr "MonetaryAmount" ->
  (forall n, get o "amount" <> VNum n) ->
  sanitizeValue (VObj o) = VNum num_zero.
Proof.
  intros Htag Hamount. simpl. unfold sanitizeObject.
  rewrite Htag. simpl.
  destruct (get o "amount") eqn:Ha; simpl; try reflexivity.
  exfalso. by apply (Hamount n).
Qed.

Lemma value_nested_ind (P : value -> Prop) :
  P VUndefined -> P VNull -> (forall b, P (VBool b)) -> (forall n, P (VNum n)) ->
  (forall s, P (VStr s)) ->
  (forall items, Forall P items -> P (VArr items)) ->
  (forall o, Forall (fun kv => P (snd kv)) o -> P (VObj o)) ->
  forall v, P v.
Proof.
  intros Hu Hn Hb Hnum Hs Harr Hobj.
  fix IH 1. intros [| | b | n | s | items | o].
  - exact Hu.
  - exact Hn.
  - apply Hb.
  - apply Hnum.
  - apply Hs.
  - apply Harr.
    exact ((fix go (l : list value) : Forall P l :=
              match l with
              | [] => @List.Forall_nil _ P
              | x :: rest => @List.Forall_cons _ P x rest (IH x) (go rest)
              end) items).
  - apply Hobj.
    exact ((fix go (l : list (string * value))
              : Forall (fun kv => P (snd kv)) l :=
              match l with
              | [] => @List.Forall_nil _ _
              | kv :: rest =>
                  @List.Forall_cons _ (fun kv => P (snd kv)) kv rest
                    (IH (snd kv)) (go rest)
              end) o).
Qed.

(** *** Sanitization and the error its coercions can raise *)
Lemma text_of_Some (v : value) :
  coercible v = true -> text_of v = Some (VStr (js_String v)).
Proof. intros Hv. unfold text_of, ToString. by rewrite Hv. Qed.

Lemma text_of_agrees (v r : value) :
  text_of v = Some r -> r = VStr (js_String v).
Proof.
  unfold text_of, ToString. destruct (coercible v); [| discriminate].
  by intros [= <-].
Qed.

Lemma or_else_Some (a b : value) (rest : option value) :
  rest = Some b -> or_else a rest = Some (js_or a b).
Proof. intros ->. unfold or_else, js_or. by destruct (truthy a). Qed.

Lemma or_else_agrees (a b r : value) (rest : option value) :
  (forall r0, rest = Some r0 -> r0 = b) ->
  or_else a rest = Some r -> r = js_or a b.
Proof.
  unfold or_else, js_or. intros Hrest. destruct (truthy a).
  - by intros [= <-].
  - apply Hrest.
Qed.

Lemma sanitizeObject_run_agrees (o : list (string * value)) (r : value) :
  sanitizeObject_run o = Some r -> r = sanitizeObject o.
Proof.
  unfold sanitizeObject_run, sanitizeObject. cbv zeta.
  destruct (is_str (get o "@type") "MonetaryAmount"); [by intros [= <-] |].
  destruct (is_str (get o "@type") "StructuredValue").
  { apply or_else_agrees. intros r1. apply or_else_agrees.
    intros r2. apply or_else_agrees. intros r3. apply text_of_agrees. }
  destruct (is_str (get o "@type") "Person").
  { apply or_else_agrees. intros r1. apply or_else_agrees.
    intros r2. apply text_of_agrees. }
  destruct (is_str (get o "@type") "ImageObject").
  { apply or_else_agrees. intros r1. apply or_else_agrees.
    intros r2. apply text_of_agrees. }
  destruct (truthy (get o "name")); [apply text_of_agrees |].
  destruct (truthy (get o "url")); [apply text_of_agrees |].
  destruct (truthy (get o "displayText")); [apply text_of_agrees |].
  destruct (truthy (get o "text")); apply text_of_agrees.
Qed.

(** Where sanitization returns, it returns what [sanitizeValue] computes. *)
Lemma sanitizeValue_run_agrees (v : value) :
  forall r, sanitizeValue_run v = Some r -> r = sanitizeValue v.
Proof.
  induction v as [| | b | n | s | items IH | o _] using value_nested_ind;
    intros r; simpl; try by intros [= <-].
  - match goal with
    | |- match ?each items with _ => _ end = _ -> _ =>
        assert (Heach : forall ys, each items = Some ys ->
                                   ys = List.map sanitizeValue items)
    end.
    { induction IH as [| x rest Hx _ IHrest]; intros ys; [by intros [= <-] |].
      destruct (sanitizeValue_run x) as [y |]; [| discriminate].
      match goal with
      | |- match ?e with _ => _ end = _ -> _ =>
          destruct e as [ys' |] eqn:Hrest; [| discriminate]
      end.
      intros [= <-]. simpl. by rewrite (Hx y eq_refl), (IHrest ys' eq_refl). }
    match goal with
    | |- match ?e with _ => _ end = _ -> _ =>
        destruct e as [ys |] eqn:Hys; [| discriminate]
    end.
    intros [= <-]. by rewrite (Heach ys eq_refl).
  - apply sanitizeObject_run_agrees.
Qed.

Lemma coercible_plain (v : value) : plain v = true -> coercible v = true.
Proof.
  induction v as [| | b | n | s | items IH | o _] using value_nested_ind;
    simpl; try done.
  - intros Hplain. induction IH as [| x rest Hx _ IHrest]; [done |].
    simpl in *. apply andb_true_iff in Hplain as [Hpx Hprest].
    rewrite (Hx Hpx), orb_true_r. by apply IHrest.
  - by intros [Hown _]%andb_true_iff.
Qed.

Lemma get_plain (o : list (string * value)) (key : string) :
  forallb (fun kv => plain (snd kv)) o = true -> plain (get o key) = true.
Proof.
  induction o as [| [k v] o IH]; simpl; [done |].
  intros [Hv Ho]%andb_true_iff. destruct (String.eqb k key); auto.
Qed.

Lemma sanitizeObject_run_plain (o : list (string * value)) :
  plain (VObj o) = true -> sanitizeObject_run o = Some (sanitizeObject o).
Proof.
  intros Hplain.
  assert (Hself : coercible (VObj o) = true) by by apply coercible_plain.
  assert (Hfield : forall key, coercible (get o key) = true).
  { intros key. apply coercible_plain. simpl in Hplain.
    apply andb_true_iff in Hplain as [_ Hfields]. by apply get_plain. }
  unfold sanitizeObject_run, sanitizeObject. cbv zeta.
  destruct (is_str (get o "@type") "MonetaryAmount"); [done |].
  destruct (is_str (get o "@type") "StructuredValue").
  { repeat apply or_else_Some. by apply text_of_Some. }
  destruct (is_str (get o "@type") "Person").
  { repeat apply or_else_Some. by apply text_of_Some. }
  destruct (is_str (get o "@type") "ImageObject").
  { repeat apply or_else_Some. by apply text_of_Some. }
  destruct (truthy (get o "name")); [by apply text_of_Some |].
  destruct (truthy (get o "url")); [by apply text_of_Some |].
  destruct (truthy (get o "displayText")); [by apply text_of_Some |].
  destruct (truthy (get o "text")); by apply text_of_Some.
Qed.

(** On a plain value sanitization returns. *)
Lemma sanitizeValue_run_plain (v : value) :
  plain v = true -> sanitizeValue_run v = Some (sanitizeValue v).
Proof.
  induction v as [| | b | n | s | items IH | o _] using value_nested_ind;
    intros Hplain; simpl; try done.
  - match goal with
    | |- match ?each items with _ => _ end = _ =>
        assert (Heach : each items = Some (List.map sanitizeValue items))
    end.
    { simpl in Hplain.
      induction IH as [| x rest Hx _ IHrest]; [done |].
      simpl in Hplain. apply andb_true_iff in Hplain as [Hpx Hprest].
      rewrite (Hx Hpx), (IHrest Hprest). done. }
    by rewrite Heach.
  - by apply sanitizeObject_run_plain.
Qed.

(** C4 (amended): on every value in which no structured value has a field
    of its own named [toString], sanitization returns.  By tag it returns
    the numeric amount of a monetary value; the email, else the name, else
    the string form of a person; the name, else the url, else the display
    text, else the string form of a structured reference; the url, else the
    name, else the string form of an image; and for a structured value with
    none of these four tags the string form of its first truthy [name],
    [url], [displayText] or [text], or of the value itself when it has none
    of them: wherever a string form is taken, provided the value that is
    turned into a string can be, having no field of its own named
    [toString]. *)
Theorem sanitizeValue_by_tag (o : list (string * value)) :
  (forall v, plain v = true -> exists r, sanitizeValue_run v = Some r)
  /\ (forall n, get o "@type" = VStr "MonetaryAmount" ->
                get o "amount" = VNum n ->
                sanitizeValue_run (VObj o) = Some (VNum n))
  /\ (get o "@type" = VStr "Person" ->
      truthy (get o "email") || truthy (get o "name") || coercible (VObj o)
      = true ->
      sanitizeValue_run (VObj o)
      = Some (js_or (get o "email")
                (js_or (get o "name") (VStr (js_String (VObj o))))))
  /\ (get o "@type" = VStr "StructuredValue" ->
      truthy (get o "name") || truthy (get o "url")
      || truthy (get o "displayText") || coercible (VObj o) = true ->
      sanitizeValue_run (VObj o)
      = Some (js_or (get o "name")
                (js_or (get o "url")
                   (js_or (get o "displayText") (VStr (js_String (VObj o)))))))
  /\ (get o "@type" = VStr "ImageObject" ->
      truthy (get o "url") || truthy (get o "name") || coercible (VObj o)
      = true ->
      sanitizeValue_run (VObj o)
      = Some (js_or (get o "url")
                (js_or (get o "name") (VStr (js_String (VObj o))))))
  /\ (known_tag (get o "@type") = false ->
      let chosen :=
        js_or (get o "name")
          (js_or (get o "url")
             (js_or (get o "displayText") (js_or (get o "text") (VObj o)))) in
      coercible chosen = true ->
      sanitizeValue_run (VObj o) = Some (VStr (js_String chosen))).
Proof.
  split; [| split; [| split; [| split; [| split]]]].
  - intros v Hplain. eexists. by apply sanitizeValue_run_plain.
  - intros n Htag Ha. simpl. unfold sanitizeObject_run. by rewrite Htag, Ha.
  - intros Htag Hself. simpl. unfold sanitizeObject_run. rewrite Htag. simpl.
    unfold or_else, js_or.
    destruct (truthy (get o "email")); [done |].
    destruct (truthy (get o "name")); [done |]. by apply text_of_Some.
  - intros Htag Hself. simpl. unfold sanitizeObject_run. rewrite Htag. simpl.
    unfold or_else, js_or.
    destruct (truthy (get o "name")); [done |].
    destruct (truthy (get o "url")); [done |].
    destruct (truthy (get o "displayText")); [done |]. by apply text_of_Some.
  - intros Htag Hself. simpl. unfold sanitizeObject_run. rewrite Htag. simpl.
    unfold or_else, js_or.
    destruct (truthy (get o "url")); [done |].
    destruct (truthy (get o "name")); [done |]. by apply text_of_Some.
  - unfold known_tag. intros Htag.
    apply orb_false_elim in Htag as [Htag Hi].
    apply orb_false_elim in Htag as [Htag Hp].
    apply orb_false_elim in Htag as [Hm Hs].
    cbv zeta. simpl sanitizeValue_run.
    unfold sanitizeObject_run, js_or. rewrite Hm, Hs, Hp, Hi.
    destruct (truthy (get o "name")); [apply text_of_Some |].
    destruct (truthy (get o "url")); [apply text_of_Some |].
    destruct (truthy (get o "displayText")); [apply text_of_Some |].
    destruct (truthy (get o "text")); apply text_of_Some.
Qed.

End SanitizeProperties.

(** C10, at a monetary value whose amount arrived as text. *)
Lemma sanitize_monetary_without_number_witness :
  sanitizeValue
    (VObj [("@type", VStr "MonetaryAmount"); ("amount", VStr "12.00")])
  = dec 0 0.
Proof.
  refine (sanitize_monetary_without_number (H := decimal_numbers)
            [("@type", VStr "MonetaryAmount"); ("amount", VStr "12.00")] _ _).
  - reflexivity.
  - intros n. simpl. discriminate.
Defined.

(** C4 (amended), at the specification's two examples. *)
Lemma sanitizeValue_by_tag_witness :
  sanitizeValue_run monetary_42_5 = Some (dec 425 1)
  /\ sanitizeValue_run person_jo = Some (VStr "jo@x.com").
Proof.
  split.
  - apply (proj1 (proj2 (sanitizeValue_by_tag
             [("@type", VStr "MonetaryAmount"); ("currency", VStr "USD");
              ("amount", dec 425 1)]))); reflexivity.
  - apply (proj1 (proj2 (proj2 (sanitizeValue_by_tag
             [("@type", VStr "Person"); ("name", VStr "Jo");
              ("email", VStr "jo@x.com")])))); reflexivity.
Defined.

(** C4 as stated fails: a structured reference that has both an email and a
    name sanitizes to its name, and a person known by url only sanitizes to
    its string form, where the stated order gives the email and the url. *)
Lemma sanitize_preference_counterexample :
  sanitizeValue_run (VObj reference_acme) = Some (VStr "Acme")
  /\ spec_reference_choice reference_acme = VStr "billing@acme.test"
  /\ sanitizeValue_run (VObj person_url_only) = Some (VStr "[object Object]")
  /\ spec_reference_choice person_url_only = VStr "https://coda.io/u/7"
  /\ sanitizeValue_run (VObj reference_acme)
     <> Some (spec_reference_choice reference_acme).
Proof. repeat split; try reflexivity. discriminate. Qed.

(** A structured value that has a field of its own named [toString]: the
    coercion to its string form raises. *)
Lemma sanitizeValue_run_raises :
  sanitizeValue_run (VObj [("toString", VStr "x")]) = None.
Proof. reflexivity. Qed.

Section MappingProperties.
Context `{NumberModel}.

Lemma includes_spec (l : list string) (x : string) :
  includes l x = true <-> x ∈ l.
Proof.
  unfold includes. rewrite existsb_exists. split.
  - intros (y & Hy & E). apply String.eqb_eq in E. subst.
    by apply list_elem_of_In.
  - intros Hx. exists x. split; [by apply list_elem_of_In | apply String.eqb_refl].
Qed.

Lemma includes_false (l : list string) (x : string) :
  includes l x = false <-> x ∉ l.
Proof.
  rewrite <- includes_spec. destruct (includes l x); split; congruence.
Qed.

(** *** Payloads *)
Lemma set_Forall (P : string * value -> Prop) data k v :
  Forall P data -> P (k, v) -> (forall w, P (k, w) -> P (k, v)) ->
  Forall P (set data k v).
Proof.
  intros Hd Hv _. induction Hd as [| [k' w] rest Hx Hrest IH]; simpl.
  - by constructor.
  - destruct (String.eqb k' k) eqn:Ek.
    + apply String.eqb_eq in Ek. subst. by constructor.
    + by constructor.
Qed.

Lemma has_set data k v k' :
  has (set data k v) k' = has data k' || String.eqb k k'.
Proof.
  unfold has. induction data as [| [k0 w] rest IH]; simpl.
  - by rewrite orb_false_r.
  - destruct (String.eqb k0 k) eqn:Ek; simpl.
    + apply String.eqb_eq in Ek. subst.
      destruct (String.eqb k k'); simpl; [reflexivity | by rewrite orb_false_r].
    + rewrite IH. by rewrite orb_assoc.
Qed.

Lemma mapRowStep_ordinary sourceRow fs data m :
  isReceiptMapping m = false ->
  mapRowStep sourceRow fs data m = ordinaryStep sourceRow data m.
Proof.
  intros Hm. unfold mapRowStep, ordinaryStep, transformed. rewrite Hm.
  destruct (transform m) as [f |]; simpl.
  - destruct (is_nullish (get (row_values sourceRow) (col_id (sourceColumn m))));
      simpl; by destruct (is_nullish (sanitizeValue _)).
  - by destruct (is_nullish (sanitizeValue _)).
Qed.

Lemma mapRowStep_nonnull sourceRow fs data m :
  Forall (fun kv => is_nullish (snd kv) = false) data ->
  Forall (fun kv => is_nullish (snd kv) = false) (mapRowStep sourceRow fs data m).
Proof.
  intros Hd. destruct (isReceiptMapping m) eqn:Hm.
  - unfold mapRowStep. rewrite Hm. destruct fs as [| first rest]; [done |].
    apply set_Forall; auto.
  - rewrite mapRowStep_ordinary by done. unfold ordinaryStep.
    destruct (is_nullish (sanitizeValue (transformed sourceRow m))) eqn:Hv;
      [done |].
    apply set_Forall; auto.
Qed.

Lemma fold_mapRowStep_nonnull sourceRow fs ms data :
  Forall (fun kv => is_nullish (snd kv) = false) data ->
  Forall (fun kv => is_nullish (snd kv) = false)
         (fold_left (mapRowStep sourceRow fs) ms data).
Proof.
  revert data. induction ms as [| m ms IH]; intros data Hd; simpl; [done |].
  apply IH. by apply mapRowStep_nonnull.
Qed.

(** Every key of a payload was bound by a mapping that writes. *)
Lemma fold_mapRowStep_keys sourceRow fs ms data k :
  has (fold_left (mapRowStep sourceRow fs) ms data) k = true ->
  has data k = true
  \/ exists m, m ∈ ms /\ binds sourceRow fs m = true
               /\ col_id (destinationColumn m) = k.
Proof.
  revert data. induction ms as [| m ms IH]; intros data Hk; simpl in Hk.
  - by left.
  - apply IH in Hk as [Hk | (m' & Hin & Hm' & Hid)].
    + destruct (binds sourceRow fs m) eqn:Hb.
      * unfold binds in Hb. destruct (isReceiptMapping m) eqn:Hm.
        -- unfold mapRowStep in Hk. rewrite Hm in Hk.
           destruct fs as [| first rest]; [discriminate |].
           rewrite has_set in Hk. apply orb_true_iff in Hk as [Hk | Hk];
             [by left |].
           right. exists m. apply String.eqb_eq in Hk.
           unfold binds. rewrite Hm.
           split; [apply list_elem_of_here | done].
        -- rewrite mapRowStep_ordinary in Hk by done. unfold ordinaryStep in Hk.
           apply negb_true_iff in Hb. rewrite Hb in Hk.
           rewrite has_set in Hk. apply orb_true_iff in Hk as [Hk | Hk];
             [by left |].
           right. exists m. apply String.eqb_eq in Hk.
           unfold binds. rewrite Hm, Hb.
           split; [apply list_elem_of_here | done].
      * left. unfold binds in Hb. destruct (isReceiptMapping m) eqn:Hm.
        -- unfold mapRowStep in Hk. rewrite Hm in Hk.
           by destruct fs.
        -- rewrite mapRowStep_ordinary in Hk by done. unfold ordinaryStep in Hk.
           apply negb_false_iff in Hb. by rewrite Hb in Hk.
    + right. exists m'. split; [by apply list_elem_of_further | done].
Qed.

Lemma mapRowData_keys sourceRow fs ms k :
  has (mapRowData sourceRow ms fs) k = true ->
  exists m, m ∈ ms /\ binds sourceRow fs m = true
            /\ col_id (destinationColumn m) = k.
Proof.
  intros Hk. apply fold_mapRowStep_keys in Hk as [Hk | Hk]; [| done].
  discriminate.
Qed.

(** C9: the payload built by row mapping holds no null and no undefined
    value: a column whose transformed and sanitized value is null or
    undefined leaves the payload as it was, no key being bound for it, and a
    destination column that no mapping writes is absent from the payload. *)
Theorem mapRowData_binds_no_null sourceRow ms fs :
  Forall (fun kv => is_nullish (snd kv) = false) (mapRowData sourceRow ms fs)
  /\ (forall data m,
        isReceiptMapping m = false ->
        is_nullish (sanitizeValue (transformed sourceRow m)) = true ->
        mapRowStep sourceRow fs data m = data)
  /\ (forall k,
        (forall m, m ∈ ms -> col_id (destinationColumn m) = k ->
                   binds sourceRow fs m = false) ->
        has (mapRowData sourceRow ms fs) k = false).
Proof.
  split; [| split].
  - unfold mapRowData. by apply fold_mapRowStep_nonnull.
  - intros data m Hm Hv. rewrite mapRowStep_ordinary by done.
    unfold ordinaryStep. by rewrite Hv.
  - intros k Hnone. destruct (has (mapRowData sourceRow ms fs) k) eqn:Hk; [| done].
    apply mapRowData_keys in Hk as (m & Hin & Hb & Hid).
    rewrite (Hnone m Hin Hid) in Hb. discriminate.
Qed.

End MappingProperties.

Section ReceiptProperties.
Context `{NumberModel}.
Variable E : env.
Variable config : MigrationConfig.




End ReceiptProperties.

Section SchemaProperties.
Context `{NumberModel}.
Variable E : env.
Variable config : MigrationConfig.

Lemma mapColumn_app dst acc c :
  mapColumn config dst acc c = acc ++ mapColumn config dst [] c.
Proof.
  unfold mapColumn.
  destruct (col_calculated c); [by rewrite app_nil_r |].
  destruct (includes (skipColumns config) (col_name c)); [by rewrite app_nil_r |].
  destruct (columnMappings config !! col_name c) as [n |]; [| by rewrite app_nil_r].
  destruct (String.eqb n EmptyString); [by rewrite app_nil_r |].
  destruct (List.find _ dst); [done | by rewrite app_nil_r].
Qed.

Lemma buildColumnMappings_fold src dst acc :
  fold_left (mapColumn config dst) src acc
  = acc ++ flat_map (mapColumn config dst []) src.
Proof.
  revert acc. induction src as [| c src IH]; intros acc; simpl.
  - by rewrite app_nil_r.
  - rewrite IH, mapColumn_app. by rewrite <- app_assoc.
Qed.

Lemma buildColumnMappings_flat src dst :
  buildColumnMappings config src dst = flat_map (mapColumn config dst []) src.
Proof. unfold buildColumnMappings. by rewrite buildColumnMappings_fold. Qed.

Lemma mapColumn_valid dst c m :
  m ∈ mapColumn config dst [] c ->
  valid_mapping config m /\ sourceColumn m = c /\ destinationColumn m ∈ dst.
Proof.
  unfold mapColumn.
  destruct (col_calculated c) eqn:Hcalc; [by intros ?%elem_of_nil |].
  destruct (includes (skipColumns config) (col_name c)) eqn:Hskip;
    [by intros ?%elem_of_nil |].
  destruct (columnMappings config !! col_name c) as [n |] eqn:Hcfg;
    [| by intros ?%elem_of_nil].
  destruct (String.eqb n EmptyString); [by intros ?%elem_of_nil |].
  destruct (List.find _ dst) as [dc |] eqn:Hfind; [| by intros ?%elem_of_nil].
  apply find_some in Hfind as [Hin Hdc].
  apply andb_true_iff in Hdc as [Hname Hnc].
  apply String.eqb_eq in Hname. apply negb_true_iff in Hnc.
  simpl. intros ->%list_elem_of_singleton. unfold valid_mapping. simpl.
  repeat split; try done.
  - by apply includes_false.
  - by rewrite Hname.
  - by apply list_elem_of_In.
Qed.

Lemma mapColumn_no_target dst c :
  no_target config dst c -> mapColumn config dst [] c = [].
Proof.
  intros Hno. unfold mapColumn.
  destruct (col_calculated c); [done |].
  destruct (includes (skipColumns config) (col_name c)); [done |].
  destruct (columnMappings config !! col_name c) as [n |] eqn:Hcfg; [| done].
  destruct (String.eqb n EmptyString); [done |].
  destruct (List.find _ dst) as [dc |] eqn:Hfind; [| done].
  apply find_some in Hfind as [Hin Hdc].
  apply andb_true_iff in Hdc as [Hname Hnc].
  apply String.eqb_eq in Hname. apply negb_true_iff in Hnc.
  rewrite (Hno n dc) in Hnc; try done. by apply list_elem_of_In.
Qed.

Lemma buildColumnMappings_valid src dst m :
  m ∈ buildColumnMappings config src dst ->
  valid_mapping config m /\ sourceColumn m ∈ src /\ destinationColumn m ∈ dst.
Proof.
  rewrite buildColumnMappings_flat. intros Hm.
  apply list_elem_of_In, in_flat_map in Hm as (c & Hc & Hm).
  apply list_elem_of_In, mapColumn_valid in Hm as (Hv & <- & Hd).
  repeat split; try apply Hv; try done. by apply list_elem_of_In.
Qed.

(** The mapper's result is always the loop run on two fetched schemas. *)
Lemma createColumnMapping_result sd st dd dt w ms w' :
  createColumnMapping E config sd st dd dt w = (Ok ms, w') ->
  exists src dst, ms = buildColumnMappings config src dst.
Proof.
  unfold createColumnMapping, bind, attempt, getTableColumns, request, bind,
    read, emit, ret, throw.
  destruct (net_columns E w sd st) as [msg | status text body | src]; simpl;
    match goal with
    | |- context [net_columns E ?w1 dd dt] =>
        destruct (net_columns E w1 dd dt) as [msg' | status' text' body' | dst]
    end; simpl; intros Hrun; try discriminate.
  injection Hrun as <- _. eauto.
Qed.

(** C6: every mapping the schema mapper emits pairs a source column that is
    neither calculated nor in the skip-list with a destination column that
    is not calculated and bears the name configured for that source column;
    and a source column whose configured destination is missing or
    calculated is dropped, the other columns being mapped as without it. *)
Theorem createColumnMapping_emits_valid_mappings sd st dd dt w ms w' :
  createColumnMapping E config sd st dd dt w = (Ok ms, w') ->
  Forall (valid_mapping config) ms
  /\ (forall before c after dst,
        no_target config dst c ->
        buildColumnMappings config (before ++ c :: after) dst
        = buildColumnMappings config (before ++ after) dst).
Proof.
  intros Hrun. split.
  - apply createColumnMapping_result in Hrun as (src & dst & ->).
    apply Forall_forall. intros m Hm.
    by apply buildColumnMappings_valid in Hm as [Hv _].
  - intros before c after dst Hno.
    rewrite !buildColumnMappings_flat, !flat_map_app. simpl.
    by rewrite (mapColumn_no_target dst c Hno).
Qed.

End SchemaProperties.

Section InsertProperties.
Context `{NumberModel}.
Variable E : env.
Variable config : MigrationConfig.

Lemma map_is_fmap {A B} (f : A -> B) (l : list A) : List.map f l = f <$> l.
Proof. induction l as [| a l IH]; simpl; [done | by rewrite IH]. Qed.

Lemma map_const_replicate {A B} (l : list A) (b : B) :
  List.map (fun _ => b) l = replicate (length l) b.
Proof. induction l as [| a l IH]; simpl; [done | by rewrite IH]. Qed.

(** One call is one wire request, and it never throws. *)
Lemma insertRowsBatch_run rows w :
  rows <> [] ->
  exists results,
    insertRowsBatch E config rows w
    = (Ok results,
       with_log (log w ++ [EInsertRows (dstDoc config) (dstTable config) rows]) w)
    /\ (forall ids,
          net_insert E w rows = Ok200 (Some ids) -> ids <> [] ->
          results = List.map batchSuccess ids)
    /\ (fails_batch (net_insert E w rows) = true ->
        exists e, results = replicate (length rows) (batchFailure e)).
Proof.
  intros Hne. destruct rows as [| row rows]; [done |].
  unfold insertRowsBatch, try_catch, bind, read, emit, ret, throw.
  destruct (net_insert E w (row :: rows))
    as [msg | status text body | [[| rowId more] |]] eqn:Hr; simpl;
    (eexists; split; [reflexivity |]; split;
     [intros ids Hids Hne'; try congruence | intros Hf; try discriminate]).
  all: try (eexists; by rewrite <- map_const_replicate).
  all: try (injection Hids as <-; done).
Qed.

(** C2 (amended): a batch-insert call over a non-empty list of K payloads
    makes one wire request and does not raise; when the response carries
    exactly K identifiers it returns exactly K success entries carrying
    those identifiers in response order, distinct whenever the remote's
    identifiers are distinct; and on a wire failure or an absent or empty
    identifier list it returns exactly K failure entries sharing one error
    string. *)
Theorem insertRowsBatch_all_or_nothing rows w :
  rows <> [] ->
  exists results,
    insertRowsBatch E config rows w
    = (Ok results,
       with_log (log w ++ [EInsertRows (dstDoc config) (dstTable config) rows]) w)
    /\ (forall ids,
          net_insert E w rows = Ok200 (Some ids) ->
          length ids = length rows ->
          length results = length rows
          /\ (forall i, results !! i = batchSuccess <$> ids !! i)
          /\ (NoDup ids -> all_or_nothing (length rows) results))
    /\ (fails_batch (net_insert E w rows) = true ->
        (exists e, results = replicate (length rows) (batchFailure e))
        /\ all_or_nothing (length rows) results).
Proof.
  intros Hne.
  destruct (insertRowsBatch_run rows w Hne) as (results & Hrun & Hok & Hfail).
  exists results. split; [exact Hrun |]. split.
  - intros ids Hids Hlen.
    assert (Hne' : ids <> []).
    { intros ->. destruct rows; [done | discriminate]. }
    rewrite (Hok ids Hids Hne').
    split; [by rewrite length_map |]. split.
    + intros i. by rewrite list_lookup_fmap.
    + intros Hnd. left. split; [by rewrite length_map |]. split.
      * apply Forall_forall. intros r Hr.
        apply list_elem_of_In, in_map_iff in Hr as (rowId & <- & _). done.
      * rewrite map_map. simpl. rewrite map_is_fmap.
        apply NoDup_fmap_2; [| done]. by intros a b [= ->].
  - intros Hf. destruct (Hfail Hf) as [e ->].
    split; [by exists e |]. right.
    split; [by rewrite length_replicate |].
    exists e. apply Forall_forall. intros r Hr.
    by apply elem_of_replicate in Hr as [-> _].
Qed.

End InsertProperties.

Section RetrievalProperties.
Context `{NumberModel}.
Variable E : env.

(** One chunk: one request, whose failure is swallowed. *)
Lemma fetchChunk_run docId tableId c w :
  fetchChunk E docId tableId c w
  = (Ok (chunkRows (net_rows_by_ids E w docId tableId c) c),
     with_log (log w ++ [EGetRowsByIds docId tableId c]) w).
Proof.
  unfold fetchChunk, try_catch, bind, read, emit, ret, throw, chunkRows.
  by destruct (net_rows_by_ids E w docId tableId c)
    as [msg | status text body | [items |]].
Qed.

Lemma specificRowsFrom_run fuel docId tableId ids :
  forall i rows w,
    specificRowsFrom E fuel docId tableId ids i rows w
    = (Ok (rows ++ fst (targeted E docId tableId (chunks fuel 20 (drop i ids)) w)),
       snd (targeted E docId tableId (chunks fuel 20 (drop i ids)) w)).
Proof.
  induction fuel as [| fuel IH]; intros i rows w; simpl.
  - by rewrite app_nil_r.
  - destruct (i <? length ids)%nat eqn:Hi.
    + apply Nat.ltb_lt in Hi.
      destruct (drop i ids) as [| x rest] eqn:Hd.
      { apply (f_equal length) in Hd. rewrite length_drop in Hd. simpl in Hd. lia. }
      rewrite <- Hd. unfold bind. rewrite fetchChunk_run.
      rewrite IH. unfold slice. rewrite drop_drop. simpl.
      by rewrite <- app_assoc.
    + apply Nat.ltb_ge in Hi. rewrite drop_ge by done. simpl.
      by rewrite app_nil_r.
Qed.

Lemma chunks_concat {A} n fuel (l : list A) :
  0 < n -> length l <= fuel -> concat (chunks fuel n l) = l.
Proof.
  intros Hn. revert l. induction fuel as [| fuel IH]; intros l Hl.
  - destruct l; [done | simpl in Hl; lia].
  - destruct l as [| x l]; [done |].
    change (chunks (S fuel) n (x :: l))
      with (take n (x :: l) :: chunks fuel n (drop n (x :: l))).
    simpl concat. rewrite IH.
    + apply take_drop.
    + rewrite length_drop. simpl in *. lia.
Qed.

Lemma chunks_sizes {A} n fuel (l : list A) :
  0 < n -> Forall (fun c => 0 < length c <= n) (chunks fuel n l).
Proof.
  intros Hn. revert l. induction fuel as [| fuel IH]; intros l; [constructor |].
  destruct l as [| x l]; [constructor |].
  change (chunks (S fuel) n (x :: l))
    with (take n (x :: l) :: chunks fuel n (drop n (x :: l))).
  constructor; [| apply IH].
  rewrite length_take. simpl. lia.
Qed.

Lemma targeted_log docId tableId cs w :
  log (snd (targeted E docId tableId cs w))
  = log w ++ List.map (EGetRowsByIds docId tableId) cs.
Proof.
  revert w. induction cs as [| c cs IH]; intros w; simpl.
  - by rewrite app_nil_r.
  - rewrite IH. simpl. by rewrite <- app_assoc.
Qed.

Lemma chunkRows_requested r c row :
  row ∈ chunkRows r c -> row_id row ∈ c.
Proof.
  destruct r as [msg | status text body | [items |]]; simpl;
    try by intros ?%elem_of_nil.
  intros Hin. apply list_elem_of_In, filter_In in Hin as [_ Hin].
  by apply includes_spec.
Qed.

Lemma targeted_requested docId tableId cs w row :
  row ∈ fst (targeted E docId tableId cs w) -> row_id row ∈ concat cs.
Proof.
  revert w. induction cs as [| c cs IH]; intros w; simpl.
  - by intros ?%elem_of_nil.
  - intros [Hin | Hin]%elem_of_app.
    + apply elem_of_app. left. by apply chunkRows_requested in Hin.
    + apply elem_of_app. right. by apply IH in Hin.
Qed.

(** C5: targeted retrieval cuts the requested ids into consecutive chunks
    of 20, makes one request per chunk and no other, keeps of each response
    only the rows whose id is in that chunk, and contributes nothing for a
    chunk whose request failed while going on with the next ones; so it
    always returns, every returned row has a requested id, and the result
    can miss requested rows. *)
Theorem getSpecificRows_is_targeted docId tableId ids w :
  let cs := chunked 20 ids in
  getSpecificRows E docId tableId ids w
  = (Ok (fst (targeted E docId tableId cs w)),
     snd (targeted E docId tableId cs w))
  /\ concat cs = ids
  /\ Forall (fun c => 0 < length c <= 20) cs
  /\ log (snd (targeted E docId tableId cs w))
     = log w ++ List.map (EGetRowsByIds docId tableId) cs
  /\ (forall row, row ∈ fst (targeted E docId tableId cs w) -> row_id row ∈ ids)
  /\ fst (getSpecificRows offline_env "doc-src" "grid-src" ["A"; "B"; "C"]
             empty_world)
     = Ok [].
Proof.
  intros cs. split; [| split; [| split; [| split; [| split]]]].
  - unfold getSpecificRows. rewrite specificRowsFrom_run. by rewrite drop_0.
  - apply chunks_concat; lia.
  - apply chunks_sizes. lia.
  - apply targeted_log.
  - intros row Hrow. apply targeted_requested in Hrow.
    unfold cs, chunked in Hrow. by rewrite chunks_concat in Hrow by lia.
  - vm_compute. reflexivity.
Qed.

End RetrievalProperties.

Section RecoveryProperties.
Context `{NumberModel}.
Variable E : env.
Variable config : MigrationConfig.

(** C7: a recovery run that reads a ledger whose list of failed row ids is
    empty (or absent) returns the empty result list and leaves the world as
    it found it: no request of any kind is made. *)
Theorem recover_with_empty_ledger failedRowsPath l w :
  documents w !! ledgerPath failedRowsPath = Some (LedgerJson l) ->
  io_error E w (IoReadFile (ledgerPath failedRowsPath)) = None ->
  default [] (failedRowIds l) = [] ->
  recover E config failedRowsPath w = (Ok [], w).
Proof.
  intros Hdoc Hread Hids.
  unfold recover, bind, read, io, ret. fold (ledgerPath failedRowsPath).
  rewrite Hdoc, Hread. simpl. by rewrite Hids.
Qed.

End RecoveryProperties.

Section OrchestrationProperties.
Context `{NumberModel}.
Variable E : env.
Variable config : MigrationConfig.

(** *** Computations that come back and do not touch the result list *)
Lemma quiet_ret {A} (a : A) : quiet (ret a).
Proof. by intros w. Qed.

Lemma quiet_throw {A} (e : string) : quiet (@throw _ A e).
Proof. by intros w. Qed.

Lemma quiet_read {A} (f : world -> A) : quiet (read f).
Proof. by intros w. Qed.

Lemma quiet_emit (e : event) : quiet (emit e).
Proof. by intros w. Qed.

Lemma quiet_io (op : io_op) : quiet (io E op).
Proof. intros w. unfold io. by destruct (io_error E w op). Qed.

Lemma quiet_files (f : world -> gset string) :
  quiet (fun w => (Ok tt, with_files (f w) w)).
Proof. by intros w. Qed.

Lemma quiet_bind {A B} (m : M A) (k : A -> M B) :
  quiet m -> (forall a, quiet (k a)) -> quiet (bind m k).
Proof.
  intros Hm Hk w. unfold bind. destruct (Hm w) as [Hd Hr].
  destruct (m w) as [[a | e |] w1]; simpl in *; try done.
  destruct (Hk a w1) as [Hd' Hr']. split; [done | congruence].
Qed.

Lemma quiet_try_catch {A} (m : M A) (h : string -> M A) :
  quiet m -> (forall e, quiet (h e)) -> quiet (try_catch m h).
Proof.
  intros Hm Hh w. unfold try_catch. destruct (Hm w) as [Hd Hr].
  destruct (m w) as [[a | e |] w1]; simpl in *; try done.
  destruct (Hh e w1) as [Hd' Hr']. split; [done | congruence].
Qed.

Lemma quiet_attempt {A} (m : M A) : quiet m -> quiet (attempt m).
Proof.
  intros Hm w. unfold attempt. destruct (Hm w) as [Hd Hr].
  by destruct (m w) as [[a | e |] w1].
Qed.

Lemma quiet_collect {A B} (xs : list A) (f : A -> M B) (ys : list B) :
  (forall x, quiet (f x)) -> quiet (collect xs f ys).
Proof.
  intros Hf. revert ys. induction xs as [| x xs IH]; intros ys; simpl.
  - apply quiet_ret.
  - apply quiet_bind; [by apply quiet_attempt |].
    intros [e | y]; [apply quiet_ret | apply IH].
Qed.

Lemma quiet_for_each {A} (xs : list A) (body : A -> M unit) :
  (forall x, quiet (body x)) -> quiet (for_each xs body).
Proof.
  intros Hb. induction xs as [| x xs IH]; simpl.
  - apply quiet_ret.
  - apply quiet_bind; [apply Hb | by intros _].
Qed.

Create HintDb quiet.
#[local] Hint Resolve quiet_ret quiet_throw quiet_read quiet_emit quiet_io
  quiet_files quiet_attempt quiet_collect quiet_for_each : quiet.

Ltac quiet_step :=
  match goal with
  | |- quiet (bind _ _) => apply quiet_bind; [| intros ?]
  | |- quiet (try_catch _ _) => apply quiet_try_catch; [| intros ?]
  | |- quiet (for_each _ _) => apply quiet_for_each; intros ?
  | |- quiet (collect _ _ _) => apply quiet_collect; intros ?
  | |- quiet (match ?x with _ => _ end) => destruct x
  | |- _ => solve [auto with quiet]
  end.

Ltac quiet_by_steps := cbv zeta; repeat (cbv beta; quiet_step).

Lemma quiet_existsSync p : quiet (existsSync p).
Proof. apply quiet_read. Qed.

Lemma quiet_writeFileSync p : quiet (writeFileSync E p).
Proof. unfold writeFileSync. quiet_by_steps. Qed.

Lemma quiet_readFileSync p : quiet (readFileSync E p).
Proof. unfold readFileSync. quiet_by_steps. apply quiet_existsSync. Qed.

Lemma quiet_copyFileSync src dst : quiet (copyFileSync E src dst).
Proof. unfold copyFileSync. quiet_by_steps. apply quiet_existsSync. Qed.

Lemma quiet_unlinkSync p : quiet (unlinkSync E p).
Proof. unfold unlinkSync. quiet_by_steps. Qed.

#[local] Hint Resolve quiet_existsSync quiet_writeFileSync quiet_readFileSync
  quiet_copyFileSync quiet_unlinkSync : quiet.

Lemma quiet_cleanup ps : quiet (cleanup E ps).
Proof. unfold cleanup. quiet_by_steps. Qed.

Lemma quiet_downloadFile url name : quiet (downloadFile E url name).
Proof. unfold downloadFile. quiet_by_steps. Qed.

Lemma quiet_convertToPdf p : quiet (convertToPdf E p).
Proof.
  unfold convertToPdf, imageToPdf, createPlaceholderPdf. quiet_by_steps.
Qed.

Lemma quiet_mergePdfs ps out : quiet (mergePdfs E ps out).
Proof. unfold mergePdfs. quiet_by_steps. Qed.

#[local] Hint Resolve quiet_cleanup quiet_downloadFile quiet_convertToPdf
  quiet_mergePdfs : quiet.

Lemma quiet_processAttachments atts base : quiet (processAttachments E atts base).
Proof. unfold processAttachments. quiet_by_steps. Qed.

Lemma quiet_uploadFile p name : quiet (uploadFile E config p name).
Proof. unfold uploadFile, putObject. quiet_by_steps. Qed.

Lemma quiet_getBaseFileName row atts : quiet (getBaseFileName row atts).
Proof. unfold getBaseFileName. quiet_by_steps. Qed.

#[local] Hint Resolve quiet_processAttachments quiet_uploadFile
  quiet_getBaseFileName : quiet.

Lemma quiet_prepareRow row ms : quiet (prepareRow E config row ms).
Proof. unfold prepareRow, processRowAttachments. quiet_by_steps. Qed.

Lemma quiet_releaseFiles p : quiet (releaseFiles E p).
Proof. unfold releaseFiles, cleanupProcessedFile. quiet_by_steps. Qed.

Lemma quiet_insertRowsBatch rows : quiet (insertRowsBatch E config rows).
Proof. unfold insertRowsBatch. quiet_by_steps. Qed.

(** *** Inversion of a run that returned *)
Lemma bind_Ok {A B} (m : M A) (k : A -> M B) w b w' :
  bind m k w = (Ok b, w') ->
  exists a w1, m w = (Ok a, w1) /\ k a w1 = (Ok b, w').
Proof.
  unfold bind. destruct (m w) as [[a | e |] w1]; intros Hrun; try discriminate.
  by exists a, w1.
Qed.

Lemma try_finally_Ok {A} (m : M A) (f : M unit) w a w' :
  try_finally m f w = (Ok a, w') -> exists w1, m w = (Ok a, w1).
Proof.
  unfold try_finally. destruct (m w) as [[a' | e |] w1]; intros Hrun;
    try discriminate.
  injection Hrun as -> _. by exists w1.
Qed.

(** *** The attachment pipeline and the files it leaves behind *)
Lemma prefix_append (s t : string) : String.prefix s (s +:+ t) = true.
Proof.
  induction s as [| c s IH]; simpl; [by destruct t |].
  by destruct (ascii_dec c c).
Qed.

Lemma in_temp_path name : String.prefix "temp/" (path_join tempDir name) = true.
Proof. apply (prefix_append "temp/" name). Qed.

(** A write that fails leaves the file it has opened. *)
Lemma writeFileSync_files p w :
  match writeFileSync E p w with
  | (Ok _, w') => files w' = {[p]} ∪ files w
  | (Throw _, w') => files w' = files w \/ files w' = {[p]} ∪ files w
  | (Diverge, _) => False
  end.
Proof.
  unfold writeFileSync, bind, io.
  destruct (io_error E w (IoOpen p)); [by left |]. cbn.
  match goal with |- context [io_error E ?w0 ?op] =>
    destruct (io_error E w0 op) end; cbn; [by right | done].
Qed.

Lemma nothing_new (F : gset string) :
  exists q, String.prefix "temp/" q = true /\ F ⊆ F ∪ {[q]}.
Proof. exists "temp/". split; [reflexivity | set_solver]. Qed.

Lemma one_new (F F' : gset string) p :
  String.prefix "temp/" p = true ->
  F' = F \/ F' = {[p]} ∪ F ->
  exists q, String.prefix "temp/" q = true /\ F' ⊆ F ∪ {[q]}.
Proof.
  intros Hp [-> | ->]; exists p; (split; [done | set_solver]).
Qed.

Lemma careful_downloadFile url name : careful (downloadFile E url name).
Proof.
  intros w. unfold downloadFile, bind at 1, read, bind at 1, emit.
  cbn [fst snd].
  set (w0 := with_log (log w ++ [EDownload (js_String url)]) w).
  change (files w) with (files w0).
  destruct (net_download E w (js_String url)); cbn;
    try apply nothing_new.
  destruct name as [| | | | name | |]; cbn; try apply nothing_new.
  unfold bind. pose proof (writeFileSync_files (path_join tempDir name) w0) as Hw.
  destruct (writeFileSync E (path_join tempDir name) w0) as [[[] | e |] w1];
    cbn; [| | done].
  - rewrite Hw. set_solver.
  - eapply one_new; [apply in_temp_path | exact Hw].
Qed.

Lemma careful_convertToPdf p : careful (convertToPdf E p).
Proof.
  intros w.
  unfold convertToPdf. cbv zeta.
  set (ext := toLowerCase (path_extname p)).
  pose proof (in_temp_path (path_basename p ext +:+ ".pdf")) as Hout.
  revert Hout.
  generalize (path_join tempDir (path_basename p ext +:+ ".pdf")).
  intros outputPath Hout.
  destruct (String.eqb ext ".pdf").
  - destruct (String.eqb p outputPath); [cbn; set_solver |].
    unfold copyFileSync, existsSync, bind, read, io, ret, throw.
    destruct (bool_decide (p ∈ files w)); cbn; [| apply nothing_new].
    destruct (io_error E w (IoCopy p outputPath)); cbn;
      [apply nothing_new | set_solver].
  - destruct (includes imageTypes ext).
    + unfold imageToPdf, bind at 1, bind at 1, existsSync, read.
      destruct (bool_decide (p ∈ files w)); cbn; [| apply nothing_new].
      unfold bind at 1, io.
      destruct (io_error E w (IoEncodeImage p)); cbn; [apply nothing_new |].
      pose proof (writeFileSync_files outputPath w) as Hw.
      destruct (writeFileSync E outputPath w) as [[[] | e |] w1];
        cbn; [| | done].
      * rewrite Hw. set_solver.
      * by eapply one_new.
    + unfold createPlaceholderPdf, bind at 1, bind at 1, io.
      destruct (io_error E w (IoDrawPlaceholder p)); cbn; [apply nothing_new |].
      pose proof (writeFileSync_files outputPath w) as Hw.
      destruct (writeFileSync E outputPath w) as [[[] | e |] w1];
        cbn; [| | done].
      * rewrite Hw. set_solver.
      * by eapply one_new.
Qed.

Lemma collect_careful_values {A} (g : A -> M string) :
  (forall x, careful (g x)) ->
  forall xs ys w,
  exists ys' err w',
    collect xs g ys w = (Ok (ys', err), w')
    /\ match err with
       | None => files w' ⊆ files w ∪ list_to_set ys'
       | Some _ =>
           exists q, String.prefix "temp/" q = true
                     /\ files w' ⊆ files w ∪ list_to_set ys' ∪ {[q]}
       end
    /\ list_to_set (C := gset string) ys ⊆ list_to_set ys'.
Proof.
  intros Hg. induction xs as [| x xs IH]; intros ys w; simpl.
  - exists ys, None, w. unfold ret. split; [done | set_solver].
  - unfold bind at 1, attempt. specialize (Hg x w).
    destruct (g x w) as [[y | e |] w1]; simpl; try done.
    + destruct (IH (ys ++ [y]) w1) as (ys' & err & w' & Hrun & Hfiles & Hys).
      exists ys', err, w'. split; [done |].
      rewrite list_to_set_app_L in Hys. simpl in Hys.
      split; [| set_solver].
      destruct err as [e |].
      * destruct Hfiles as (q & Hq & Hfiles). exists q.
        split; [done | set_solver].
      * set_solver.
    + destruct Hg as (q & Hq & Hfiles).
      exists ys, (Some e), w1. unfold ret. split; [done |].
      split; [| set_solver]. exists q. split; [done | set_solver].
Qed.

Lemma collect_careful (f : string -> M string) :
  (forall x, careful (f x)) ->
  forall xs ys w,
  exists ys' err w',
    collect xs f ys w = (Ok (ys', err), w')
    /\ match err with
       | None => files w' ⊆ files w ∪ list_to_set ys'
       | Some _ =>
           exists q, String.prefix "temp/" q = true
                     /\ files w' ⊆ files w ∪ list_to_set ys' ∪ {[q]}
       end
    /\ list_to_set (C := gset string) ys ⊆ list_to_set ys'.
Proof. apply collect_careful_values. Qed.

Lemma cleanup_files ps :
  unlink_works E ->
  forall w,
  exists w', cleanup E ps w = (Ok tt, w') /\ files w' = files w ∖ list_to_set ps.
Proof.
  intros Hunlink. unfold cleanup.
  induction ps as [| p ps IH]; intros w; simpl.
  - exists w. unfold ret. split; [done | set_solver].
  - unfold bind at 1, try_catch, bind at 1, existsSync, read.
    destruct (bool_decide (p ∈ files w)) eqn:Hp.
    + unfold unlinkSync, bind, io. rewrite Hunlink. simpl.
      destruct (IH (with_files (files w ∖ {[p]}) w)) as (w' & Hrun & Hfiles).
      exists w'. split; [done |]. rewrite Hfiles. simpl. set_solver.
    + unfold ret. destruct (IH w) as (w' & Hrun & Hfiles).
      exists w'. split; [done |]. rewrite Hfiles.
      apply bool_decide_eq_false in Hp. set_solver.
Qed.

Lemma loadPdf_files p w :
  files (snd (bind (readFileSync E p) (fun _ => io E (IoLoadPdf p)) w))
  = files w.
Proof.
  unfold bind, readFileSync, bind, existsSync, read, io, throw.
  destruct (bool_decide (p ∈ files w)); simpl; [| done].
  destruct (io_error E w (IoReadFile p)); simpl; [done |].
  by destruct (io_error E w (IoLoadPdf p)).
Qed.

Lemma loadAll_files ps w :
  files (snd (for_each ps
                (fun pdfPath => bind (readFileSync E pdfPath)
                                     (fun _ => io E (IoLoadPdf pdfPath))) w))
  = files w.
Proof.
  revert w. induction ps as [| p ps IH]; intros w; simpl; [done |].
  unfold bind at 1. pose proof (loadPdf_files p w) as Hp.
  destruct (bind (readFileSync E p) (fun _ => io E (IoLoadPdf p)) w)
    as [[[] | e |] w1]; simpl in *; try done.
  by rewrite IH.
Qed.

Lemma careful_mergePdfs ps out :
  String.prefix "temp/" out = true ->
  match ps with [] => True | _ => careful (mergePdfs E ps out) end.
Proof.
  intros Hout. destruct ps as [| p [| q ps]]; [done | |]; intros w.
  - unfold mergePdfs, copyFileSync, existsSync, bind, read, io, ret, throw.
    destruct (bool_decide (p ∈ files w)); cbn; [| apply nothing_new].
    destruct (io_error E w (IoCopy p out)); cbn;
      [apply nothing_new | set_solver].
  - unfold mergePdfs. cbv beta iota. unfold bind at 1.
    set (loads := for_each (p :: q :: ps)
      (fun pdfPath => bind (readFileSync E pdfPath)
                           (fun _ => io E (IoLoadPdf pdfPath)))).
    assert (Hq : quiet loads) by (unfold loads; quiet_by_steps).
    pose proof (loadAll_files (p :: q :: ps) w) as Hload. fold loads in Hload.
    destruct (Hq w) as [Hd _].
    destruct (loads w) as [[[] | e |] w1]; cbn [fst snd] in *; try done.
    + unfold bind at 1. pose proof (writeFileSync_files out w1) as Hw.
      rewrite Hload in Hw.
      destruct (writeFileSync E out w1) as [[[] | e |] w2];
        cbn; [| | done].
      * rewrite Hw. set_solver.
      * by eapply one_new.
    + rewrite Hload. apply nothing_new.
Qed.

Lemma mergePdfs_returns_out ps out w p w' :
  mergePdfs E ps out w = (Ok p, w') -> p = out.
Proof.
  unfold mergePdfs. destruct ps as [| a [| b ps]]; [discriminate | |].
  - intros Hrun. apply bind_Ok in Hrun as ([] & w1 & _ & Hrun).
    by injection Hrun as <- _.
  - intros Hrun. apply bind_Ok in Hrun as ([] & w1 & _ & Hrun).
    apply bind_Ok in Hrun as ([] & w2 & _ & Hrun).
    by injection Hrun as <- _.
Qed.

(** The last stage before staging: the final document, copied or merged. *)
Lemma finalDocument_careful (C : list string) tempFinal w2 :
  String.prefix "temp/" tempFinal = true ->
  match (match C with
         | [single] =>
             if negb (String.eqb single tempFinal)
             then copyFileSync E single tempFinal
             else ret tt
         | _ => bind (mergePdfs E C tempFinal) (fun _ => ret tt)
         end) w2 with
  | (Ok _, w3) => files w3 ⊆ files w2 ∪ {[tempFinal]}
  | (Throw _, w3) => files w3 ⊆ files w2 ∪ {[tempFinal]}
  | (Diverge, _) => False
  end.
Proof.
  intros Htemp. destruct C as [| single [| second C]].
  - cbn. set_solver.
  - destruct (negb (String.eqb single tempFinal)).
    + unfold copyFileSync, existsSync, bind, read, io, ret, throw.
      destruct (bool_decide (single ∈ files w2)); cbn; [| set_solver].
      destruct (io_error E w2 (IoCopy single tempFinal)); cbn; set_solver.
    + cbn. set_solver.
  - cbv beta iota. unfold bind at 1. unfold mergePdfs. unfold bind at 1.
    set (loads := for_each (single :: second :: C)
      (fun pdfPath => bind (readFileSync E pdfPath)
                           (fun _ => io E (IoLoadPdf pdfPath)))).
    assert (Hq : quiet loads) by (unfold loads; quiet_by_steps).
    pose proof (loadAll_files (single :: second :: C) w2) as Hload.
    fold loads in Hload.
    destruct (Hq w2) as [Hd _].
    destruct (loads w2) as [[[] | e |] w3]; cbn [fst snd] in *; try done.
    + unfold bind at 1. pose proof (writeFileSync_files tempFinal w3) as Hw.
      rewrite Hload in Hw.
      destruct (writeFileSync E tempFinal w3) as [[[] | e |] w4];
        cbn; [| | done].
      * rewrite Hw. set_solver.
      * destruct Hw as [-> | ->]; set_solver.
    + rewrite Hload. set_solver.
Qed.

Lemma leftover_subset (F0 F1 F2 F3 D C T : gset string) :
  F1 ⊆ F0 ∪ D -> F2 ⊆ F1 ∪ C -> F3 ⊆ F2 ∪ T -> F3 ∖ (D ∪ C) ⊆ F0 ∪ T.
Proof. set_solver. Qed.

Lemma leftover_one (F0 F1 F' D : gset string) q :
  F1 ⊆ F0 ∪ D ∪ {[q]} -> F' = F1 ∖ D -> F' ⊆ F0 ∪ {[q]}.
Proof. set_solver. Qed.

Lemma leftover_two (F0 F1 F2 F' D C : gset string) q :
  F1 ⊆ F0 ∪ D -> F2 ⊆ F1 ∪ C ∪ {[q]} -> F' = F2 ∖ (D ∪ C) ->
  F' ⊆ F0 ∪ {[q]}.
Proof. set_solver. Qed.

Lemma processAttachments_leaves_one atts base w e w' :
  unlink_works E ->
  processAttachments E atts base w = (Throw e, w') ->
  exists q,
    String.prefix "temp/" q = true
    /\ files w' ⊆ files w ∪ {[q]}.
Proof.
  intros Hunlink Hrun.
  unfold processAttachments in Hrun.
  destruct atts as [| a atts]; [discriminate |].
  unfold bind at 1 in Hrun.
  match type of Hrun with
  | context [collect ?xs ?g [] w] =>
      destruct (collect_careful_values g
                  (fun x => careful_downloadFile _ _) xs [] w)
        as (D & errD & w1 & HrunD & HfilesD & _)
  end.
  rewrite HrunD in Hrun. clear HrunD. cbn [fst snd] in Hrun.
  destruct errD as [eD |].
  { unfold bind in Hrun.
    destruct (cleanup_files (D ++ []) Hunlink w1) as (w1' & Hc & Hf).
    rewrite Hc in Hrun. injection Hrun as _ <-. clear Hc.
    rewrite app_nil_r in Hf.
    destruct HfilesD as (q & Hq & HfilesD). exists q. split; [done |].
    by apply (leftover_one (files w) (files w1) (files w1') (list_to_set D)). }
  unfold bind at 1 in Hrun.
  destruct (collect_careful (convertToPdf E) careful_convertToPdf D [] w1)
    as (C & errC & w2 & HrunC & HfilesC & _).
  rewrite HrunC in Hrun. clear HrunC. cbn [fst snd] in Hrun.
  destruct errC as [eC |].
  { unfold bind in Hrun.
    destruct (cleanup_files (D ++ C) Hunlink w2) as (w2' & Hc & Hf).
    rewrite Hc in Hrun. injection Hrun as _ <-. clear Hc.
    rewrite list_to_set_app_L in Hf.
    destruct HfilesC as (q & Hq & HfilesC). exists q. split; [done |].
    by apply (leftover_two (files w) (files w1) (files w2) (files w2')
                (list_to_set D) (list_to_set C)). }
  unfold try_catch in Hrun.
  set (tempFinal := path_join tempDir (base +:+ ".pdf")) in *.
  set (staged := path_join uploadDir (base +:+ ".pdf")) in *.
  exists tempFinal. split; [apply in_temp_path |].
  assert (Hgoal : forall w3,
            files w3 ⊆ files w2 ∪ {[tempFinal]} ->
            files w3 ∖ list_to_set (D ++ C) ⊆ files w ∪ {[tempFinal]}).
  { intros w3 H3. rewrite list_to_set_app_L.
    by apply (leftover_subset (files w) (files w1) (files w2) (files w3)). }
  clear HfilesD HfilesC.
  unfold bind at 1 in Hrun.
  match type of Hrun with
  | context [match ?step w2 with _ => _ end] =>
      assert (Hstep :
        match step w2 with
        | (Ok _, w3) => files w3 ⊆ files w2 ∪ {[tempFinal]}
        | (Throw _, w3) => files w3 ⊆ files w2 ∪ {[tempFinal]}
        | (Diverge, _) => False
        end) by (apply finalDocument_careful; apply in_temp_path);
      destruct (step w2) as [[[] | e3 |] w3]; try done
  end.
  - unfold bind at 1, copyFileSync, bind at 1, existsSync, read in Hrun.
    destruct (bool_decide (tempFinal ∈ files w3)); cbn [fst snd] in Hrun.
    2: { unfold throw, bind in Hrun.
         destruct (cleanup_files (D ++ C) Hunlink w3) as (w3' & Hc & Hf).
         rewrite Hc in Hrun. injection Hrun as _ <-. rewrite Hf.
         by apply Hgoal. }
    unfold bind at 1, io in Hrun.
    destruct (io_error E w3 (IoCopy tempFinal staged)); cbn [fst snd] in Hrun.
    { unfold bind in Hrun.
      destruct (cleanup_files (D ++ C) Hunlink w3) as (w3' & Hc & Hf).
      rewrite Hc in Hrun. injection Hrun as _ <-. rewrite Hf.
      by apply Hgoal. }
    unfold bind at 1 in Hrun.
    match type of Hrun with
    | context [cleanup E ?ps ?w0] =>
        destruct (cleanup_files ps Hunlink w0) as (w4 & Hc & _)
    end.
    rewrite Hc in Hrun. discriminate.
  - unfold bind in Hrun.
    destruct (cleanup_files (D ++ C) Hunlink w3) as (w3' & Hc & Hf).
    rewrite Hc in Hrun. injection Hrun as _ <-. rewrite Hf.
    by apply Hgoal.
Qed.

(** X27: when the pipeline fails on a disk where deleting works, for
    attachments whose names are plain file names and a base name that is
    one, it leaves behind at most one file that was not there before, in
    the scratch directory (the file of a write that failed after the file
    was created, or the final document when the staging copy failed); the
    staged document is there only if it was there before. *)
Theorem processAttachments_failure_leaves atts base w e w' :
  unlink_works E ->
  Forall plain_attachment atts ->
  plain_name base = true ->
  processAttachments E atts base w = (Throw e, w') ->
  exists q,
    String.prefix "temp/" q = true
    /\ files w' ⊆ files w ∪ {[q]}
    /\ (path_join uploadDir (base +:+ ".pdf") ∈ files w' ->
        path_join uploadDir (base +:+ ".pdf") ∈ files w).
Proof.
  intros Hunlink _ _ Hrun.
  destruct (processAttachments_leaves_one atts base w e w' Hunlink Hrun)
    as (q & Hq & Hsub).
  exists q. split; [done |]. split; [done |].
  intros Hin. apply Hsub in Hin.
  apply elem_of_union in Hin as [Hin | Hin]; [done |].
  apply elem_of_singleton in Hin. rewrite <- Hin in Hq.
  vm_compute in Hq. discriminate.
Qed.

(** *** Phase 1: one row, one place *)
Lemma preparePhase_counts ms rows :
  forall prepared w,
  exists prepared' w',
    preparePhase E config rows ms prepared w = (Ok prepared', w')
    /\ length prepared' + length (allResults w')
       = length prepared + length (allResults w) + length rows.
Proof.
  induction rows as [| row rows IH]; intros prepared w; simpl.
  - exists prepared, w. split; [done | lia].
  - unfold bind at 1. unfold try_catch, bind at 1.
    destruct (quiet_prepareRow row ms w) as [Hd Hr].
    destruct (prepareRow E config row ms w) as [[p | e |] w1]; simpl in *;
      try done.
    + destruct (IH (prepared ++ [p]) w1) as (prepared' & w' & Hrun & Hlen).
      exists prepared', w'. split; [done |].
      rewrite length_app, Hr in Hlen. simpl in Hlen. lia.
    + unfold bind, push, ret. simpl.
      destruct (IH prepared (with_results (allResults w1 ++ [prepareFailed row e]) w1))
        as (prepared' & w' & Hrun & Hlen).
      exists prepared', w'. split; [done |].
      simpl in Hlen. rewrite length_app, Hr in Hlen. simpl in Hlen. lia.
Qed.

(** *** Phase 2 *)
Lemma cleanup_returns ps w :
  exists w', cleanup E ps w = (Ok tt, w') /\ allResults w' = allResults w.
Proof.
  unfold cleanup. revert w. induction ps as [| p ps IH]; intros w; simpl.
  - by exists w.
  - unfold bind at 1, try_catch.
    set (attemptUnlink :=
           bind (existsSync p)
                (fun there => if there then unlinkSync E p else ret tt)).
    assert (Hq : quiet attemptUnlink) by (unfold attemptUnlink; quiet_by_steps).
    destruct (Hq w) as [Hd Hr].
    destruct (attemptUnlink w) as [[[] | e |] w1]; simpl in *; try done.
    + destruct (IH w1) as (w' & Hrun & Hres). exists w'.
      split; [done | congruence].
    + destruct (IH w1) as (w' & Hrun & Hres). exists w'.
      split; [done | congruence].
Qed.

Lemma releaseFiles_returns p w :
  exists w', releaseFiles E p w = (Ok tt, w') /\ allResults w' = allResults w.
Proof.
  unfold releaseFiles. generalize (prep_processedFiles p). intros fs.
  revert w. induction fs as [| f fs IH]; intros w; simpl.
  - by exists w.
  - unfold bind at 1, cleanupProcessedFile.
    destruct (cleanup_returns [pdfPath f] w) as (w1 & -> & Hres).
    destruct (IH w1) as (w' & Hrun & Hres'). exists w'.
    split; [done | congruence].
Qed.

Lemma recordBatch_counts batchResults todo :
  forall i w,
    i + length todo <= length batchResults ->
    exists w',
      recordBatch E todo batchResults i w = (Ok tt, w')
      /\ length (allResults w') = length (allResults w) + length todo.
Proof.
  induction todo as [| p todo IH]; intros i w Hlen; simpl.
  - exists w. split; [done | lia].
  - simpl in Hlen.
    destruct (batchResults !! i) as [r |] eqn:Hr.
    2: { apply lookup_ge_None in Hr. lia. }
    unfold bind at 1, push. simpl. unfold bind at 1.
    match goal with
    | |- context [releaseFiles E p ?w0] =>
        destruct (releaseFiles_returns p w0) as (w1 & -> & Hres)
    end.
    destruct (IH (S i) w1) as (w' & Hrun & Hcount); [lia |].
    exists w'. split; [done |].
    rewrite Hcount, Hres. simpl. rewrite length_app. simpl. lia.
Qed.

Lemma insertBatch_counts batch w :
  complete_answers E ->
  exists w',
    insertBatch E config batch w = (Ok tt, w')
    /\ length (allResults w') = length (allResults w) + length batch.
Proof.
  intros Hcomplete. unfold insertBatch, try_catch. unfold bind at 1.
  destruct batch as [| p batch].
  { simpl. unfold ret. exists w. split; [done | lia]. }
  set (payloads := List.map destinationData (p :: batch)).
  destruct (insertRowsBatch_run E config payloads w) as (results & -> & Hok & Hfail);
    [done |].
  assert (Hlen : length (p :: batch) <= length results).
  { destruct (fails_batch (net_insert E w payloads)) eqn:Hf.
    - destruct (Hfail eq_refl) as [e ->].
      rewrite length_replicate. unfold payloads. by rewrite length_map.
    - destruct (net_insert E w payloads) as [| | [[| rowId more] |]] eqn:Hr;
        try discriminate.
      rewrite (Hok (rowId :: more) eq_refl) by done.
      rewrite length_map.
      destruct (Hcomplete w payloads (rowId :: more) Hr) as [| Hle];
        [done |].
      unfold payloads in Hle. by rewrite length_map in Hle. }
  match goal with
  | |- context [recordBatch E _ _ 0 ?w0] =>
      destruct (recordBatch_counts results (p :: batch) 0 w0) as (w' & -> & Hc);
        [simpl in *; lia |]
  end.
  exists w'. split; [done |]. by rewrite Hc.
Qed.

Lemma makeBatches_concat {A} n (rows : list A) fuel :
  0 < n ->
  forall i, length rows - i <= fuel ->
  exists batches,
    makeBatches fuel n rows i = Some batches /\ concat batches = drop i rows.
Proof.
  intros Hn. induction fuel as [| fuel IH]; intros i Hfuel.
  - exists []. simpl. destruct (i <? length rows)%nat eqn:Hi.
    + apply Nat.ltb_lt in Hi. lia.
    + apply Nat.ltb_ge in Hi. split; [by destruct rows | by rewrite drop_ge].
  - simpl. destruct (i <? length rows)%nat eqn:Hi.
    + apply Nat.ltb_lt in Hi.
      destruct (IH (i + n)) as (batches & -> & Hcat); [lia |].
      eexists. split; [reflexivity |]. simpl. rewrite Hcat.
      unfold slice. rewrite <- drop_drop. apply take_drop.
    + apply Nat.ltb_ge in Hi. exists []. split; [by destruct rows |].
      by rewrite drop_ge.
Qed.

Lemma insertBatches_counts batches :
  complete_answers E ->
  forall w,
  exists w',
    for_each batches (insertBatch E config) w = (Ok tt, w')
    /\ length (allResults w') = length (allResults w) + length (concat batches).
Proof.
  intros Hcomplete. induction batches as [| b batches IH]; intros w; simpl.
  - exists w. split; [done | lia].
  - unfold bind at 1.
    destruct (insertBatch_counts b w Hcomplete) as (w1 & -> & Hc1).
    destruct (IH w1) as (w' & Hrun & Hc). exists w'. split; [done |].
    rewrite Hc, Hc1, length_app. lia.
Qed.

Lemma insertPhase_counts prepared w :
  complete_answers E -> 0 < insertBatchSize config ->
  exists w',
    insertPhase E config prepared w = (Ok tt, w')
    /\ length (allResults w') = length (allResults w) + length prepared.
Proof.
  intros Hcomplete Hsize. unfold insertPhase.
  destruct (0 <? length prepared)%nat eqn:Hp.
  - destruct (makeBatches_concat (insertBatchSize config) prepared
                (length prepared) Hsize 0) as (batches & -> & Hcat); [lia |].
    destruct (insertBatches_counts batches Hcomplete w) as (w' & Hrun & Hc).
    exists w'. split; [done |]. rewrite Hc, Hcat. by rewrite drop_0.
  - apply Nat.ltb_ge in Hp. exists w. split; [done | lia].
Qed.

(** With a remote that never answers with fewer identifiers than rows, and
    a positive insert batch size, the two phases come back with exactly one
    result per source row. *)
Theorem phases_give_one_result_per_row rows ms w :
  complete_answers E -> 0 < insertBatchSize config ->
  exists prepared w1 w2,
    preparePhase E config rows ms [] (with_results [] w) = (Ok prepared, w1)
    /\ insertPhase E config prepared w1 = (Ok tt, w2)
    /\ length (allResults w2) = length rows.
Proof.
  intros Hcomplete Hsize.
  destruct (preparePhase_counts ms rows [] (with_results [] w))
    as (prepared & w1 & Hprep & Hc1).
  destruct (insertPhase_counts prepared w1 Hcomplete Hsize) as (w2 & Hins & Hc2).
  exists prepared, w1, w2. repeat split; try done.
  simpl in Hc1. lia.
Qed.

End OrchestrationProperties.

(** ** Concrete runs *)

(** C3: one attachment named [my receipt.png]; download and conversion
    succeed, the copy of the final document into the staging area fails.
    The handler deletes the download and the converted document but not the
    final document it had already written next to them: the error is
    propagated with [temp/my_receipt.pdf] still on disk. *)
Theorem staging_copy_failure_leaves_final_document :
  let E := demo_env [] fresh_ids staging_copy_fails in
  let attachments := extractAttachmentsFromColumn row_with_receipt "c-record" in
  getBaseFileName row_with_receipt attachments empty_world
  = (Ok "my_receipt", empty_world)
  /\ fst (processAttachments E attachments "my_receipt" empty_world)
     = Throw "ENOSPC: no space left on device"
  /\ elements (files (snd (processAttachments E attachments "my_receipt"
                             empty_world)))
     = ["temp/my_receipt.pdf"].
Proof. intros E attachments. repeat split; vm_compute; reflexivity. Qed.

(** The same run without the failure: only the staged document is left. *)
Lemma staging_copy_success_leaves_staged_document_only :
  let E := demo_env [] fresh_ids no_io_error in
  let attachments := extractAttachmentsFromColumn row_with_receipt "c-record" in
  elements (files (snd (processAttachments E attachments "my_receipt"
                          empty_world)))
  = ["upload/my_receipt.pdf"].
Proof. vm_compute. reflexivity. Qed.

(** C1: two source rows, both prepared, one batch; the remote acknowledges
    one row only.  The first row is recorded as inserted, reading the second
    entry raises, and the handler then records every row of the batch as
    failed: three results for two rows, the first row being counted twice. *)
Theorem short_id_list_yields_extra_results :
  let E := demo_env [row_1; row_2] one_id_only no_io_error in
  let error := Some "Cannot read properties of undefined (reading 'success')" in
  fst (migrate E demo_config 1 empty_world)
  = Ok [ {| success := true; sourceRowId := "i-src-1";
            destinationRowId := Some "i-dst-1"; processedFiles := [];
            error := None |};
         {| success := false; sourceRowId := "i-src-1";
            destinationRowId := None; processedFiles := [];
            error := error |};
         {| success := false; sourceRowId := "i-src-2";
            destinationRowId := None; processedFiles := [];
            error := error |} ].
Proof. vm_compute. reflexivity. Qed.

(** C2 as stated fails: two payloads, and a remote that answers with the
    same identifier twice; the call returns two success entries that share
    it. *)
Lemma duplicate_ids_counterexample :
  let E := demo_env [] same_id_for_all no_io_error in
  let payloads := [[("c-total", dec 1850 2)]; [("c-total", dec 24000 2)]] in
  fst (insertRowsBatch E demo_config payloads empty_world)
  = Ok [batchSuccess "i-dst-7"; batchSuccess "i-dst-7"]
  /\ ~ all_or_nothing 2 [batchSuccess "i-dst-7"; batchSuccess "i-dst-7"].
Proof.
  split; [vm_compute; reflexivity |].
  intros [(_ & _ & Hnd) | (_ & e & Hall)].
  - simpl in Hnd. apply NoDup_cons in Hnd as [Hnotin _].
    apply Hnotin. apply list_elem_of_here.
  - apply Forall_cons in Hall as [Habs _]. discriminate.
Qed.

(** C2 (amended), at a remote that hands out fresh identifiers. *)
Lemma insertRowsBatch_all_or_nothing_witness :
  let E := demo_env [] fresh_ids no_io_error in
  let payloads := [[("c-total", dec 1850 2)]; [("c-total", dec 24000 2)]] in
  exists results,
    fst (insertRowsBatch E demo_config payloads empty_world) = Ok results
    /\ all_or_nothing 2 results.
Proof.
  intros E payloads.
  destruct (insertRowsBatch_all_or_nothing E demo_config payloads empty_world)
    as (results & Hrun & Hok & _); [discriminate |].
  exists results. split; [by rewrite Hrun |].
  apply (Hok ["i-dst-1"; "i-dst-2"]); [reflexivity | reflexivity |].
  apply NoDup_cons. split; [| apply NoDup_singleton].
  intros Hin%list_elem_of_singleton. discriminate.
Defined.

(** C5, at a remote that returns both rows of the table when asked for one:
    the unrequested row is filtered out. *)
Lemma getSpecificRows_is_targeted_witness :
  fst (getSpecificRows (demo_env [row_1; row_2] fresh_ids no_io_error)
         "doc-src" "grid-src" ["i-src-2"] empty_world)
  = Ok [row_2].
Proof.
  rewrite (proj1 (getSpecificRows_is_targeted
                    (demo_env [row_1; row_2] fresh_ids no_io_error)
                    "doc-src" "grid-src" ["i-src-2"] empty_world)).
  reflexivity.
Defined.

(** C6, on the demonstration schemas: the calculated column is left out and
    the three configured columns are mapped. *)
Lemma createColumnMapping_emits_valid_mappings_witness :
  Forall (valid_mapping demo_config)
         (buildColumnMappings demo_config demo_source_columns demo_dest_columns)
  /\ List.map (fun m => (col_name (sourceColumn m), col_id (destinationColumn m)))
       (buildColumnMappings demo_config demo_source_columns demo_dest_columns)
     = [("Amount", "c-total"); ("Notes", "c-receipt");
        ("Record file", "c-receipt")].
Proof.
  split; [| reflexivity].
  refine (proj1 (createColumnMapping_emits_valid_mappings
                   (demo_env [] fresh_ids no_io_error) demo_config
                   "doc-src" "grid-src" "doc-dst" "grid-dst" empty_world
                   _ _ _)).
  reflexivity.
Defined.

(** C7, on a ledger left by a run in which nothing failed for good. *)
Lemma recover_with_empty_ledger_witness :
  let ledger :=
    {| timestamp := "2025-01-01T00:00:00.000Z"; originalFailureCount := None;
       recoveredCount := None; failedRowIds := Some []; failedRows := [] |} in
  let w := with_documents {["failed-rows.json" := LedgerJson ledger]} empty_world in
  recover (demo_env [row_1] fresh_ids no_io_error) demo_config None w = (Ok [], w).
Proof.
  intros ledger w.
  apply (recover_with_empty_ledger _ demo_config None ledger w); reflexivity.
Defined.



(** C9, on a row whose note is null: the payload has the amount only. *)
Lemma mapRowData_binds_no_null_witness :
  let row :=
    {| row_id := "i-src-9"; row_name := "Train";
       row_values := [("c-amount", dec 990 2); ("c-notes", VNull)] |} in
  let ms := buildColumnMappings demo_config demo_source_columns demo_dest_columns in
  mapRowData row ms [] = [("c-total", dec 990 2)]
  /\ Forall (fun kv => is_nullish (snd kv) = false) (mapRowData row ms []).
Proof.
  intros row ms. split; [reflexivity |].
  apply (mapRowData_binds_no_null row ms []).
Defined.

(** The remote of the demonstrations answers inserts in full when it hands
    out fresh identifiers, and its disk never refuses a deletion. *)
Lemma fresh_ids_complete rows io :
  complete_answers (demo_env rows fresh_ids io).
Proof.
  intros w payloads ids Hids. simpl in Hids. unfold fresh_ids in Hids.
  injection Hids as <-. right. by rewrite length_map, length_seq.
Qed.

Lemma staging_copy_fails_unlink_works rows insert :
  unlink_works (demo_env rows insert staging_copy_fails).
Proof. by intros w path. Qed.

(** The failing run of the pipeline, through the general statement: what is
    left is at most one scratch file, and the staging area is as it was. *)
Lemma processAttachments_failure_leaves_witness :
  let E := demo_env [] fresh_ids staging_copy_fails in
  let attachments := extractAttachmentsFromColumn row_with_receipt "c-record" in
  exists q,
    String.prefix "temp/" q = true
    /\ files (snd (processAttachments E attachments "my_receipt" empty_world))
       ⊆ ∅ ∪ {[q]}.
Proof.
  intros E attachments.
  destruct (processAttachments E attachments "my_receipt" empty_world)
    as [r w'] eqn:Hrun.
  assert (Hr : r = Throw "ENOSPC: no space left on device").
  { replace r with (fst (processAttachments E attachments "my_receipt"
                           empty_world)) by (by rewrite Hrun).
    vm_compute. reflexivity. }
  subst r.
  destruct (processAttachments_failure_leaves E attachments "my_receipt"
              empty_world "ENOSPC: no space left on device" w'
              (staging_copy_fails_unlink_works [] fresh_ids))
    as (q & Hq & Hsub & _).
  - constructor; [reflexivity | constructor].
  - reflexivity.
  - exact Hrun.
  - exists q. split; [exact Hq | exact Hsub].
Defined.

(* ================================================================= *)
(** * Further properties of the code *)

Section ValueProperties.
Context `{NumberModel}.

(** Induction on values, through the arrays and the objects. *)
Lemma get_primitive (o : list (string * value)) (key : string) :
  forallb (fun kv => primitive (snd kv)) o = true -> primitive (get o key) = true.
Proof.
  induction o as [| [k v] o IH]; simpl; [done |].
  intros [Hv Ho]%andb_true_iff. destruct (String.eqb k key); auto.
Qed.

Lemma primitive_truthy_api (v : value) :
  primitive v = true -> truthy v = true -> api_value v = true.
Proof. by destruct v. Qed.

Lemma js_or_api (a b : value) :
  primitive a = true -> api_value b = true -> api_value (js_or a b) = true.
Proof.
  intros Ha Hb. unfold js_or. destruct (truthy a) eqn:Ht; [| done].
  by apply primitive_truthy_api.
Qed.

Lemma sanitizeObject_api (o : list (string * value)) :
  forallb (fun kv => primitive (snd kv)) o = true ->
  api_value (sanitizeObject o) = true.
Proof.
  intros Ho. unfold sanitizeObject.
  pose proof (get_primitive o "amount" Ho) as Hamount.
  repeat match goal with
         | |- context [if ?c then _ else _] => destruct c eqn:?
         end;
    repeat (apply js_or_api; [by apply get_primitive |]); try done.
  by destruct (get o "amount").
Qed.

Lemma sanitizeValue_shape (v : value) :
  flat_fields v = true ->
  sanitizeValue v = VNull \/ api_value (sanitizeValue v) = true.
Proof.
  induction v as [| | b | n | s | items IH | o _] using value_nested_ind;
    intros Hflat; simpl; auto.
  - right. simpl in Hflat. induction IH as [| x rest Hx _ IHrest]; [done |].
    simpl in Hflat. apply andb_true_iff in Hflat as [Hfx Hfrest].
    simpl. destruct (Hx Hfx) as [Hnull | Hapi].
    + rewrite Hnull. simpl. by apply IHrest.
    + destruct (is_nullish (sanitizeValue x)) eqn:Hn.
      * simpl. by apply IHrest.
      * simpl. rewrite Hapi. by apply IHrest.
  - right. by apply sanitizeObject_api.
Qed.

(** X1: on values typed as the table API types them (structured values
    with plain fields, possibly in arrays), sanitization, when it returns,
    yields null or a value the destination API takes: a boolean, a number,
    a text, or an array of such values, with no null left inside an array;
    and it raises only on a value in which some structured value has a
    field of its own named [toString]. *)
Theorem sanitizeValue_api_shape (v : value) :
  flat_fields v = true ->
  match sanitizeValue_run v with
  | Some r => r = VNull \/ api_value r = true
  | None => plain v = false
  end.
Proof.
  intros Hflat. destruct (sanitizeValue_run v) as [r |] eqn:Hrun.
  - apply sanitizeValue_run_agrees in Hrun as ->. by apply sanitizeValue_shape.
  - destruct (plain v) eqn:Hplain; [| done].
    by rewrite sanitizeValue_run_plain in Hrun.
Qed.

(** *** Fences and white space *)
Lemma chars_append (a b : string) :
  String.list_ascii_of_string (a +:+ b)
  = String.list_ascii_of_string a ++ String.list_ascii_of_string b.
Proof. induction a as [| c a IH]; simpl; [done | by rewrite IH]. Qed.

Lemma starts_with_app (p s : list ascii) : starts_with p (p ++ s) = true.
Proof.
  induction p as [| c p IH]; simpl; [done |]. by rewrite Ascii.eqb_refl.
Qed.

Lemma strip_prefix_app (p s : list ascii) : strip_prefix p (p ++ s) = s.
Proof. unfold strip_prefix. by rewrite starts_with_app, drop_app_length. Qed.

Lemma strip_suffix_app (p s : list ascii) : strip_suffix p (s ++ p) = s.
Proof.
  unfold strip_suffix. by rewrite rev_app_distr, strip_prefix_app, rev_involutive.
Qed.

Lemma trim_start_head (s : list ascii) c rest :
  trim_start s = c :: rest -> is_space c = false.
Proof.
  induction s as [| d s IH]; simpl; [done |].
  destruct (is_space d) eqn:Hd; [done |]. by intros [= <- _].
Qed.

Lemma trim_start_suffix (s : list ascii) : exists pre, s = pre ++ trim_start s.
Proof.
  induction s as [| d s [pre IH]]; simpl; [by exists [] |].
  destruct (is_space d).
  - exists (d :: pre). simpl. by rewrite <- IH.
  - by exists [].
Qed.

(** The first character of a trimmed text is the first character of the
    text once its leading white space is gone. *)
Lemma trim_head (s : list ascii) c rest :
  trim s = c :: rest -> is_space c = false.
Proof.
  unfold trim. intros Ht.
  destruct (trim_start_suffix (rev (trim_start s))) as [pre Hpre].
  apply (f_equal (@rev ascii)) in Hpre. rewrite rev_involutive, rev_app_distr in Hpre.
  rewrite Ht in Hpre. destruct (trim_start s) as [| d s'] eqn:Hs; [done |].
  simpl in Hpre. injection Hpre as <- _. by apply trim_start_head in Hs.
Qed.

Lemma trim_last (s : list ascii) c init :
  trim s = init ++ [c] -> is_space c = false.
Proof.
  unfold trim. intros Ht. apply (f_equal (@rev ascii)) in Ht.
  rewrite rev_involutive, rev_app_distr in Ht. simpl in Ht.
  by apply trim_start_head in Ht.
Qed.

(** X2: a text wrapped in triple backticks is cleaned to the trimmed text
    between them, and whatever the text, what comes out of the cleaning
    neither starts nor ends with white space. *)
Theorem cleanBackticks_unwraps_and_trims (s : string) :
  cleanBackticks ("```" +:+ s +:+ "```") = trimmed s
  /\ (forall c rest,
        String.list_ascii_of_string (cleanBackticks s) = c :: rest ->
        is_space c = false)
  /\ (forall c init,
        String.list_ascii_of_string (cleanBackticks s) = init ++ [c] ->
        is_space c = false).
Proof.
  split; [| split].
  - unfold cleanBackticks, trimmed. rewrite !chars_append.
    change (String.list_ascii_of_string "```") with fence.
    by rewrite strip_prefix_app, strip_suffix_app.
  - unfold cleanBackticks. rewrite String.list_ascii_of_string_of_list_ascii.
    apply trim_head.
  - unfold cleanBackticks. rewrite String.list_ascii_of_string_of_list_ascii.
    apply trim_last.
Qed.

(** X3: the analysis parser and the migration sanitizer clean a text in the
    same way: on every text [cleanMarkdown] gives what [sanitizeValue]
    gives, and it hands back unchanged whatever is not a text. *)
Theorem cleanMarkdown_agrees_with_sanitizeValue (v : value) :
  match v with
  | VStr s => cleanMarkdown v = sanitizeValue v
  | _ => cleanMarkdown v = v
  end.
Proof.
  destruct v as [| | | | s | |]; simpl; try done.
  destruct (String.eqb s EmptyString) eqn:Hs; [| done].
  apply String.eqb_eq in Hs. by subst.
Qed.

End ValueProperties.

Section SchemaFurther.
Context `{NumberModel}.
Variable config : MigrationConfig.

Lemma mapColumn_one_or_none dst c :
  mapColumn config dst [] c = []
  \/ exists m, mapColumn config dst [] c = [m] /\ sourceColumn m = c.
Proof.
  unfold mapColumn.
  destruct (col_calculated c); [by left |].
  destruct (includes (skipColumns config) (col_name c)); [by left |].
  destruct (columnMappings config !! col_name c) as [n |]; [| by left].
  destruct (String.eqb n EmptyString); [by left |].
  destruct (List.find _ dst) as [dc |]; [| by left].
  right. by eexists.
Qed.

Lemma mapColumn_mappable dst c dc :
  mappable config dst c dc ->
  exists m, mapColumn config dst [] c = [m]
            /\ sourceColumn m = c /\ destinationColumn m = dc.
Proof.
  intros (Hcalc & Hskip & n & Hcfg & Hn & Hfind). unfold mapColumn.
  rewrite Hcalc. apply includes_false in Hskip. rewrite Hskip, Hcfg.
  apply String.eqb_neq in Hn. rewrite Hn, Hfind. by eexists.
Qed.

(** X4: the schema mapper leaves out no column it has a destination for: a
    source column that is not calculated, not in the skip-list and whose
    configured name is borne by some destination column that is not
    calculated is mapped, to the first such destination column. *)
Theorem buildColumnMappings_complete src dst c dc :
  c ∈ src -> mappable config dst c dc ->
  exists m, m ∈ buildColumnMappings config src dst
            /\ sourceColumn m = c /\ destinationColumn m = dc.
Proof.
  intros Hc Hmap. rewrite buildColumnMappings_flat.
  destruct (mapColumn_mappable dst c dc Hmap) as (m & Hm & Hs & Hd).
  exists m. split; [| done].
  apply list_elem_of_In, in_flat_map. exists c.
  split; [by apply list_elem_of_In |]. rewrite Hm. by left.
Qed.

(** X5: the mappings come in the order of the source schema, one at most
    per source column: their source columns are a sublist of the source
    columns. *)
Theorem buildColumnMappings_in_source_order src dst :
  List.map sourceColumn (buildColumnMappings config src dst) `sublist_of` src.
Proof.
  rewrite buildColumnMappings_flat.
  induction src as [| c src IH]; simpl; [constructor |].
  rewrite map_app.
  destruct (mapColumn_one_or_none dst c) as [-> | (m & -> & <-)]; simpl.
  - by apply sublist_cons.
  - by apply sublist_skip.
Qed.

(** X6: whatever [config.transformations] answers under the column's name
    (a configured directive, whatever its [from] and [to], or what every
    object inherits) takes precedence over the automatic coercion and
    gives a transform that never changes a value; otherwise columns of the
    same declared type get no transform, and a column copied to a
    destination of another type gets a transform that changes nothing,
    except that for a destination of type text it turns every value other
    than null and undefined into its string form, where that coercion
    returns. *)
Theorem createTransform_cases sourceCol destCol :
  if configured config (col_name sourceCol)
  then exists f, createTransform config sourceCol destCol = Some f
                 /\ forall v, f v = v
  else if String.eqb (col_format_type sourceCol) (col_format_type destCol)
  then createTransform config sourceCol destCol = None
  else exists f,
      createTransform config sourceCol destCol = Some f
      /\ forall v,
           if String.eqb (col_format_type destCol) "text" && negb (is_nullish v)
           then coercible v = true -> f v = VStr (js_String v)
           else f v = v.
Proof.
  assert (Hauto :
    if String.eqb (col_format_type sourceCol) (col_format_type destCol)
    then (if negb (String.eqb (col_format_type sourceCol)
                              (col_format_type destCol))
          then Some (fun v =>
                 if String.eqb (col_format_type destCol) "text"
                    && negb (is_nullish v)
                 then VStr (js_String v)
                 else if String.eqb (col_format_type destCol) "link"
                         && typeof_string v
                 then v else v)
          else None) = None
    else exists f,
        (if negb (String.eqb (col_format_type sourceCol)
                             (col_format_type destCol))
         then Some (fun v =>
                if String.eqb (col_format_type destCol) "text"
                   && negb (is_nullish v)
                then VStr (js_String v)
                else if String.eqb (col_format_type destCol) "link"
                        && typeof_string v
                then v else v)
         else None) = Some f
        /\ forall v,
             if String.eqb (col_format_type destCol) "text"
                && negb (is_nullish v)
             then coercible v = true -> f v = VStr (js_String v)
             else f v = v).
  { destruct (String.eqb (col_format_type sourceCol) (col_format_type destCol));
      simpl; [done |].
    eexists. split; [reflexivity |]. intros v. simpl.
    destruct (_ && _); [done |]. by destruct (_ && _). }
  unfold configured, createTransform. cbv zeta.
  destruct (transformations config) as [directives |]; [| exact Hauto].
  destruct (directives !! col_name sourceCol) as [t |] eqn:Hlookup.
  - rewrite bool_decide_eq_true_2 by by eexists. cbn [orb].
    eexists. split; [reflexivity |]. intros v. simpl.
    destruct (_ && _); [| done]. by destruct (_ && _).
  - rewrite bool_decide_eq_false_2 by (intros [? ?]; discriminate). cbn [orb].
    destruct (includes inherited_names (col_name sourceCol)); [| exact Hauto].
    by eexists.
Qed.

(** *** The payload as a map *)
Lemma get_set data k v k' :
  get (set data k v) k' = if String.eqb k k' then v else get data k'.
Proof.
  induction data as [| [k0 w0] data IH]; simpl.
  - by destruct (String.eqb k k').
  - destruct (String.eqb k0 k) eqn:Ek; simpl.
    + apply String.eqb_eq in Ek. subst. by destruct (String.eqb k k').
    + rewrite IH. destruct (String.eqb k k') eqn:Ek'; [| done].
      apply String.eqb_eq in Ek'. subst. by rewrite Ek.
Qed.

Lemma has_spec (data : list (string * value)) k :
  has data k = true <-> k ∈ List.map fst data.
Proof.
  unfold has. rewrite existsb_exists. split.
  - intros ([k0 w0] & Hin & Ek). simpl in Ek. apply String.eqb_eq in Ek.
    subst. apply list_elem_of_In, in_map_iff. by exists (k, w0).
  - intros Hin. apply list_elem_of_In, in_map_iff in Hin as ([k0 w0] & <- & Hin).
    exists (k0, w0). split; [done | apply String.eqb_refl].
Qed.

Lemma set_keys data k v :
  List.map fst (set data k v)
  = if has data k then List.map fst data else List.map fst data ++ [k].
Proof.
  unfold has. induction data as [| [k0 w0] data IH]; simpl; [done |].
  destruct (String.eqb k0 k) eqn:Ek; simpl; [done |].
  rewrite IH. by destruct (existsb _ data).
Qed.

Lemma set_keys_NoDup data k v :
  NoDup (List.map fst data) -> NoDup (List.map fst (set data k v)).
Proof.
  intros Hnd. rewrite set_keys. destruct (has data k) eqn:Hk; [done |].
  apply NoDup_app. split; [done |]. split; [| apply NoDup_singleton].
  intros x Hx ->%list_elem_of_singleton.
  apply has_spec in Hx. congruence.
Qed.

Lemma mapRowStep_keys_NoDup sourceRow fs data m :
  NoDup (List.map fst data) ->
  NoDup (List.map fst (mapRowStep sourceRow fs data m)).
Proof.
  intros Hnd. unfold mapRowStep. destruct (isReceiptMapping m).
  - destruct fs; [done | by apply set_keys_NoDup].
  - cbv zeta. destruct (negb (is_nullish _)); [by apply set_keys_NoDup | done].
Qed.

(** X7: a payload names every destination column at most once, however
    many mappings target it. *)
Theorem mapRowData_keys_distinct sourceRow ms fs :
  NoDup (List.map fst (mapRowData sourceRow ms fs)).
Proof.
  unfold mapRowData.
  assert (Hgen : forall data, NoDup (List.map fst data) ->
            NoDup (List.map fst (fold_left (mapRowStep sourceRow fs) ms data))).
  { induction ms as [| m ms IH]; intros data Hd; simpl; [done |].
    apply IH. by apply mapRowStep_keys_NoDup. }
  apply Hgen. constructor.
Qed.

Lemma mapRowStep_get sourceRow fs data m k :
  get (mapRowStep sourceRow fs data m) k
  = if binds sourceRow fs m && String.eqb (col_id (destinationColumn m)) k
    then written sourceRow fs m else get data k.
Proof.
  unfold binds, written. destruct (isReceiptMapping m) eqn:Hm.
  - unfold mapRowStep. rewrite Hm. destruct fs as [| first rest]; [done |].
    by rewrite get_set.
  - rewrite mapRowStep_ordinary by done. unfold ordinaryStep.
    destruct (is_nullish (sanitizeValue (transformed sourceRow m))); simpl;
      [done |].
    by rewrite get_set.
Qed.

Lemma fold_mapRowStep_get sourceRow fs ms k :
  forall data,
  get (fold_left (mapRowStep sourceRow fs) ms data) k
  = match last (List.filter
                  (fun m => binds sourceRow fs m
                            && String.eqb (col_id (destinationColumn m)) k) ms)
    with
    | Some m => written sourceRow fs m
    | None => get data k
    end.
Proof.
  induction ms as [| m ms IH]; intros data; simpl; [done |].
  rewrite IH, mapRowStep_get.
  destruct (binds sourceRow fs m && _) eqn:Hb; [| done].
  destruct (List.filter _ ms) as [| m' rest]; [done |].
  change (last (m :: m' :: rest)) with (last (m' :: rest)).
  destruct (last (m' :: rest)) eqn:Hlast; [done |].
  by apply last_None in Hlast.
Qed.

(** X8: when several mappings write the same destination column, the last
    one in mapping order decides its value: a payload read at a column
    gives what the last mapping that writes this column wrote, and
    undefined when no mapping writes it. *)
Theorem mapRowData_last_writer_wins sourceRow ms fs k :
  get (mapRowData sourceRow ms fs) k
  = match last (List.filter
                  (fun m => binds sourceRow fs m
                            && String.eqb (col_id (destinationColumn m)) k) ms)
    with
    | Some m => written sourceRow fs m
    | None => VUndefined
    end.
Proof. unfold mapRowData. by rewrite fold_mapRowStep_get. Qed.

End SchemaFurther.

(** ** Frames: what a computation leaves alone, and what it requests *)
Section Frames.
Context `{NumberModel}.

Lemma keeps_bind {X A B} (proj : world -> X) (m : M A) (k : A -> M B) :
  keeps proj m -> (forall a, keeps proj (k a)) -> keeps proj (bind m k).
Proof.
  intros Hm Hk w. unfold bind. specialize (Hm w).
  destruct (m w) as [[a | e |] w1]; simpl in *; try done.
  by rewrite (Hk a w1).
Qed.

Lemma keeps_try_catch {X A} (proj : world -> X) (m : M A) (h : string -> M A) :
  keeps proj m -> (forall e, keeps proj (h e)) -> keeps proj (try_catch m h).
Proof.
  intros Hm Hh w. unfold try_catch. specialize (Hm w).
  destruct (m w) as [[a | e |] w1]; simpl in *; try done.
  by rewrite (Hh e w1).
Qed.

Lemma keeps_try_finally {X A} (proj : world -> X) (m : M A) (f : M unit) :
  keeps proj m -> keeps proj f -> keeps proj (try_finally m f).
Proof.
  intros Hm Hf w. unfold try_finally. specialize (Hm w).
  destruct (m w) as [[a | e |] w1]; simpl in *; try done;
    by rewrite (Hf w1).
Qed.

Lemma keeps_attempt {X A} (proj : world -> X) (m : M A) :
  keeps proj m -> keeps proj (attempt m).
Proof.
  intros Hm w. unfold attempt. specialize (Hm w).
  by destruct (m w) as [[a | e |] w1].
Qed.

Lemma keeps_collect {X A B} (proj : world -> X) (xs : list A) (f : A -> M B) ys :
  (forall x, keeps proj (f x)) -> keeps proj (collect xs f ys).
Proof.
  intros Hf. revert ys. induction xs as [| x xs IH]; intros ys; simpl.
  - by intros w.
  - apply keeps_bind; [by apply keeps_attempt |].
    intros [e | y]; [by intros w | apply IH].
Qed.

Lemma keeps_for_each {X A} (proj : world -> X) (xs : list A) (body : A -> M unit) :
  (forall x, keeps proj (body x)) -> keeps proj (for_each xs body).
Proof.
  intros Hb. induction xs as [| x xs IH]; simpl; [by intros w |].
  apply keeps_bind; [apply Hb | by intros _].
Qed.

Lemma keeps_io {X} (E : env) (proj : world -> X) op : keeps proj (io E op).
Proof. intros w. unfold io. by destruct (io_error E w op). Qed.

Lemma emits_of_keeps {A} (P : event -> Prop) (m : M A) :
  keeps log m -> emits P m.
Proof.
  intros Hm w. exists []. rewrite Hm, app_nil_r. by split.
Qed.

Lemma emits_bind {A B} (P : event -> Prop) (m : M A) (k : A -> M B) :
  emits P m -> (forall a, emits P (k a)) -> emits P (bind m k).
Proof.
  intros Hm Hk w. unfold bind. destruct (Hm w) as (evs & Hlog & HP).
  destruct (m w) as [[a | e |] w1]; simpl in *; try by exists evs.
  destruct (Hk a w1) as (evs' & Hlog' & HP').
  exists (evs ++ evs'). rewrite Hlog', Hlog, app_assoc.
  split; [done | by apply Forall_app].
Qed.

Lemma emits_try_catch {A} (P : event -> Prop) (m : M A) (h : string -> M A) :
  emits P m -> (forall e, emits P (h e)) -> emits P (try_catch m h).
Proof.
  intros Hm Hh w. unfold try_catch. destruct (Hm w) as (evs & Hlog & HP).
  destruct (m w) as [[a | e |] w1]; simpl in *; try by exists evs.
  destruct (Hh e w1) as (evs' & Hlog' & HP').
  exists (evs ++ evs'). rewrite Hlog', Hlog, app_assoc.
  split; [done | by apply Forall_app].
Qed.

Lemma emits_try_finally {A} (P : event -> Prop) (m : M A) (f : M unit) :
  emits P m -> emits P f -> emits P (try_finally m f).
Proof.
  intros Hm Hf w. unfold try_finally. destruct (Hm w) as (evs & Hlog & HP).
  destruct (m w) as [[a | e |] w1]; simpl in *; try by exists evs.
  - destruct (Hf w1) as (evs' & Hlog' & HP').
    exists (evs ++ evs'). rewrite Hlog', Hlog, app_assoc.
    split; [done | by apply Forall_app].
  - destruct (Hf w1) as (evs' & Hlog' & HP').
    exists (evs ++ evs'). rewrite Hlog', Hlog, app_assoc.
    split; [done | by apply Forall_app].
Qed.

Lemma emits_attempt {A} (P : event -> Prop) (m : M A) :
  emits P m -> emits P (attempt m).
Proof.
  intros Hm w. unfold attempt. destruct (Hm w) as (evs & Hlog & HP).
  destruct (m w) as [[a | e |] w1]; by exists evs.
Qed.

Lemma emits_collect {A B} (P : event -> Prop) (xs : list A) (f : A -> M B) ys :
  (forall x, emits P (f x)) -> emits P (collect xs f ys).
Proof.
  intros Hf. revert ys. induction xs as [| x xs IH]; intros ys; simpl.
  - apply emits_of_keeps. by intros w.
  - apply emits_bind; [by apply emits_attempt |].
    intros [e | y]; [apply emits_of_keeps; by intros w | apply IH].
Qed.

Lemma emits_for_each {A} (P : event -> Prop) (xs : list A) (body : A -> M unit) :
  (forall x, emits P (body x)) -> emits P (for_each xs body).
Proof.
  intros Hb. induction xs as [| x xs IH]; simpl.
  - apply emits_of_keeps. by intros w.
  - apply emits_bind; [apply Hb | by intros _].
Qed.

Lemma emits_emit (P : event -> Prop) (e : event) : P e -> emits P (emit e).
Proof. intros He w. exists [e]. split; [done | by constructor]. Qed.

End Frames.

(** ** Retrieval: how many requests, and the sweep without its bound *)
Section RetrievalFurther.
Context `{NumberModel}.
Variable E : env.

Lemma chunks_length {A} n fuel (l : list A) :
  0 < n -> length l <= fuel ->
  length (chunks fuel n l) = (length l + (n - 1)) / n.
Proof.
  intros Hn. revert l. induction fuel as [| fuel IH]; intros l Hl.
  - destruct l; [| simpl in Hl; lia]. simpl.
    symmetry. apply Nat.div_small. lia.
  - destruct l as [| x l].
    { simpl. symmetry. apply Nat.div_small. lia. }
    change (chunks (S fuel) n (x :: l))
      with (take n (x :: l) :: chunks fuel n (drop n (x :: l))).
    assert (Hpos : 0 < length (x :: l)) by (simpl; lia).
    remember (x :: l) as l' eqn:Hl'. clear Hl'.
    change (length (take n l' :: chunks fuel n (drop n l')))
      with (S (length (chunks fuel n (drop n l')))).
    rewrite IH by (rewrite length_drop; lia).
    rewrite length_drop.
    destruct (decide (n <= length l')) as [Hle | Hgt].
    + replace (length l' + (n - 1))
        with ((length l' - n + (n - 1)) + 1 * n) by lia.
      rewrite Nat.div_add by lia. lia.
    + replace (length l' - n) with 0 by lia.
      rewrite (Nat.div_small (0 + (n - 1)) n) by lia.
      apply (Nat.div_unique _ n 1 (length l' - 1)); lia.
Qed.

Lemma targeted_frame docId tableId cs w :
  files (snd (targeted E docId tableId cs w)) = files w
  /\ documents (snd (targeted E docId tableId cs w)) = documents w
  /\ allResults (snd (targeted E docId tableId cs w)) = allResults w.
Proof.
  revert w. induction cs as [| c cs IH]; intros w; simpl; [done |].
  destruct (IH (with_log (log w ++ [EGetRowsByIds docId tableId c]) w))
    as (-> & -> & ->). done.
Qed.

(** X9: targeted retrieval of [n] identifiers always returns, after exactly
    [ceil(n / 20)] requests, and touches nothing but the request log: no
    file, no document, no result. *)
Theorem getSpecificRows_request_count docId tableId ids w :
  exists rows w',
    getSpecificRows E docId tableId ids w = (Ok rows, w')
    /\ length (log w') = length (log w) + (length ids + 19) / 20
    /\ files w' = files w
    /\ documents w' = documents w
    /\ allResults w' = allResults w.
Proof.
  unfold getSpecificRows. rewrite specificRowsFrom_run, drop_0.
  eexists _, _. split; [reflexivity |].
  destruct (targeted_frame docId tableId (chunks (length ids) 20 ids) w)
    as (Hf & Hd & Hr).
  repeat split; try done.
  rewrite targeted_log, length_app, length_map.
  by rewrite chunks_length by lia.
Qed.

Lemma request_run {A} (e : event) (answer : world -> response A) w :
  request e answer w
  = match answer w with
    | Rejected msg => (Throw msg, with_log (log w ++ [e]) w)
    | NotOk status statusText body =>
        (Throw ("HTTP " +:+ pretty status +:+ ": " +:+ statusText
                +:+ "\nResponse: " +:+ body),
         with_log (log w ++ [e]) w)
    | Ok200 a => (Ok a, with_log (log w ++ [e]) w)
    end.
Proof.
  unfold request, bind, read, emit, throw, ret.
  by destruct (answer w).
Qed.

Lemma sweep_paged fuel docId tableId limit :
  forall tok acc w rows w',
    sweep E fuel docId tableId limit tok acc w = (Ok rows, w') ->
    exists got, rows = acc ++ got /\ paged E docId tableId limit w tok got w'.
Proof.
  induction fuel as [| fuel IH]; intros tok acc w rows w' Hrun; [discriminate |].
  simpl in Hrun. unfold bind at 1, getTableRows in Hrun.
  rewrite request_run in Hrun.
  destruct (net_rows_page E w docId tableId limit (live_token tok))
    as [msg | status text body | [items next]] eqn:Hpage; try discriminate.
  cbn [fst snd] in Hrun.
  destruct (live_token next) as [t |] eqn:Hnext.
  - apply IH in Hrun as (got & -> & Hpaged).
    exists (items ++ got). split; [by rewrite app_assoc |].
    by eapply paged_more.
  - injection Hrun as <- <-. exists items. split; [done |].
    by eapply paged_last.
Qed.

Lemma paged_sweep docId tableId limit w tok got w' :
  paged E docId tableId limit w tok got w' ->
  exists fuel, forall acc,
    sweep E fuel docId tableId limit tok acc w = (Ok (acc ++ got), w').
Proof.
  induction 1 as [w tok items next Hpage Hnext
                 | w tok items next t rest w' Hpage Hnext Hrest [fuel IH]].
  - exists 1. intros acc. simpl. unfold bind, getTableRows.
    rewrite request_run, Hpage. cbn [fst snd]. by rewrite Hnext.
  - exists (S fuel). intros acc. simpl. unfold bind at 1, getTableRows.
    rewrite request_run, Hpage. cbn [fst snd]. rewrite Hnext.
    rewrite IH. by rewrite app_assoc.
Qed.

(** X10: the sweep returns rows exactly when the pages chain up to one
    without a next token, every request having succeeded; it then returns
    the pages' rows in order and has made one request per page, each with
    the token of the page before. *)
Theorem getAllTableRows_paged docId tableId limit w rows w' :
  (exists fuel, getAllTableRows E fuel docId tableId limit w = (Ok rows, w'))
  <-> paged E docId tableId limit w None rows w'.
Proof.
  unfold getAllTableRows. split.
  - intros [fuel Hrun]. apply sweep_paged in Hrun as (got & -> & Hpaged).
    done.
  - intros Hpaged. apply paged_sweep in Hpaged as [fuel Hrun].
    exists fuel. apply (Hrun []).
Qed.

Lemma sweep_more_fuel fuel docId tableId limit :
  forall tok acc w rows w',
    sweep E fuel docId tableId limit tok acc w = (Ok rows, w') ->
    sweep E (S fuel) docId tableId limit tok acc w = (Ok rows, w').
Proof.
  induction fuel as [| fuel IH]; intros tok acc w rows w' Hrun; [discriminate |].
  change (sweep E (S (S fuel)) docId tableId limit tok acc w)
    with (bind (getTableRows E docId tableId limit (live_token tok))
            (fun page =>
               match live_token (snd page) with
               | Some t => sweep E (S fuel) docId tableId limit (Some t)
                             (acc ++ fst page)
               | None => ret (acc ++ fst page)
               end) w).
  simpl in Hrun. unfold bind in *.
  destruct (getTableRows E docId tableId limit (live_token tok) w)
    as [[page | e |] w1]; try discriminate.
  destruct (live_token (snd page)); [by apply IH | done].
Qed.

(** A sweep that has returned within some number of pages returns the
    same rows, in the same world, under every larger bound: the bound
    stands for patience only. *)
Lemma getAllTableRows_bound_irrelevant fuel extra docId tableId limit w rows w' :
  getAllTableRows E fuel docId tableId limit w = (Ok rows, w') ->
  getAllTableRows E (fuel + extra) docId tableId limit w = (Ok rows, w').
Proof.
  unfold getAllTableRows. intros Hrun.
  induction extra as [| extra IH].
  - by rewrite Nat.add_0_r.
  - rewrite Nat.add_succ_r. by apply sweep_more_fuel.
Qed.

End RetrievalFurther.

(** ** Files: what is removed, what is staged, and under which name *)
Section FileFurther.
Context `{NumberModel}.
Variable E : env.
Variable config : MigrationConfig.

Lemma cleanup_one p w :
  exists w1,
    try_catch
      (bind (existsSync p)
            (fun there => if there then unlinkSync E p else ret tt))
      (fun _ => ret tt) w = (Ok tt, w1)
    /\ files w ∖ {[p]} ⊆ files w1
    /\ files w1 ⊆ files w
    /\ log w1 = log w
    /\ documents w1 = documents w
    /\ allResults w1 = allResults w
    /\ (unlink_works E -> files w1 = files w ∖ {[p]}).
Proof.
  unfold try_catch, bind, existsSync, read, unlinkSync, bind, io, ret.
  destruct (bool_decide (p ∈ files w)) eqn:Hp.
  - destruct (io_error E w (IoUnlink p)) eqn:Hio; simpl.
    + exists w. repeat split; try done; try set_solver.
      intros Hunlink. by rewrite Hunlink in Hio.
    + eexists. split; [reflexivity |]. simpl. repeat split; try done.
      set_solver.
  - apply bool_decide_eq_false in Hp.
    exists w. repeat split; try done; set_solver.
Qed.

Lemma cleanup_run ps w :
  exists w',
    cleanup E ps w = (Ok tt, w')
    /\ files w ∖ list_to_set ps ⊆ files w'
    /\ files w' ⊆ files w
    /\ log w' = log w
    /\ documents w' = documents w
    /\ allResults w' = allResults w
    /\ (unlink_works E -> files w' = files w ∖ list_to_set ps).
Proof.
  unfold cleanup. revert w. induction ps as [| p ps IH]; intros w; simpl.
  - exists w. unfold ret. repeat split; try done; set_solver.
  - unfold bind at 1.
    destruct (cleanup_one p w) as (w1 & -> & Hk1 & Hs1 & Hl1 & Hd1 & Hr1 & Hu1).
    destruct (IH w1) as (w' & Hrun & Hk & Hs & Hl & Hd & Hr & Hu).
    exists w'. split; [exact Hrun |].
    split; [set_solver |]. split; [set_solver |].
    split; [congruence |]. split; [congruence |]. split; [congruence |].
    intros Hunlink. rewrite (Hu Hunlink), (Hu1 Hunlink). set_solver.
Qed.

(** X11: [cleanup] never throws, whatever the disk does; it removes no file
    that is not in its list and creates none, makes no request and leaves
    documents and results alone; and where deleting works, the files left
    are exactly those that were not in the list. *)
Theorem cleanup_only_removes_listed ps w :
  exists w',
    cleanup E ps w = (Ok tt, w')
    /\ files w ∖ list_to_set ps ⊆ files w'
    /\ files w' ⊆ files w
    /\ log w' = log w
    /\ documents w' = documents w
    /\ allResults w' = allResults w
    /\ (unlink_works E -> files w' = files w ∖ list_to_set ps).
Proof. apply cleanup_run. Qed.

Lemma cleanupAllDirectories_run w :
  exists w',
    cleanupAllDirectories E w = (Ok tt, w')
    /\ files w' ⊆ files w
    /\ (forall p, in_workdir p = false -> p ∈ files w -> p ∈ files w')
    /\ log w' = log w
    /\ documents w' = documents w
    /\ allResults w' = allResults w
    /\ (rm_works E -> forall p, p ∈ files w' -> in_workdir p = false).
Proof.
  assert (Hone : forall dir w0,
    exists w1,
      try_catch (rmSync E dir) (fun _ => ret tt) w0 = (Ok tt, w1)
      /\ files w1 ⊆ files w0
      /\ (forall p, String.prefix (dir +:+ "/") p = false ->
                    p ∈ files w0 -> p ∈ files w1)
      /\ log w1 = log w0 /\ documents w1 = documents w0
      /\ allResults w1 = allResults w0
      /\ (rm_works E ->
          forall p, p ∈ files w1 -> String.prefix (dir +:+ "/") p = false)).
  { intros dir w0. unfold try_catch, rmSync, bind, io, ret.
    destruct (io_error E w0 (IoRemoveTree dir)) eqn:Hio; simpl.
    - exists w0. repeat split; try done.
      intros Hrm. by rewrite Hrm in Hio.
    - eexists. split; [reflexivity |]. simpl. repeat split; try done.
      + intros p Hp. by apply elem_of_filter in Hp as [_ Hp].
      + intros p Hpre Hp. by apply elem_of_filter.
      + intros _ p Hp. by apply elem_of_filter in Hp as [Hp _]. }
  unfold cleanupAllDirectories, cleanupTempDir, cleanupUploadDir.
  unfold bind at 1.
  destruct (Hone tempDir w) as (w1 & -> & Hs1 & Hk1 & Hl1 & Hd1 & Hr1 & Hc1).
  destruct (Hone uploadDir w1) as (w2 & -> & Hs2 & Hk2 & Hl2 & Hd2 & Hr2 & Hc2).
  exists w2. split; [done |].
  split; [set_solver |].
  split.
  { intros p Hout Hp. unfold in_workdir in Hout.
    apply orb_false_iff in Hout as [Ht Hu].
    apply Hk2; [exact Hu |]. apply Hk1; [exact Ht | exact Hp]. }
  split; [congruence |]. split; [congruence |]. split; [congruence |].
  intros Hrm p Hp. unfold in_workdir. apply orb_false_iff. split.
  - apply (Hc1 Hrm). by apply Hs2.
  - by apply (Hc2 Hrm).
Qed.

(** X12: removing the two working directories never throws; it touches no
    file outside them, makes no request, and leaves documents and results
    alone; where removing a tree works, no file is left inside them. *)
Theorem cleanupAllDirectories_clears_workdirs w :
  exists w',
    cleanupAllDirectories E w = (Ok tt, w')
    /\ files w' ⊆ files w
    /\ (forall p, in_workdir p = false -> p ∈ files w -> p ∈ files w')
    /\ log w' = log w
    /\ documents w' = documents w
    /\ allResults w' = allResults w
    /\ (rm_works E -> forall p, p ∈ files w' -> in_workdir p = false).
Proof. apply cleanupAllDirectories_run. Qed.

Lemma sanitizeName_chars s :
  Forall (fun c => is_name_char c = true)
         (String.list_ascii_of_string (sanitizeName s)).
Proof.
  unfold sanitizeName. rewrite String.list_ascii_of_string_of_list_ascii.
  apply Forall_forall. intros c Hc.
  apply list_elem_of_In, in_map_iff in Hc as (d & <- & _).
  by destruct (is_name_char d) eqn:Hd.
Qed.

Lemma sanitizeName_nonempty s : s <> EmptyString -> sanitizeName s <> EmptyString.
Proof. by destruct s. Qed.

Lemma getBaseFileName_run row atts w :
  match getBaseFileName row atts w with
  | (Ok base, w') =>
      w' = w
      /\ base <> EmptyString
      /\ Forall (fun c => is_name_char c = true)
                (String.list_ascii_of_string base)
  | (Throw _, w') =>
      w' = w
      /\ exists first rest,
           atts = first :: rest
           /\ truthy (prop first "name") = true
           /\ typeof_string (prop first "name") = false
  | (Diverge, _) => False
  end.
Proof.
  assert (Hfallback :
    let fallback : M string :=
      if negb (String.eqb (row_name row) EmptyString)
      then ret (sanitizeName (row_name row))
      else ret ("row_" +:+ sanitizeName (row_id row)) in
    match fallback w with
    | (Ok base, w') =>
        w' = w /\ base <> EmptyString
        /\ Forall (fun c => is_name_char c = true)
                  (String.list_ascii_of_string base)
    | _ => False
    end).
  { cbv zeta. destruct (String.eqb (row_name row) EmptyString) eqn:Hn; simpl.
    - repeat split; [done |].
      repeat (constructor; [reflexivity |]). apply sanitizeName_chars.
    - apply String.eqb_neq in Hn. repeat split.
      + by apply sanitizeName_nonempty.
      + apply sanitizeName_chars. }
  unfold getBaseFileName. cbv zeta in *.
  destruct atts as [| first rest].
  { destruct (_ w) as [[base | e |] w']; done. }
  destruct (truthy (prop first "name")) eqn:Ht.
  2: { destruct (_ w) as [[base | e |] w']; done. }
  destruct (prop first "name") as [| | b | n | fileName | items | o] eqn:Hname;
    try (split; [done |]; exists first, rest; by rewrite Hname).
  simpl in Ht. apply negb_true_iff, String.eqb_neq in Ht.
  simpl. repeat split.
  - apply sanitizeName_nonempty.
    match goal with
    | |- (if String.eqb ?b EmptyString then _ else _) <> _ =>
        destruct (String.eqb b EmptyString) eqn:Hb;
          [exact Ht | by apply String.eqb_neq in Hb]
    end.
  - apply sanitizeName_chars.
Qed.

(** X13: the base name of a row's document is never empty and is made of
    letters, digits, [_] and [-] only (so it holds no separator and no
    dot), whatever the attachment and the row are called; computing it
    touches nothing, and it fails only on a first attachment whose name is
    truthy without being a string. *)
Theorem getBaseFileName_is_safe row atts w :
  match getBaseFileName row atts w with
  | (Ok base, w') =>
      w' = w
      /\ base <> EmptyString
      /\ Forall (fun c => is_name_char c = true)
                (String.list_ascii_of_string base)
  | (Throw _, w') =>
      w' = w
      /\ exists first rest,
           atts = first :: rest
           /\ truthy (prop first "name") = true
           /\ typeof_string (prop first "name") = false
  | (Diverge, _) => False
  end.
Proof. apply getBaseFileName_run. Qed.

Lemma uploadFile_run filePath fileName w :
  let key := migrationFolder config +:+ "/" +:+ fileName in
  match uploadFile E config filePath fileName w with
  | (Ok url, w') =>
      url = getFileUrl config fileName
      /\ filePath ∈ files w
      /\ net_put E w key = None
      /\ w' = with_log (log w ++ [EPutObject key]) w
  | (Throw e, w') =>
      (exists cause, e = "Failed to upload file: " +:+ cause)
      /\ files w' = files w /\ documents w' = documents w
      /\ allResults w' = allResults w
      /\ (filePath ∉ files w -> w' = w)
  | (Diverge, _) => False
  end.
Proof.
  intros key.
  unfold uploadFile, try_catch, bind, readFileSync, bind, existsSync, read,
    io, putObject, bind, read, emit, throw, ret, error_string.
  fold key.
  destruct (bool_decide (filePath ∈ files w)) eqn:Hp.
  - apply bool_decide_eq_true in Hp.
    destruct (io_error E w (IoReadFile filePath)) as [msg |]; simpl.
    { repeat split; try done. by eexists. }
    destruct (net_put E w key) as [msg |] eqn:Hput; simpl.
    + repeat split; try done. by eexists.
    + done.
  - apply bool_decide_eq_false in Hp. simpl.
    repeat split; try done. by eexists.
Qed.

(** X14: an upload that returns has read the local file, made exactly one
    put under the migration folder, and returns the public address of that
    key; an upload that fails says so with the cause, and has made no
    request at all when the local file is not there.  Files, documents and
    results are left alone either way. *)
Theorem uploadFile_one_put filePath fileName w :
  let key := migrationFolder config +:+ "/" +:+ fileName in
  match uploadFile E config filePath fileName w with
  | (Ok url, w') =>
      url = getFileUrl config fileName
      /\ filePath ∈ files w
      /\ net_put E w key = None
      /\ w' = with_log (log w ++ [EPutObject key]) w
  | (Throw e, w') =>
      (exists cause, e = "Failed to upload file: " +:+ cause)
      /\ files w' = files w /\ documents w' = documents w
      /\ allResults w' = allResults w
      /\ (filePath ∉ files w -> w' = w)
  | (Diverge, _) => False
  end.
Proof. apply uploadFile_run. Qed.

Lemma remove_first_prefix (pat s : list ascii) :
  remove_first pat (pat ++ s) = s.
Proof.
  destruct (pat ++ s) as [| c r] eqn:Hs; simpl.
  - rewrite <- Hs, starts_with_app, drop_app_length. done.
  - rewrite <- Hs, starts_with_app, drop_app_length. done.
Qed.

(** X15: with an endpoint written [https://host], the public address of a
    key is [https://bucket.host/key]: the bucket becomes a subdomain of
    the endpoint's host. *)
Theorem constructPublicUrl_virtual_host host key :
  spacesEndpoint config = "https://" +:+ host ->
  constructPublicUrl config key
  = "https://" +:+ spacesBucket config +:+ "." +:+ host +:+ "/" +:+ key.
Proof.
  intros Hendpoint. unfold constructPublicUrl. cbv zeta.
  rewrite Hendpoint, chars_append, remove_first_prefix.
  by rewrite String.string_of_list_ascii_of_string.
Qed.

End FileFurther.

(** ** The attachment pipeline when it succeeds *)
Section PipelineFurther.
Context `{NumberModel}.
Variable E : env.

Lemma downloadFile_in_temp url name w p w' :
  downloadFile E url name w = (Ok p, w') -> String.prefix "temp/" p = true.
Proof.
  unfold downloadFile. intros Hrun.
  apply bind_Ok in Hrun as (r & w1 & Hr & Hrun). injection Hr as <- <-.
  apply bind_Ok in Hrun as ([] & w2 & _ & Hrun).
  destruct (net_download E w (js_String url)); try discriminate.
  destruct name as [| | | | name | |]; try discriminate.
  apply bind_Ok in Hrun as ([] & w3 & _ & Hrun).
  injection Hrun as <- _. apply in_temp_path.
Qed.

Lemma convertToPdf_in_temp p w q w' :
  convertToPdf E p w = (Ok q, w') -> String.prefix "temp/" q = true.
Proof.
  unfold convertToPdf. cbv zeta.
  set (ext := toLowerCase (path_extname p)).
  set (name := path_basename p ext +:+ ".pdf").
  destruct (String.eqb ext ".pdf").
  - destruct (String.eqb p (path_join tempDir name)).
    + intros [= <- _]. apply in_temp_path.
    + intros Hrun. apply bind_Ok in Hrun as ([] & w1 & _ & Hrun).
      injection Hrun as <- _. apply in_temp_path.
  - destruct (includes imageTypes ext).
    + intros Hrun. apply bind_Ok in Hrun as ([] & w1 & _ & Hrun).
      injection Hrun as <- _. apply in_temp_path.
    + intros Hrun. apply bind_Ok in Hrun as ([] & w1 & _ & Hrun).
      injection Hrun as <- _. apply in_temp_path.
Qed.

Lemma collect_Forall {A} (P : string -> Prop) (g : A -> M string) :
  (forall x w y w', g x w = (Ok y, w') -> P y) ->
  forall xs ys w ys' err w',
    Forall P ys ->
    collect xs g ys w = (Ok (ys', err), w') ->
    Forall P ys'.
Proof.
  intros Hg. induction xs as [| x xs IH]; intros ys w ys' err w' Hys; simpl.
  - by intros [= <- _ _].
  - unfold bind at 1, attempt.
    destruct (g x w) as [[y | e |] w1] eqn:Hx; simpl; try discriminate.
    + apply IH. apply Forall_app. split; [done |].
      constructor; [by eapply Hg | constructor].
    + by intros [= <- _ _].
Qed.

Lemma unique_elem xs :
  forall seen y, y ∈ unique seen xs <-> y ∈ xs /\ y ∉ seen.
Proof.
  induction xs as [| x xs IH]; intros seen y; simpl.
  - split; [by intros ?%elem_of_nil | by intros [?%elem_of_nil _]].
  - destruct (includes seen x) eqn:Hx.
    + apply includes_spec in Hx. rewrite IH, elem_of_cons.
      split; [tauto |]. intros [[-> | Hy] Hn]; [done | tauto].
    + apply includes_false in Hx. rewrite !elem_of_cons, IH, not_elem_of_cons.
      split.
      * intros [-> | (Hy & Hne & Hn)]; tauto.
      * intros [[-> | Hy] Hn]; [tauto |].
        destruct (decide (y = x)) as [-> | Hne]; tauto.
Qed.

Lemma unique_set xs :
  list_to_set (C := gset string) (unique [] xs) = list_to_set xs.
Proof.
  apply set_eq. intros y. rewrite !elem_of_list_to_set, unique_elem.
  split; [tauto |]. intros Hy. split; [done | apply not_elem_of_nil].
Qed.

Lemma staged_only (F0 F1 F2 F3 F5 D C L : gset string) (t s : string) :
  F1 ⊆ F0 ∪ D -> F2 ⊆ F1 ∪ C -> F3 ⊆ F2 ∪ {[t]} ->
  D ∪ C ∪ {[t]} ⊆ L ->
  F5 = ({[s]} ∪ F3) ∖ L ->
  F5 ⊆ F0 ∪ {[s]}.
Proof. set_solver. Qed.

Lemma processAttachments_run atts base w r w' :
  processAttachments E atts base w = (Ok r, w') ->
  match r with
  | None => atts = [] /\ w' = w
  | Some pf =>
      atts <> []
      /\ pf = {| originalName := base;
                 pdfPath := path_join uploadDir (base +:+ ".pdf");
                 uploadedUrl := EmptyString |}
      /\ pdfPath pf ∈ files w'
      /\ (unlink_works E -> files w' ⊆ files w ∪ {[pdfPath pf]})
  end.
Proof.
  intros Hrun. unfold processAttachments in Hrun.
  destruct atts as [| a atts].
  { by injection Hrun as <- <-. }
  unfold bind at 1 in Hrun.
  match type of Hrun with
  | context [collect ?xs ?g [] w] =>
      destruct (collect_careful_values g
                  (fun x => careful_downloadFile E _ _) xs [] w)
        as (D & errD & w1 & HrunD & HfilesD & _);
      pose proof (collect_Forall (fun p => String.prefix "temp/" p = true) g
                    (fun x w0 y w0' Hx => downloadFile_in_temp _ _ _ _ _ Hx)
                    xs [] w D errD w1 (Forall_nil_2 _) HrunD) as HtempD
  end.
  rewrite HrunD in Hrun. clear HrunD. cbn [fst snd] in Hrun.
  destruct errD as [eD |].
  { unfold bind in Hrun.
    destruct (cleanup_run E (D ++ []) w1) as (w1' & Hc & _).
    rewrite Hc in Hrun. discriminate. }
  cbv beta iota in HfilesD.
  unfold bind at 1 in Hrun.
  destruct (collect_careful (convertToPdf E) (careful_convertToPdf E) D [] w1)
    as (C & errC & w2 & HrunC & HfilesC & _).
  pose proof (collect_Forall (fun p => String.prefix "temp/" p = true)
                (convertToPdf E) convertToPdf_in_temp
                D [] w1 C errC w2 (Forall_nil_2 _) HrunC) as HtempC.
  rewrite HrunC in Hrun. clear HrunC. cbn [fst snd] in Hrun.
  destruct errC as [eC |].
  { unfold bind in Hrun.
    destruct (cleanup_run E (D ++ C) w2) as (w2' & Hc & _).
    rewrite Hc in Hrun. discriminate. }
  cbv beta iota in HfilesC.
  unfold try_catch in Hrun.
  set (tempFinal := path_join tempDir (base +:+ ".pdf")) in *.
  set (staged := path_join uploadDir (base +:+ ".pdf")) in *.
  assert (Hfail : forall e0 w0,
            bind (cleanup E (D ++ C))
                 (fun _ => @throw _ (option ProcessedFile) e0) w0
            <> (Ok r, w')).
  { intros e0 w0. unfold bind.
    destruct (cleanup_run E (D ++ C) w0) as (w0' & -> & _).
    discriminate. }
  unfold bind at 1 in Hrun.
  match type of Hrun with
  | context [match ?step w2 with _ => _ end] =>
      assert (Hstep :
        match step w2 with
        | (Ok _, w3) => files w3 ⊆ files w2 ∪ {[tempFinal]}
        | (Throw _, w3) => files w3 ⊆ files w2 ∪ {[tempFinal]}
        | (Diverge, _) => False
        end) by (apply finalDocument_careful; apply in_temp_path);
      destruct (step w2) as [[[] | e3 |] w3]; try done
  end.
  2: { by apply Hfail in Hrun. }
  unfold bind at 1, copyFileSync, bind at 1, existsSync, read in Hrun.
  destruct (bool_decide (tempFinal ∈ files w3)); cbn [fst snd] in Hrun.
  2: { unfold throw at 1 in Hrun. by apply Hfail in Hrun. }
  unfold bind at 1, io in Hrun.
  destruct (io_error E w3 (IoCopy tempFinal staged)); cbn [fst snd] in Hrun.
  { by apply Hfail in Hrun. }
  unfold bind at 1 in Hrun.
  match type of Hrun with
  | context [cleanup E ?ps ?w0] =>
      destruct (cleanup_run E ps w0)
        as (w5 & Hc & Hkeep & _ & _ & _ & _ & Hgone);
      set (L := ps) in *
  end.
  rewrite Hc in Hrun. clear Hc Hfail. injection Hrun as <- <-.
  assert (HL : list_to_set (C := gset string) L
               = list_to_set D ∪ list_to_set C ∪ {[tempFinal]}).
  { unfold L. rewrite unique_set, !list_to_set_app_L.
    destruct (includes C tempFinal) eqn:Hinc; simpl.
    - apply includes_spec in Hinc.
      assert (tempFinal ∈ list_to_set (C := gset string) C) by set_solver.
      set_solver.
    - set_solver. }
  clearbody L. simpl in Hkeep, Hgone.
  split; [done |]. split; [done |]. split.
  - simpl. apply Hkeep. apply elem_of_difference. split; [set_solver |].
    rewrite HL. intros Hin.
    assert (Htemp : String.prefix "temp/" staged = true).
    { apply elem_of_union in Hin as [Hin | Hin].
      - apply elem_of_union in Hin as [Hin | Hin];
          apply elem_of_list_to_set in Hin.
        + by apply (proj1 (Forall_forall _ _) HtempD).
        + by apply (proj1 (Forall_forall _ _) HtempC).
      - apply elem_of_singleton in Hin. rewrite Hin. apply in_temp_path. }
    unfold staged in Htemp. vm_compute in Htemp. discriminate.
  - intros Hunlink. simpl. specialize (Hgone Hunlink).
    eapply (staged_only (files w) (files w1) (files w2) (files w3) (files w5)
              (list_to_set D) (list_to_set C) (list_to_set L) tempFinal staged);
      try done.
    by rewrite HL.
Qed.

(** X16: for attachments whose names are plain file names (no separator,
    not a dot segment) and a base name that is one, the pipeline returns
    nothing only for an empty attachment list, and then does nothing.
    When it returns a document, that document is named after the base
    name, sits in the staging directory and is on disk, and carries no
    address yet; and where deleting works, the only file the call has
    added is that staged document: every download, every conversion and
    the final scratch document are gone. *)
Theorem processAttachments_stages_one_document atts base w r w' :
  Forall plain_attachment atts -> plain_name base = true ->
  processAttachments E atts base w = (Ok r, w') ->
  match r with
  | None => atts = [] /\ w' = w
  | Some pf =>
      atts <> []
      /\ pf = {| originalName := base;
                 pdfPath := path_join uploadDir (base +:+ ".pdf");
                 uploadedUrl := EmptyString |}
      /\ pdfPath pf ∈ files w'
      /\ (unlink_works E -> files w' ⊆ files w ∪ {[pdfPath pf]})
  end.
Proof. intros _ _. apply processAttachments_run. Qed.

End PipelineFurther.

(** The successful run of the pipeline, through the general statement: the
    staged document is there. *)
Lemma processAttachments_stages_one_document_witness :
  let E := demo_env [] fresh_ids no_io_error in
  let attachments := extractAttachmentsFromColumn row_with_receipt "c-record" in
  exists pf,
    fst (processAttachments E attachments "my_receipt" empty_world)
    = Ok (Some pf)
    /\ pdfPath pf = "upload/my_receipt.pdf".
Proof.
  intros E attachments.
  destruct (processAttachments E attachments "my_receipt" empty_world)
    as [r w'] eqn:Hrun.
  assert (Hr : exists pf, r = Ok (Some pf)).
  { replace r with (fst (processAttachments E attachments "my_receipt"
                           empty_world)) by (by rewrite Hrun).
    eexists. vm_compute. reflexivity. }
  destruct Hr as [pf ->]. exists pf. split; [done |].
  assert (Hplain : Forall plain_attachment attachments).
  { constructor; [reflexivity | constructor]. }
  pose proof (processAttachments_stages_one_document E attachments
                "my_receipt" empty_world (Some pf) w' Hplain eq_refl Hrun)
    as (_ & -> & _).
  reflexivity.
Defined.

(** ** Frames of the services *)
Create HintDb frames.

Section ServiceFrames.
Context `{NumberModel}.
Variable E : env.
Variable config : MigrationConfig.
Context {X : Type}.
Variable proj : world -> X.
Hypothesis Hf : forall f w, proj (with_files f w) = proj w.
Hypothesis Hl : forall l w, proj (with_log l w) = proj w.
Hypothesis Hr : forall r w, proj (with_results r w) = proj w.

Ltac frame_prim :=
  intros ?; unfold emit, read, ret, throw, diverge, push, existsSync;
  cbn; rewrite ?Hf, ?Hl, ?Hr; reflexivity.

Ltac frame_step :=
  match goal with
  | |- keeps _ (bind _ _) => apply keeps_bind; [| intros ?]
  | |- keeps _ (try_catch _ _) => apply keeps_try_catch; [| intros ?]
  | |- keeps _ (try_finally _ _) => apply keeps_try_finally
  | |- keeps _ (for_each _ _) => apply keeps_for_each; intros ?
  | |- keeps _ (collect _ _ _) => apply keeps_collect; intros ?
  | |- keeps _ (attempt _) => apply keeps_attempt
  | |- keeps _ (io _ _) => apply keeps_io
  | |- keeps _ (match ?x with _ => _ end) => destruct x
  | |- keeps _ _ => solve [auto with frames | frame_prim]
  end.

Ltac frame := cbv zeta; repeat (cbv beta zeta; frame_step).

Lemma keeps_writeFileSync p : keeps proj (writeFileSync E p).
Proof using Hf. unfold writeFileSync. frame. Qed.
#[local] Hint Resolve keeps_writeFileSync : frames.

Lemma keeps_readFileSync p : keeps proj (readFileSync E p).
Proof. unfold readFileSync. frame. Qed.
#[local] Hint Resolve keeps_readFileSync : frames.

Lemma keeps_copyFileSync src dst : keeps proj (copyFileSync E src dst).
Proof using Hf. unfold copyFileSync. frame. Qed.
#[local] Hint Resolve keeps_copyFileSync : frames.

Lemma keeps_unlinkSync p : keeps proj (unlinkSync E p).
Proof using Hf. unfold unlinkSync. frame. Qed.
#[local] Hint Resolve keeps_unlinkSync : frames.

Lemma keeps_rmSync dir : keeps proj (rmSync E dir).
Proof using Hf. unfold rmSync. frame. Qed.
#[local] Hint Resolve keeps_rmSync : frames.

Lemma keeps_cleanup ps : keeps proj (cleanup E ps).
Proof using Hf. unfold cleanup. frame. Qed.
#[local] Hint Resolve keeps_cleanup : frames.

Lemma keeps_cleanupAllDirectories : keeps proj (cleanupAllDirectories E).
Proof using Hf.
  unfold cleanupAllDirectories, cleanupTempDir, cleanupUploadDir. frame.
Qed.
#[local] Hint Resolve keeps_cleanupAllDirectories : frames.

Lemma keeps_convertToPdf p : keeps proj (convertToPdf E p).
Proof using Hf.
  unfold convertToPdf, imageToPdf, createPlaceholderPdf. frame.
Qed.
#[local] Hint Resolve keeps_convertToPdf : frames.

Lemma keeps_mergePdfs ps out : keeps proj (mergePdfs E ps out).
Proof using Hf. unfold mergePdfs. frame. Qed.
#[local] Hint Resolve keeps_mergePdfs : frames.

Lemma keeps_releaseFiles p : keeps proj (releaseFiles E p).
Proof using Hf. unfold releaseFiles, cleanupProcessedFile. frame. Qed.
#[local] Hint Resolve keeps_releaseFiles : frames.

Lemma keeps_downloadFile url name : keeps proj (downloadFile E url name).
Proof using Hf Hl. unfold downloadFile. frame. Qed.
#[local] Hint Resolve keeps_downloadFile : frames.

Lemma keeps_processAttachments atts base :
  keeps proj (processAttachments E atts base).
Proof using Hf Hl. unfold processAttachments. frame. Qed.
#[local] Hint Resolve keeps_processAttachments : frames.

Lemma keeps_request {A} e (answer : world -> response A) :
  keeps proj (request e answer).
Proof using Hl. unfold request. frame. Qed.
#[local] Hint Resolve @keeps_request : frames.

Lemma keeps_putObject key : keeps proj (putObject E key).
Proof using Hl. unfold putObject. frame. Qed.
#[local] Hint Resolve keeps_putObject : frames.

Lemma keeps_uploadFile p name : keeps proj (uploadFile E config p name).
Proof using Hl. unfold uploadFile. frame. Qed.
#[local] Hint Resolve keeps_uploadFile : frames.

Lemma keeps_testConnections : keeps proj (testConnections E config).
Proof using Hl. unfold testConnections, testConnection, getTable. frame. Qed.
#[local] Hint Resolve keeps_testConnections : frames.

Lemma keeps_createColumnMapping sd st dd dt :
  keeps proj (createColumnMapping E config sd st dd dt).
Proof using Hl. unfold createColumnMapping, getTableColumns. frame. Qed.
#[local] Hint Resolve keeps_createColumnMapping : frames.

Lemma keeps_sweep fuel d t limit :
  forall tok acc, keeps proj (sweep E fuel d t limit tok acc).
Proof using Hl.
  induction fuel as [| fuel IH]; intros tok acc; simpl; [frame |].
  unfold getTableRows. frame.
Qed.
#[local] Hint Resolve keeps_sweep : frames.

Lemma keeps_getSpecificRows d t ids : keeps proj (getSpecificRows E d t ids).
Proof using Hl.
  intros w. unfold getSpecificRows. rewrite specificRowsFrom_run.
  simpl. generalize (chunks (length ids) 20 (drop 0 ids)).
  intros cs. revert w. induction cs as [| c cs IH]; intros w; simpl; [done |].
  by rewrite IH, Hl.
Qed.
#[local] Hint Resolve keeps_getSpecificRows : frames.

Lemma keeps_getBaseFileName row atts : keeps proj (getBaseFileName row atts).
Proof. unfold getBaseFileName. frame. Qed.
#[local] Hint Resolve keeps_getBaseFileName : frames.

Lemma keeps_prepareRow row ms : keeps proj (prepareRow E config row ms).
Proof using Hf Hl. unfold prepareRow, processRowAttachments. frame. Qed.
#[local] Hint Resolve keeps_prepareRow : frames.

Lemma keeps_insertRowsBatch rows : keeps proj (insertRowsBatch E config rows).
Proof using Hl. unfold insertRowsBatch. frame. Qed.
#[local] Hint Resolve keeps_insertRowsBatch : frames.

Lemma keeps_preparePhase rows ms :
  forall prepared, keeps proj (preparePhase E config rows ms prepared).
Proof using Hf Hl Hr.
  induction rows as [| row rows IH]; intros prepared; simpl; frame.
Qed.
#[local] Hint Resolve keeps_preparePhase : frames.

Lemma keeps_recordBatch results todo :
  forall i, keeps proj (recordBatch E todo results i).
Proof using Hf Hr.
  induction todo as [| p todo IH]; intros i; simpl; frame.
Qed.
#[local] Hint Resolve keeps_recordBatch : frames.

Lemma keeps_insertBatch batch : keeps proj (insertBatch E config batch).
Proof using Hf Hl Hr. unfold insertBatch. frame. Qed.
#[local] Hint Resolve keeps_insertBatch : frames.

Lemma keeps_insertPhase prepared : keeps proj (insertPhase E config prepared).
Proof using Hf Hl Hr. unfold insertPhase. frame. Qed.

End ServiceFrames.

(** ** Requests, phase by phase *)
Section RequestFrames.
Context `{NumberModel}.
Variable E : env.
Variable config : MigrationConfig.

Lemma log_with_files f w : log (with_files f w) = log w.
Proof. done. Qed.

Lemma log_with_results r w : log (with_results r w) = log w.
Proof. done. Qed.

Section Kinds.
Variable P : event -> Prop.

Ltac emits_prim :=
  apply emits_of_keeps;
  solve [ intros ?; reflexivity
        | apply keeps_io
        | auto using keeps_cleanup, keeps_convertToPdf, keeps_mergePdfs,
            keeps_copyFileSync, keeps_readFileSync, keeps_writeFileSync,
            keeps_getBaseFileName, keeps_releaseFiles, keeps_recordBatch,
            log_with_files, log_with_results ].

Ltac emits_step :=
  match goal with
  | |- emits _ (bind _ _) => apply emits_bind; [| intros ?]
  | |- emits _ (try_catch _ _) => apply emits_try_catch; [| intros ?]
  | |- emits _ (try_finally _ _) => apply emits_try_finally
  | |- emits _ (for_each _ _) => apply emits_for_each; intros ?
  | |- emits _ (collect _ _ _) => apply emits_collect; intros ?
  | |- emits _ (attempt _) => apply emits_attempt
  | |- emits _ (emit _) => apply emits_emit; solve [auto]
  | |- emits _ (match ?x with _ => _ end) => destruct x
  | |- emits _ _ => solve [auto with frames | emits_prim]
  end.

Ltac emits_all := cbv zeta; repeat (cbv beta zeta; emits_step).

Lemma emits_request {A} e (answer : world -> response A) :
  P e -> emits P (request e answer).
Proof. intros He. unfold request. emits_all. Qed.

Lemma emits_sweep fuel d t limit :
  (forall tok, P (EGetRowsPage d t limit tok)) ->
  forall tok acc, emits P (sweep E fuel d t limit tok acc).
Proof.
  intros Hpage. induction fuel as [| fuel IH]; intros tok acc; simpl.
  - emits_all.
  - apply emits_bind; [by apply emits_request |]. intros page. emits_all.
Qed.

Lemma emits_createColumnMapping sd st dd dt :
  (forall d t, P (EGetColumns d t)) ->
  emits P (createColumnMapping E config sd st dd dt).
Proof.
  intros Hcols. unfold createColumnMapping, getTableColumns.
  pose proof (fun d t answer =>
    @emits_request (list CodaColumn) (EGetColumns d t) answer (Hcols d t)).
  emits_all.
Qed.

Lemma emits_putObject key :
  (forall k, P (EPutObject k)) -> emits P (putObject E key).
Proof. intros Hput. unfold putObject. emits_all. Qed.

Lemma emits_testConnections :
  (forall d t, P (EGetTable d t)) -> (forall k, P (EPutObject k)) ->
  emits P (testConnections E config).
Proof.
  intros Htable Hput. unfold testConnections, testConnection, getTable.
  pose proof (fun d t answer =>
    @emits_request unit (EGetTable d t) answer (Htable d t)).
  pose proof (fun key => emits_putObject key Hput).
  emits_all.
Qed.

Lemma emits_prepareRow row ms :
  (forall u, P (EDownload u)) -> (forall k, P (EPutObject k)) ->
  emits P (prepareRow E config row ms).
Proof.
  intros Hdown Hput.
  pose proof (fun key => emits_putObject key Hput).
  unfold prepareRow, processRowAttachments, processAttachments, uploadFile,
    downloadFile.
  emits_all.
Qed.

Lemma emits_preparePhase rows ms :
  (forall u, P (EDownload u)) -> (forall k, P (EPutObject k)) ->
  forall prepared, emits P (preparePhase E config rows ms prepared).
Proof.
  intros Hdown Hput.
  pose proof (fun row => emits_prepareRow row ms Hdown Hput).
  induction rows as [| row rows IH]; intros prepared; simpl; emits_all.
Qed.

Lemma emits_insertPhase prepared :
  (forall rows,
     P (EInsertRows (destinationDocId config) (destinationTableId config) rows)) ->
  emits P (insertPhase E config prepared).
Proof.
  intros Hins. unfold insertPhase, insertBatch, insertRowsBatch.
  emits_all.
Qed.

Lemma chunks_within {A} (ids : list A) n fuel :
  forall l, l ⊆ ids -> Forall (fun c => c ⊆ ids) (chunks fuel n l).
Proof.
  induction fuel as [| fuel IH]; intros l Hl; [constructor |].
  destruct l as [| x l]; [constructor |].
  change (chunks (S fuel) n (x :: l))
    with (take n (x :: l) :: chunks fuel n (drop n (x :: l))).
  constructor.
  - intros y Hy. apply Hl. by apply (subseteq_take n).
  - apply IH. intros y Hy. apply Hl. by apply (subseteq_drop n).
Qed.

Lemma emits_getSpecificRows d t ids :
  (forall asked, asked ⊆ ids -> P (EGetRowsByIds d t asked)) ->
  emits P (getSpecificRows E d t ids).
Proof.
  intros Hids w. unfold getSpecificRows.
  rewrite specificRowsFrom_run, drop_0. simpl. rewrite targeted_log.
  eexists. split; [reflexivity |].
  apply Forall_fmap. eapply Forall_impl; [by apply chunks_within |].
  intros c Hc. by apply Hids.
Qed.

End Kinds.

(** *** Phases *)
Lemma in_phases_nil phases : in_phases phases [].
Proof.
  induction phases as [| P rest IH]; simpl; [done |].
  by exists [], [].
Qed.

Lemma in_phases_later P rest evs : in_phases rest evs -> in_phases (P :: rest) evs.
Proof. intros Hevs. exists [], evs. by repeat split. Qed.

Lemma in_phases_more P rest here evs :
  Forall P here -> in_phases (P :: rest) evs -> in_phases (P :: rest) (here ++ evs).
Proof.
  intros Hhere (here' & later & -> & Hhere' & Hlater).
  exists (here ++ here'), later. rewrite app_assoc.
  repeat split; [by apply Forall_app | done].
Qed.

Lemma phased_of_keeps {A} phases (m : M A) : keeps log m -> phased phases m.
Proof.
  intros Hm w. exists []. rewrite Hm, app_nil_r.
  split; [done | apply in_phases_nil].
Qed.

Lemma phased_later {A} P rest (m : M A) : phased rest m -> phased (P :: rest) m.
Proof.
  intros Hm w. destruct (Hm w) as (evs & Hlog & Hevs).
  exists evs. split; [done | by apply in_phases_later].
Qed.

Lemma phased_bind {A B} P rest (m : M A) (k : A -> M B) :
  emits P m -> (forall a, phased (P :: rest) (k a)) ->
  phased (P :: rest) (bind m k).
Proof.
  intros Hm Hk w. unfold bind. destruct (Hm w) as (evs & Hlog & HP).
  destruct (m w) as [[a | e |] w1]; simpl in *.
  - destruct (Hk a w1) as (evs' & Hlog' & Hevs').
    exists (evs ++ evs'). rewrite Hlog', Hlog, app_assoc.
    split; [done | by apply in_phases_more].
  - exists evs. split; [done |].
    rewrite <- (app_nil_r evs). apply in_phases_more; [done |].
    apply in_phases_nil.
  - exists evs. split; [done |].
    rewrite <- (app_nil_r evs). apply in_phases_more; [done |].
    apply in_phases_nil.
Qed.

Lemma phased_try_finally {A} phases (m : M A) (f : M unit) :
  keeps log f -> phased phases m -> phased phases (try_finally m f).
Proof.
  intros Hf Hm w. destruct (Hm w) as (evs & Hlog & Hevs).
  exists evs. split; [| done]. rewrite <- Hlog. unfold try_finally.
  destruct (m w) as [[a | e |] w1]; simpl; try done; apply Hf.
Qed.

Lemma keeps_log_writeDocument path d : keeps log (writeDocument E path d).
Proof.
  unfold writeDocument.
  apply keeps_bind; [apply keeps_io |]. intros _.
  apply keeps_bind; [by intros w |]. intros _.
  apply keeps_bind; [apply keeps_io |]. by intros _ w.
Qed.

(** The part that the two runs share: preparation, insertion, and the
    writing of the reports, which makes no request. *)
Lemma phased_phases rows ms (report : list MigrationResult -> M (list MigrationResult)) :
  (forall results, keeps log (report results)) ->
  phased [file_request; insert_request config]
    (bind (preparePhase E config rows ms [])
       (fun preparedRows =>
          bind (insertPhase E config preparedRows)
            (fun _ => bind (read allResults) report))).
Proof.
  intros Hreport.
  apply phased_bind; [by apply emits_preparePhase |]. intros prepared.
  apply phased_later. apply phased_bind; [by apply emits_insertPhase |].
  intros _. apply phased_of_keeps.
  apply keeps_bind; [by intros w | apply Hreport].
Qed.

(** X17: the requests of a migration run come phase by phase: first the
    connection tests and the two schemas, then the pages of the sweep, then
    the downloads and uploads of the preparation, then the batch inserts
    into the destination table; no row is inserted before every row has
    been prepared, and no targeted request is ever made. *)
Theorem migrate_requests_by_phase fuel w :
  exists evs,
    log (snd (migrate E config fuel w)) = log w ++ evs
    /\ in_phases [setup_request; page_request; file_request;
                  insert_request config] evs.
Proof.
  revert w. change (phased [setup_request; page_request; file_request;
                            insert_request config] (migrate E config fuel)).
  unfold migrate.
  apply phased_try_finally; [by apply keeps_cleanupAllDirectories |].
  apply phased_bind; [by apply emits_testConnections |]. intros _.
  apply phased_bind; [by apply emits_createColumnMapping |]. intros ms.
  destruct (length ms =? 0)%nat; [by apply phased_of_keeps |].
  apply phased_later.
  apply phased_bind; [by apply emits_sweep |]. intros rows.
  destruct (length rows =? 0)%nat; [by apply phased_of_keeps |].
  apply phased_bind; [by apply emits_of_keeps |]. intros _.
  apply phased_later. apply phased_phases. intros results.
  apply keeps_bind; [| by intros _ w0].
  destruct (0 <? length (failedOnes results))%nat; [| by intros w0].
  apply keeps_bind; [by intros w0 |]. intros now.
  apply keeps_log_writeDocument.
Qed.

(** X18: a recovery run asks for no page of the source table: after the
    connection tests and the schemas its only row requests are targeted
    ones, each for identifiers of the ledger it has read; then come the
    downloads and uploads, then the inserts. *)
Theorem recover_requests_by_phase failedRowsPath w :
  let ids :=
    match documents w !! ledgerPath failedRowsPath with
    | Some (LedgerJson l) => default [] (failedRowIds l)
    | _ => []
    end in
  exists evs,
    log (snd (recover E config failedRowsPath w)) = log w ++ evs
    /\ in_phases [setup_request; targeted_request ids; file_request;
                  insert_request config] evs.
Proof.
  intros ids. unfold recover. fold (ledgerPath failedRowsPath).
  unfold bind at 1, read.
  assert (Hnone : forall r : outcome (list MigrationResult),
            exists evs, log (snd (r, w)) = log w ++ evs
                        /\ in_phases [setup_request; targeted_request ids;
                                      file_request; insert_request config] evs).
  { intros r. exists []. rewrite app_nil_r. split; [done | apply in_phases_nil]. }
  destruct (documents w !! ledgerPath failedRowsPath) as [doc |];
    [| apply Hnone].
  unfold bind at 1, io.
  destruct (io_error E w (IoReadFile (ledgerPath failedRowsPath)));
    [apply Hnone |].
  unfold bind at 1.
  destruct doc as [| l | rs]; [apply Hnone | | apply Hnone].
  unfold ret at 1. cbv beta iota. fold ids.
  destruct (length ids =? 0)%nat; [apply Hnone |].
  clear Hnone.
  match goal with
  | |- context [try_finally ?m ?f w] =>
      assert (Hphased : phased [setup_request; targeted_request ids;
                                file_request; insert_request config]
                          (try_finally m f)); [| apply Hphased]
  end.
  apply phased_try_finally; [by apply keeps_cleanupAllDirectories |].
  apply phased_bind; [by apply emits_testConnections |]. intros _.
  apply phased_bind; [by apply emits_createColumnMapping |]. intros ms.
  destruct (length ms =? 0)%nat; [by apply phased_of_keeps |].
  apply phased_later.
  apply phased_bind; [by apply emits_getSpecificRows |]. intros rows.
  destruct (length rows =? 0)%nat; [by apply phased_of_keeps |].
  apply phased_bind; [by apply emits_of_keeps |]. intros _.
  apply phased_later. apply phased_phases. intros results.
  apply keeps_bind; [apply keeps_log_writeDocument |]. intros _.
  apply keeps_bind; [| by intros _ w0].
  destruct (0 <? length (failedOnes results))%nat; [| by intros w0].
  apply keeps_bind; [by intros w0 |]. intros now.
  apply keeps_log_writeDocument.
Qed.

End RequestFrames.

(** ** The two phases, whatever the remote answers *)
Section PhaseFurther.
Context `{NumberModel}.
Variable E : env.
Variable config : MigrationConfig.

Lemma occurrences_app id xs ys :
  occurrences id (xs ++ ys) = occurrences id xs + occurrences id ys.
Proof. unfold occurrences. by rewrite List.filter_app, length_app. Qed.

Lemma occurrences_take id k xs :
  occurrences id (take k xs) <= occurrences id xs.
Proof.
  rewrite <- (take_drop k xs) at 2. rewrite occurrences_app. lia.
Qed.

Lemma occurrences_perm id xs ys :
  xs ≡ₚ ys -> occurrences id xs = occurrences id ys.
Proof.
  unfold occurrences. induction 1 as [| x | x y |]; simpl; try congruence.
  - destruct (id =? x)%string; simpl; congruence.
  - by destruct (id =? x)%string, (id =? y)%string.
Qed.

Lemma accounted_nil : accounted [] [].
Proof. intros id. unfold occurrences. simpl. lia. Qed.

Lemma accounted_app ids1 ids2 rs1 rs2 :
  accounted ids1 rs1 -> accounted ids2 rs2 ->
  accounted (ids1 ++ ids2) (rs1 ++ rs2).
Proof.
  intros H1 H2 id. rewrite map_app, !occurrences_app.
  destruct (H1 id), (H2 id). lia.
Qed.

(** One result per row, in the rows' order. *)
Lemma accounted_exact ids results :
  List.map sourceRowId results = ids -> accounted ids results.
Proof. intros <- id. lia. Qed.

(** The first [k] rows recorded once, then all of them once more. *)
Lemma accounted_retry ids k results :
  List.map sourceRowId results = take k ids ++ ids -> accounted ids results.
Proof.
  intros Hids id. rewrite Hids, occurrences_app.
  pose proof (occurrences_take id k ids). lia.
Qed.

Lemma staged_paths_app ps qs :
  staged_paths (ps ++ qs) = staged_paths ps ++ staged_paths qs.
Proof. unfold staged_paths. by rewrite flat_map_app. Qed.

Lemma between_difference (F F1 F2 S1 S2 : gset string) :
  F ∖ S1 ⊆ F1 -> F1 ⊆ F -> F1 ∖ S2 ⊆ F2 -> F2 ⊆ F1 ->
  F ∖ (S1 ∪ S2) ⊆ F2 /\ F2 ⊆ F.
Proof. set_solver. Qed.

Lemma difference_twice (F S1 S2 : gset string) :
  (F ∖ S1) ∖ S2 = F ∖ (S1 ∪ S2).
Proof. set_solver. Qed.

Lemma union_absorb (X Y : gset string) : X ⊆ Y -> X ∪ Y = Y.
Proof. set_solver. Qed.

Lemma difference_again (F F1 S : gset string) :
  F ∖ S ⊆ F1 -> F1 ⊆ F -> F1 ∖ S = F ∖ S.
Proof. set_solver. Qed.

Lemma releaseFiles_run p w :
  exists w',
    releaseFiles E p w = (Ok tt, w')
    /\ allResults w' = allResults w
    /\ files w ∖ list_to_set (staged_paths [p]) ⊆ files w'
    /\ files w' ⊆ files w
    /\ (unlink_works E ->
        files w' = files w ∖ list_to_set (staged_paths [p])).
Proof.
  unfold releaseFiles, staged_paths. simpl. rewrite app_nil_r.
  generalize (prep_processedFiles p). intros fs.
  revert w. induction fs as [| f fs IH]; intros w; simpl.
  - exists w. unfold ret. repeat split; try done; set_solver.
  - unfold bind at 1, cleanupProcessedFile.
    destruct (cleanup_run E [pdfPath f] w)
      as (w1 & -> & Hk1 & Hs1 & _ & _ & Hr1 & Hu1).
    destruct (IH w1) as (w' & Hrun & Hr & Hk & Hs & Hu).
    exists w'. split; [exact Hrun |]. split; [congruence |].
    simpl in Hk1, Hu1. rewrite union_empty_r_L in Hk1, Hu1.
    destruct (between_difference _ _ _ _ _ Hk1 Hs1 Hk Hs) as [Hk' Hs'].
    split; [exact Hk' |]. split; [exact Hs' |].
    intros Hunlink. rewrite (Hu Hunlink), (Hu1 Hunlink).
    apply difference_twice.
Qed.

Lemma recordBatch_run results todo :
  forall i w,
  exists r w' added,
    recordBatch E todo results i w = (r, w')
    /\ allResults w' = allResults w ++ added
    /\ files w ∖ list_to_set (staged_paths todo) ⊆ files w'
    /\ files w' ⊆ files w
    /\ ((r = Ok tt
         /\ List.map sourceRowId added = List.map prep_sourceRowId todo
         /\ (unlink_works E ->
             files w' = files w ∖ list_to_set (staged_paths todo)))
        \/ (exists e k, r = Throw e
            /\ List.map sourceRowId added
               = List.map prep_sourceRowId (take k todo))).
Proof.
  induction todo as [| p todo IH]; intros i w.
  - exists (Ok tt), w, []. simpl. rewrite app_nil_r.
    split; [done |]. split; [done |]. split; [set_solver |].
    split; [done |]. left. split; [done |]. split; [done |].
    intros _. set_solver.
  - simpl recordBatch. destruct (results !! i) as [br |].
    2: { eexists _, w, []. rewrite app_nil_r.
         split; [reflexivity |]. split; [done |].
         split; [set_solver |]. split; [done |].
         right. eexists _, 0. by split. }
    unfold bind at 1, push. cbn [fst snd]. unfold bind at 1.
    set (r0 := if br_success br
               then inserted p (br_destinationRowId br)
               else insertFailed p (br_error br)).
    assert (Hid : sourceRowId r0 = prep_sourceRowId p).
    { unfold r0. by destruct (br_success br). }
    clearbody r0.
    destruct (releaseFiles_run p (with_results (allResults w ++ [r0]) w))
      as (w1 & -> & Hr1 & Hk1 & Hs1 & Hu1).
    destruct (IH (S i) w1) as (r & w' & added & -> & Hr & Hk & Hs & Hcase).
    exists r, w', (r0 :: added). split; [done |].
    split. { rewrite Hr, Hr1. simpl. by rewrite <- app_assoc. }
    change (staged_paths (p :: todo))
      with (staged_paths ([p] ++ todo)).
    rewrite staged_paths_app, list_to_set_app_L.
    simpl in Hk1, Hs1, Hu1.
    destruct (between_difference _ _ _ _ _ Hk1 Hs1 Hk Hs) as [Hk' Hs'].
    split; [exact Hk' |]. split; [exact Hs' |].
    destruct Hcase as [(-> & Hids & Hu) | (e & k & -> & Hids)].
    + left. split; [done |]. split; [simpl; by rewrite Hid, Hids |].
      intros Hunlink. rewrite (Hu Hunlink), (Hu1 Hunlink).
      apply difference_twice.
    + right. exists e, (S k). split; [done |].
      simpl. by rewrite Hid, Hids.
Qed.

Lemma failAll_run e batch :
  forall w,
  exists w',
    for_each batch
      (fun preparedRow =>
         bind (push (insertFailed preparedRow (Some e)))
              (fun _ => releaseFiles E preparedRow)) w
    = (Ok tt, w')
    /\ allResults w'
       = allResults w ++ List.map (fun p => insertFailed p (Some e)) batch
    /\ files w ∖ list_to_set (staged_paths batch) ⊆ files w'
    /\ files w' ⊆ files w
    /\ (unlink_works E ->
        files w' = files w ∖ list_to_set (staged_paths batch)).
Proof.
  induction batch as [| p batch IH]; intros w; simpl for_each.
  - exists w. unfold ret. simpl. rewrite app_nil_r.
    repeat split; try done; set_solver.
  - unfold bind at 1, bind at 1, push at 1. cbn [fst snd].
    destruct (releaseFiles_run p
                (with_results (allResults w ++ [insertFailed p (Some e)]) w))
      as (w1 & -> & Hr1 & Hk1 & Hs1 & Hu1).
    cbv beta iota.
    destruct (IH w1) as (w' & -> & Hr & Hk & Hs & Hu).
    exists w'. split; [done |].
    split. { rewrite Hr, Hr1. simpl. by rewrite <- app_assoc. }
    change (staged_paths (p :: batch))
      with (staged_paths ([p] ++ batch)).
    rewrite staged_paths_app, list_to_set_app_L.
    simpl in Hk1, Hs1, Hu1.
    destruct (between_difference _ _ _ _ _ Hk1 Hs1 Hk Hs) as [Hk' Hs'].
    split; [exact Hk' |]. split; [exact Hs' |].
    intros Hunlink. rewrite (Hu Hunlink), (Hu1 Hunlink).
    apply difference_twice.
Qed.

Lemma insertRowsBatch_returns rows w :
  exists results w1,
    insertRowsBatch E config rows w = (Ok results, w1)
    /\ files w1 = files w /\ allResults w1 = allResults w.
Proof.
  destruct rows as [| row rows].
  - by exists [], w.
  - destruct (insertRowsBatch_run E config (row :: rows) w) as (results & -> & _);
      [done |].
    by eexists _, _.
Qed.

Lemma insertBatch_run batch w :
  exists w' added,
    insertBatch E config batch w = (Ok tt, w')
    /\ allResults w' = allResults w ++ added
    /\ accounted (List.map prep_sourceRowId batch) added
    /\ (complete_answers E ->
        List.map sourceRowId added = List.map prep_sourceRowId batch)
    /\ files w' ⊆ files w
    /\ (unlink_works E ->
        files w' = files w ∖ list_to_set (staged_paths batch)).
Proof.
  assert (Hcount : forall w3, complete_answers E ->
            insertBatch E config batch w = (Ok tt, w3) ->
            length (allResults w3) = length (allResults w) + length batch).
  { intros w3 Hc Hrun.
    destruct (insertBatch_counts E config batch w Hc) as (w'' & Hrun' & Hlen).
    rewrite Hrun in Hrun'. by injection Hrun' as <-. }
  destruct (insertRowsBatch_returns (List.map destinationData batch) w)
    as (results & w1 & Hins & Hf1 & Hr1).
  destruct (recordBatch_run results batch 0 w1)
    as (r & w2 & added & Hrec & Hr2 & Hk2 & Hs2 & Hcase).
  rewrite Hf1 in Hk2, Hs2. rewrite Hr1 in Hr2.
  destruct Hcase as [(-> & Hids & Hu) | (e & k & -> & Hids)].
  - exists w2, added.
    split.
    { unfold insertBatch, try_catch. unfold bind at 1.
      rewrite Hins. cbv beta iota. by rewrite Hrec. }
    split; [done |]. split; [by apply accounted_exact |].
    split; [done |]. split; [done |].
    intros Hunlink. rewrite (Hu Hunlink). by rewrite Hf1.
  - destruct (failAll_run e batch w2) as (w3 & Hfail & Hr3 & Hk3 & Hs3 & Hu3).
    assert (Hrun : insertBatch E config batch w = (Ok tt, w3)).
    { unfold insertBatch, try_catch. unfold bind at 1.
      rewrite Hins. cbv beta iota. rewrite Hrec. exact Hfail. }
    assert (Hall : List.map sourceRowId
                     (added ++ List.map (fun p => insertFailed p (Some e)) batch)
                   = take k (List.map prep_sourceRowId batch)
                     ++ List.map prep_sourceRowId batch).
    { rewrite map_app, Hids, map_map, firstn_map. done. }
    exists w3, (added ++ List.map (fun p => insertFailed p (Some e)) batch).
    split; [exact Hrun |]. split; [by rewrite Hr3, Hr2, app_assoc |].
    split; [by apply (accounted_retry _ k) |].
    split.
    { intros Hc. specialize (Hcount w3 Hc Hrun).
      rewrite Hr3, Hr2, !length_app, length_map in Hcount.
      destruct added; [| simpl in Hcount; lia].
      simpl. by rewrite map_map. }
    split; [set_solver |].
    intros Hunlink. rewrite (Hu3 Hunlink). by apply difference_again.
Qed.

Lemma insertBatches_run batches :
  forall w,
  exists w' added,
    for_each batches (insertBatch E config) w = (Ok tt, w')
    /\ allResults w' = allResults w ++ added
    /\ accounted (List.map prep_sourceRowId (concat batches)) added
    /\ (complete_answers E ->
        List.map sourceRowId added
        = List.map prep_sourceRowId (concat batches))
    /\ files w' ⊆ files w
    /\ (unlink_works E ->
        files w' = files w ∖ list_to_set (staged_paths (concat batches))).
Proof.
  induction batches as [| b batches IH]; intros w; simpl.
  - exists w, []. unfold ret. rewrite app_nil_r.
    repeat split; try done; try apply accounted_nil. intros _. set_solver.
  - unfold bind at 1.
    destruct (insertBatch_run b w)
      as (w1 & added1 & -> & Hr1 & Ha1 & He1 & Hs1 & Hu1).
    destruct (IH w1) as (w' & added & -> & Hr & Ha & He & Hs & Hu).
    exists w', (added1 ++ added). split; [done |].
    split; [by rewrite Hr, Hr1, app_assoc |].
    split; [rewrite map_app; by apply accounted_app |].
    split; [intros Hc; by rewrite !map_app, (He1 Hc), (He Hc) |].
    split; [set_solver |].
    intros Hunlink.
    rewrite (Hu Hunlink), (Hu1 Hunlink), staged_paths_app, list_to_set_app_L.
    apply difference_twice.
Qed.

Lemma insertPhase_run prepared w :
  0 < insertBatchSize config ->
  exists w' added,
    insertPhase E config prepared w = (Ok tt, w')
    /\ allResults w' = allResults w ++ added
    /\ accounted (List.map prep_sourceRowId prepared) added
    /\ (complete_answers E ->
        List.map sourceRowId added = List.map prep_sourceRowId prepared)
    /\ files w' ⊆ files w
    /\ (unlink_works E ->
        files w' = files w ∖ list_to_set (staged_paths prepared)).
Proof.
  intros Hsize. unfold insertPhase.
  destruct (0 <? length prepared)%nat eqn:Hp.
  - destruct (makeBatches_concat (insertBatchSize config) prepared
                (length prepared) Hsize 0) as (batches & -> & Hcat); [lia |].
    rewrite drop_0 in Hcat. rewrite <- Hcat. apply insertBatches_run.
  - apply Nat.ltb_ge in Hp. destruct prepared; [| simpl in Hp; lia].
    exists w, []. unfold ret. rewrite app_nil_r.
    repeat split; try done; try apply accounted_nil. intros _. set_solver.
Qed.

(** X19: with a positive insert batch size the insert phase always comes
    back, whatever the remote answers, short identifier lists included.
    Row by row, a prepared row gets at least one result and at most two
    (a row that is prepared several times, that many times as much), and a
    row that was not prepared gets none; no file is created, and where
    deleting works every staged document of the prepared rows is gone
    afterwards, inserted or not. *)
Theorem insertPhase_settles_every_row prepared w :
  0 < insertBatchSize config ->
  exists w' added,
    insertPhase E config prepared w = (Ok tt, w')
    /\ allResults w' = allResults w ++ added
    /\ (forall id,
          occurrences id (List.map prep_sourceRowId prepared)
          <= occurrences id (List.map sourceRowId added)
          /\ occurrences id (List.map sourceRowId added)
             <= 2 * occurrences id (List.map prep_sourceRowId prepared))
    /\ files w' ⊆ files w
    /\ (unlink_works E ->
        files w' = files w ∖ list_to_set (staged_paths prepared)).
Proof.
  intros Hsize.
  destruct (insertPhase_run prepared w Hsize)
    as (w' & added & Hrun & Hres & Hacc & _ & Hsub & Hgone).
  by exists w', added.
Qed.

Lemma prepareRow_id row ms w p w' :
  prepareRow E config row ms w = (Ok p, w') -> prep_sourceRowId p = row_id row.
Proof.
  unfold prepareRow. intros Hrun.
  apply bind_Ok in Hrun as (fs & w1 & _ & Hrun). by injection Hrun as <- _.
Qed.

Lemma preparePhase_run ms rows :
  forall prepared w,
  exists new failed w',
    preparePhase E config rows ms prepared w = (Ok (prepared ++ new), w')
    /\ allResults w' = allResults w ++ failed
    /\ List.map prep_sourceRowId new ++ List.map sourceRowId failed
       ≡ₚ List.map row_id rows
    /\ Forall (fun r => success r = false) failed.
Proof.
  induction rows as [| row rows IH]; intros prepared w; simpl.
  - exists [], [], w. rewrite !app_nil_r. by repeat split.
  - unfold bind at 1. unfold try_catch, bind at 1.
    destruct (quiet_prepareRow E config row ms w) as [Hd Hr].
    destruct (prepareRow E config row ms w) as [[p | e |] w1] eqn:Hrow;
      simpl in *; try done.
    + apply prepareRow_id in Hrow.
      destruct (IH (prepared ++ [p]) w1)
        as (new & failed & w' & -> & Hres & Hids & Hfail).
      exists (p :: new), failed, w'.
      split; [by rewrite <- app_assoc |]. split; [congruence |].
      split; [| done].
      simpl. rewrite Hrow. by constructor.
    + unfold bind, push, ret. simpl.
      destruct (IH prepared
                  (with_results (allResults w1 ++ [prepareFailed row e]) w1))
        as (new & failed & w' & -> & Hres & Hids & Hfail).
      exists new, (prepareFailed row e :: failed), w'.
      split; [done |].
      split. { rewrite Hres. simpl. rewrite Hr. by rewrite <- app_assoc. }
      split; [| by constructor].
      simpl. rewrite <- Permutation_middle. by constructor.
Qed.

Lemma accounted_phases (rows new : list string)
    (failed added : list MigrationResult) :
  new ++ List.map sourceRowId failed ≡ₚ rows ->
  accounted new added ->
  accounted rows (failed ++ added).
Proof.
  intros Hids Hacc id.
  rewrite <- (occurrences_perm id _ _ Hids), map_app, !occurrences_app.
  destruct (Hacc id). lia.
Qed.

(** What a run that returns went through: the connection tests, the column
    mappings [ms], the sweep that gave [rows], and from the world after the
    sweep the two phases, whose results are the run's. *)
Lemma migrate_run fuel w results w' :
  0 < insertBatchSize config ->
  migrate E config fuel w = (Ok results, w') ->
  exists wb ms wc rows wd,
    testConnections E config w = (Ok tt, wb)
    /\ createColumnMapping E config (srcDoc config) (srcTable config)
         (dstDoc config) (dstTable config) wb = (Ok ms, wc)
    /\ getAllTableRows E fuel (srcDoc config) (srcTable config)
         (batchSize config) wc = (Ok rows, wd)
    /\ accounted (List.map row_id rows) results
    /\ (complete_answers E ->
        List.map sourceRowId results ≡ₚ List.map row_id rows).
Proof.
  intros Hsize Hrun. unfold migrate in Hrun.
  apply try_finally_Ok in Hrun as (wa & Hrun).
  apply bind_Ok in Hrun as ([] & wb & Htest & Hrun).
  apply bind_Ok in Hrun as (ms & wc & Hmap & Hrun).
  destruct (length ms =? 0)%nat; [discriminate |].
  apply bind_Ok in Hrun as (rows & wd & Hsweep & Hrun).
  exists wb, ms, wc, rows, wd.
  split; [exact Htest |]. split; [exact Hmap |]. split; [exact Hsweep |].
  destruct (length rows =? 0)%nat eqn:Hrows.
  - apply Nat.eqb_eq in Hrows. injection Hrun as <- _.
    destruct rows; [| discriminate]. split; [apply accounted_nil | done].
  - apply bind_Ok in Hrun as ([] & we & Hreset & Hrun).
    injection Hreset as <-.
    destruct (preparePhase_run ms rows [] (with_results [] wd))
      as (new & failed & w1 & Hprep & Hres1 & Hids & _).
    apply bind_Ok in Hrun as (prepared & w1' & Hprep' & Hrun).
    rewrite Hprep in Hprep'. injection Hprep' as <- <-.
    destruct (insertPhase_run new w1 Hsize)
      as (w2 & added & Hins & Hres2 & Hacc & Hexact & _).
    apply bind_Ok in Hrun as ([] & w2' & Hins' & Hrun).
    simpl in Hins'. rewrite Hins in Hins'. injection Hins' as <-.
    apply bind_Ok in Hrun as (rs & w3 & Hread & Hrun).
    injection Hread as <- <-.
    apply bind_Ok in Hrun as ([] & w4 & _ & Hrun).
    injection Hrun as <- _.
    rewrite Hres2, Hres1. simpl. split.
    + by apply (accounted_phases _ (List.map prep_sourceRowId new)).
    + intros Hc. rewrite map_app, (Hexact Hc), <- Hids.
      apply Permutation_app_comm.
Qed.

(** X20: with a positive insert batch size, a migration run that returns
    accounts for the rows of its own sweep, whatever the remote answered.
    The run tested the connections, built the column mappings and swept
    the source table, each from the world the step before left; row by row
    of that sweep, a source row has at least one result and at most two
    (a row the sweep gave several times, that many times as much), and no
    result is for a row the sweep did not give. *)
Theorem migrate_results_cover_rows fuel w results w' :
  0 < insertBatchSize config ->
  migrate E config fuel w = (Ok results, w') ->
  exists wb ms wc rows wd,
    testConnections E config w = (Ok tt, wb)
    /\ createColumnMapping E config (srcDoc config) (srcTable config)
         (dstDoc config) (dstTable config) wb = (Ok ms, wc)
    /\ getAllTableRows E fuel (srcDoc config) (srcTable config)
         (batchSize config) wc = (Ok rows, wd)
    /\ (forall id,
          occurrences id (List.map row_id rows)
          <= occurrences id (List.map sourceRowId results)
          /\ occurrences id (List.map sourceRowId results)
             <= 2 * occurrences id (List.map row_id rows)).
Proof.
  intros Hsize Hrun.
  destruct (migrate_run fuel w results w' Hsize Hrun)
    as (wb & ms & wc & rows & wd & Htest & Hmap & Hsweep & Hacc & _).
  by exists wb, ms, wc, rows, wd.
Qed.

(** X28: with a remote whose insert answers are never short and a positive
    insert batch size, a migration run that returns has exactly one result
    per row of its own sweep: the run tested the connections, built the
    column mappings and swept the source table, each from the world the
    step before left, and the row identifiers of its results are those of
    the swept rows, each as often as the sweep gave it, in some order. *)
Theorem migrate_one_result_per_row fuel w results w' :
  complete_answers E -> 0 < insertBatchSize config ->
  migrate E config fuel w = (Ok results, w') ->
  exists wb ms wc rows wd,
    testConnections E config w = (Ok tt, wb)
    /\ createColumnMapping E config (srcDoc config) (srcTable config)
         (dstDoc config) (dstTable config) wb = (Ok ms, wc)
    /\ getAllTableRows E fuel (srcDoc config) (srcTable config)
         (batchSize config) wc = (Ok rows, wd)
    /\ List.map sourceRowId results ≡ₚ List.map row_id rows.
Proof.
  intros Hcomplete Hsize Hrun.
  destruct (migrate_run fuel w results w' Hsize Hrun)
    as (wb & ms & wc & rows & wd & Htest & Hmap & Hsweep & _ & Hperm).
  exists wb, ms, wc, rows, wd. auto.
Qed.

End PhaseFurther.

(** ** What a run leaves behind *)
Section RunFurther.
Context `{NumberModel}.
Variable E : env.
Variable config : MigrationConfig.

Lemma try_finally_run {A} (m : M A) (f : M unit) w a w' :
  try_finally m f w = (Ok a, w') ->
  exists w1, m w = (Ok a, w1) /\ w' = snd (f w1).
Proof.
  unfold try_finally. destruct (m w) as [[a' | e |] w1]; intros Hrun;
    try discriminate.
  injection Hrun as -> <-. by exists w1.
Qed.

Lemma keeps_run {X A} (proj : world -> X) (m : M A) w r w' :
  keeps proj m -> m w = (r, w') -> proj w' = proj w.
Proof. intros Hm Hrun. specialize (Hm w). by rewrite Hrun in Hm. Qed.

(** X21: a migration run that returns with at least one failed result has
    written the ledger: afterwards the document [failed-rows.json] lists,
    in result order, the source row of every failed result with its
    error, and the identifiers of those rows. *)
Theorem migrate_writes_ledger_of_failures fuel w results w' :
  migrate E config fuel w = (Ok results, w') ->
  failedOnes results <> [] ->
  exists now,
    documents w' !! "failed-rows.json"
    = Some (LedgerJson
              {| timestamp := now;
                 originalFailureCount := None;
                 recoveredCount := None;
                 failedRowIds :=
                   Some (List.map sourceRowId (failedOnes results));
                 failedRows := ledgerRows (failedOnes results) |}).
Proof.
  intros Hrun Hfailed. unfold migrate in Hrun.
  apply try_finally_run in Hrun as (wa & Hrun & ->).
  rewrite (keeps_cleanupAllDirectories E documents (fun _ _ => eq_refl) wa).
  apply bind_Ok in Hrun as ([] & wb & _ & Hrun).
  apply bind_Ok in Hrun as (ms & wc & _ & Hrun).
  destruct (length ms =? 0)%nat; [discriminate |].
  apply bind_Ok in Hrun as (rows & wd & _ & Hrun).
  destruct (length rows =? 0)%nat.
  { injection Hrun as <- <-. done. }
  apply bind_Ok in Hrun as ([] & we & _ & Hrun).
  apply bind_Ok in Hrun as (prepared & w1 & _ & Hrun).
  apply bind_Ok in Hrun as ([] & w2 & _ & Hrun).
  apply bind_Ok in Hrun as (rs & w3 & Hread & Hrun).
  injection Hread as <- <-.
  apply bind_Ok in Hrun as ([] & w4 & Hwrite & Hrun).
  injection Hrun as <- <-.
  destruct (failedOnes (allResults w2)) as [| f fs] eqn:Hfs; [done |].
  cbn [length Nat.ltb Nat.leb] in Hwrite.
  apply bind_Ok in Hwrite as (now & w5 & Hnow & Hwrite).
  injection Hnow as <- <-. exists (clock_iso E w2).
  unfold writeDocument in Hwrite.
  apply bind_Ok in Hwrite as ([] & w6 & _ & Hwrite).
  apply bind_Ok in Hwrite as ([] & w7 & _ & Hwrite).
  apply bind_Ok in Hwrite as ([] & w8 & _ & Hwrite).
  injection Hwrite as <-. simpl. apply lookup_insert_eq.
Qed.

(** X22: whether a migration run returns or throws, and wherever it stops,
    nothing is left in the two working directories afterwards when
    removing a tree works. *)
Theorem migrate_leaves_no_working_files fuel w :
  rm_works E ->
  match migrate E config fuel w with
  | (Diverge, _) => True
  | (_, w') => forall p, p ∈ files w' -> in_workdir p = false
  end.
Proof.
  intros Hrm. unfold migrate, try_finally.
  match goal with
  | |- context [match ?body w with _ => _ end] =>
      destruct (body w) as [[results | e |] w1]; [| | done]
  end.
  - destruct (cleanupAllDirectories_run E w1) as (w' & -> & _ & _ & _ & _ & _ & Hclear).
    by apply Hclear.
  - destruct (cleanupAllDirectories_run E w1) as (w' & -> & _ & _ & _ & _ & _ & Hclear).
    by apply Hclear.
Qed.

Lemma makeBatches_zero {A} (rows : list A) fuel :
  forall i, i < length rows -> makeBatches fuel 0 rows i = None.
Proof.
  induction fuel as [| fuel IH]; intros i Hi; simpl.
  - apply Nat.ltb_lt in Hi. by rewrite Hi.
  - pose proof Hi as Hi'. apply Nat.ltb_lt in Hi'. rewrite Hi'.
    rewrite Nat.add_0_r. by rewrite IH.
Qed.

(** X23: when the insert phase comes back, the insert batch size being a
    whole number that is not negative.  With no prepared row it returns at
    once and changes nothing, whatever the size; with a positive size it
    always returns; with a size of zero and at least one prepared row it
    never does, the loop that cuts the batches not advancing. *)
Theorem insertPhase_returns_unless_zero_batch prepared w :
  (prepared = [] -> insertPhase E config prepared w = (Ok tt, w))
  /\ (0 < insertBatchSize config ->
      exists w', insertPhase E config prepared w = (Ok tt, w'))
  /\ (insertBatchSize config = 0 -> prepared <> [] ->
      insertPhase E config prepared w = (Diverge, w)).
Proof.
  split; [| split].
  - by intros ->.
  - intros Hsize.
    destruct (insertPhase_run E config prepared w Hsize)
      as (w' & added & Hrun & _).
    by exists w'.
  - intros Hz Hne. unfold insertPhase.
    destruct prepared as [| p prepared]; [done |].
    rewrite Hz. cbn [length Nat.ltb Nat.leb].
    rewrite makeBatches_zero by (simpl; lia). done.
Qed.

End RunFurther.

(** ** Configuration *)
Section ConfigFurther.
Context `{NumberModel}.

Lemma missing_text_false s :
  missing_text s = false -> exists t, s = Some t /\ t <> EmptyString.
Proof.
  destruct s as [t |]; [| discriminate]. simpl. intros Ht.
  apply String.eqb_neq in Ht. by exists t.
Qed.

(** X24: a configuration document that passes validation, together with
    the four storage variables, always yields a migration configuration,
    and (sizes being whole numbers) its fetch size is between 1 and 100,
    its insert batch size between 1 and 50, and none of its table and
    folder identifiers is empty; so the insert phase never meets a batch
    size of zero. *)
Theorem validated_configuration_is_usable yaml vars :
  validateConfig (Some yaml) = None ->
  missing_text (DO_SPACES_BUCKET vars) = false ->
  missing_text (DO_SPACES_ENDPOINT vars) = false ->
  missing_text (DO_SPACES_KEY vars) = false ->
  missing_text (DO_SPACES_SECRET vars) = false ->
  exists config,
    createMigrationConfig yaml vars = inr config
    /\ 1 <= batchSize config <= 100
    /\ 1 <= insertBatchSize config <= 50
    /\ sourceDocId config <> EmptyString
    /\ sourceTableId config <> EmptyString
    /\ destinationDocId config <> EmptyString
    /\ destinationTableId config <> EmptyString
    /\ migrationFolder config <> EmptyString
    /\ spacesBucket config <> EmptyString.
Proof.
  intros Hvalid Hb He Hk Hs.
  unfold createMigrationConfig. rewrite Hb, He, Hk, Hs. simpl.
  unfold validateConfig in Hvalid.
  destruct (y_source yaml) as [source |]; [| by destruct (y_destination yaml)].
  destruct (y_destination yaml) as [destination |]; [| discriminate].
  destruct (y_settings yaml) as [settings |]; [| discriminate].
  destruct (y_columnMappings yaml) as [mappings |]; [| discriminate].
  destruct (missing_text (y_docId source)) eqn:H1; [discriminate |].
  destruct (missing_text (y_tableId source)) eqn:H2; [discriminate |].
  destruct (missing_text (y_docId destination)) eqn:H3; [discriminate |].
  destruct (missing_text (y_tableId destination)) eqn:H4; [discriminate |].
  destruct (missing_number (y_batchSize settings)) eqn:H5; [discriminate |].
  destruct (missing_number (y_insertBatchSize settings)) eqn:H6;
    [discriminate |].
  destruct (missing_text (y_migrationFolder settings)) eqn:H7;
    [discriminate |].
  simpl in Hvalid.
  destruct (default 0 (y_batchSize settings) <=? 0)%Z eqn:H8; [discriminate |].
  destruct (100 <? default 0 (y_batchSize settings))%Z eqn:H9;
    [discriminate |].
  destruct (default 0 (y_insertBatchSize settings) <=? 0)%Z eqn:H10;
    [discriminate |].
  destruct (50 <? default 0 (y_insertBatchSize settings))%Z eqn:H11;
    [discriminate |].
  apply missing_text_false in H1 as (? & -> & ?), H2 as (? & -> & ?),
    H3 as (? & -> & ?), H4 as (? & -> & ?), H7 as (? & -> & ?),
    Hb as (? & -> & ?).
  eexists. split; [reflexivity |]. simpl.
  apply Z.leb_gt in H8, H10. apply Z.ltb_ge in H9, H11.
  repeat split; try done; lia.
Qed.

End ConfigFurther.

Lemma validated_configuration_is_usable_witness :
  exists config,
    createMigrationConfig demo_yaml demo_vars = inr config
    /\ insertBatchSize config = 5.
Proof.
  destruct (validated_configuration_is_usable demo_yaml demo_vars)
    as (config & Hrun & _); try reflexivity.
  exists config. split; [exact Hrun |].
  vm_compute in Hrun. injection Hrun as <-. reflexivity.
Defined.

(** ** The content type of what is uploaded *)
Section ContentTypeFurther.

Lemma name_char_not_slash c : is_name_char c = true -> Ascii.eqb slash c = false.
Proof.
  intros Hc. destruct (Ascii.eqb slash c) eqn:Hs; [| done].
  apply Ascii.eqb_eq in Hs. subst c. discriminate.
Qed.

Lemma name_char_not_dot c : is_name_char c = true -> Ascii.eqb c dot = false.
Proof.
  intros Hc. destruct (Ascii.eqb c dot) eqn:Hs; [| done].
  apply Ascii.eqb_eq in Hs. subst c. discriminate.
Qed.

Lemma last_segment_plain (s : list ascii) :
  existsb (Ascii.eqb slash) s = false -> last_segment s = s.
Proof.
  destruct s as [| c s]; [done |]. cbn [last_segment existsb].
  intros [Hc Hs]%orb_false_iff. rewrite Hs.
  rewrite Ascii.eqb_sym in Hc. by rewrite Hc.
Qed.

Lemma last_index_of_app c (l r : list ascii) :
  last_index_of c r = None ->
  last_index_of c (l ++ c :: r) = Some (length l).
Proof.
  intros Hr. induction l as [| d l IH]; simpl.
  - by rewrite Hr, Ascii.eqb_refl.
  - by rewrite IH.
Qed.

Lemma path_extname_pdf base :
  base <> EmptyString ->
  Forall (fun c => is_name_char c = true) (String.list_ascii_of_string base) ->
  path_extname (base +:+ ".pdf") = ".pdf".
Proof.
  intros Hne Hchars. unfold path_extname, extname_chars.
  rewrite chars_append.
  set (cb := String.list_ascii_of_string base) in *.
  assert (Hcb : cb <> []).
  { intros Hnil. apply Hne. rewrite <- (String.string_of_list_ascii_of_string base).
    fold cb. by rewrite Hnil. }
  change (String.list_ascii_of_string ".pdf")
    with (dot :: String.list_ascii_of_string "pdf").
  rewrite last_segment_plain.
  2: { rewrite existsb_app. apply orb_false_iff. split; [| done].
       clear Hcb. induction Hchars as [| c rest Hc _ IH]; [done |].
       cbn [existsb]. by rewrite (name_char_not_slash c Hc), IH. }
  cbv zeta.
  replace (length (cb ++ dot :: String.list_ascii_of_string "pdf") =? 2)%nat
    with false.
  2: { symmetry. apply Nat.eqb_neq. rewrite length_app. simpl.
       destruct cb; [done | simpl; lia]. }
  rewrite andb_false_r, last_index_of_app by done.
  destruct cb as [| c cb']; [done |]. cbn [length].
  change (S (length cb')) with (length (c :: cb')).
  by rewrite drop_app_length.
Qed.

(** X25: whatever the row and its attachments are called, the document
    that is uploaded for it, named after a base name made of letters,
    digits, [_] and [-], is announced to the storage as
    [application/pdf]. *)
Theorem getContentType_of_staged_document base :
  base <> EmptyString ->
  Forall (fun c => is_name_char c = true) (String.list_ascii_of_string base) ->
  getContentType (base +:+ ".pdf") = "application/pdf".
Proof.
  intros Hne Hchars. unfold getContentType.
  by rewrite path_extname_pdf.
Qed.

End ContentTypeFurther.

Lemma getContentType_of_staged_document_witness :
  getContentType ("my_receipt" +:+ ".pdf") = "application/pdf".
Proof.
  apply getContentType_of_staged_document; [done |].
  repeat (constructor; [reflexivity |]). constructor.
Defined.

(** ** The general statements at concrete inputs *)

Lemma sanitizeValue_api_shape_witness :
  exists r,
    sanitizeValue_run (VArr [monetary_42_5; VNull; person_jo]) = Some r
    /\ (r = VNull \/ api_value r = true).
Proof.
  pose proof (sanitizeValue_api_shape
                (VArr [monetary_42_5; VNull; person_jo]) eq_refl) as Hshape.
  destruct (sanitizeValue_run (VArr [monetary_42_5; VNull; person_jo]))
    as [r |].
  - by exists r.
  - discriminate Hshape.
Defined.

Lemma buildColumnMappings_complete_witness :
  exists m,
    m ∈ buildColumnMappings demo_config demo_source_columns demo_dest_columns
    /\ sourceColumn m = notesColumn
    /\ destinationColumn m = receiptColumn.
Proof.
  apply buildColumnMappings_complete.
  - apply list_elem_of_In. simpl. tauto.
  - split; [reflexivity |]. split.
    + intros Hin. apply list_elem_of_In in Hin. simpl in Hin.
      destruct Hin as [Hin | []]. discriminate.
    + exists "Receipt". split; [vm_compute; reflexivity |].
      split; [discriminate | reflexivity].
Defined.

Lemma constructPublicUrl_virtual_host_witness :
  constructPublicUrl demo_config "Migration/my_receipt.pdf"
  = "https://" +:+ spacesBucket demo_config +:+ "."
    +:+ "nyc3.digitaloceanspaces.com" +:+ "/" +:+ "Migration/my_receipt.pdf".
Proof. apply constructPublicUrl_virtual_host. reflexivity. Defined.

Lemma insertPhase_settles_every_row_witness :
  let E := demo_env [] one_id_only no_io_error in
  let prepared :=
    [ {| prep_sourceRowId := "i-src-1"; destinationData := [];
         prep_processedFiles := [] |};
      {| prep_sourceRowId := "i-src-2"; destinationData := [];
         prep_processedFiles := [] |} ] in
  exists w' added,
    insertPhase E demo_config prepared empty_world = (Ok tt, w')
    /\ allResults w' = allResults empty_world ++ added
    /\ (forall id,
          occurrences id (List.map prep_sourceRowId prepared)
          <= occurrences id (List.map sourceRowId added)
          /\ occurrences id (List.map sourceRowId added)
             <= 2 * occurrences id (List.map prep_sourceRowId prepared))
    /\ files w' ⊆ files empty_world
    /\ (unlink_works E ->
        files w' = files empty_world ∖ list_to_set (staged_paths prepared)).
Proof.
  intros E prepared. apply insertPhase_settles_every_row. simpl. lia.
Defined.

(** The run in which the remote acknowledges one row of two: three results,
    which still account for the two rows. *)
Lemma migrate_results_cover_rows_witness :
  let E := demo_env [row_1; row_2] one_id_only no_io_error in
  exists results,
    fst (migrate E demo_config 1 empty_world) = Ok results
    /\ length results = 3
    /\ (forall id,
          occurrences id ["i-src-1"; "i-src-2"]
          <= occurrences id (List.map sourceRowId results)
          /\ occurrences id (List.map sourceRowId results)
             <= 2 * occurrences id ["i-src-1"; "i-src-2"]).
Proof.
  intros E.
  destruct (migrate E demo_config 1 empty_world) as [r w'] eqn:Hrun.
  assert (Hr : exists results, r = Ok results /\ length results = 3).
  { replace r with (fst (migrate E demo_config 1 empty_world))
      by (by rewrite Hrun).
    eexists. split; vm_compute; reflexivity. }
  destruct Hr as (results & -> & Hlen). exists results.
  split; [done |]. split; [done |].
  destruct (migrate_results_cover_rows E demo_config 1 empty_world results w')
    as (wb & ms & wc & rows & wd & _ & _ & Hsweep & Hacc).
  - simpl. lia.
  - exact Hrun.
  - unfold getAllTableRows, sweep, getTableRows, request, bind, read, emit,
      ret in Hsweep.
    simpl in Hsweep. injection Hsweep as <- _. exact Hacc.
Defined.

(** The same run writes the ledger of its two failed results. *)
Lemma migrate_writes_ledger_of_failures_witness :
  let E := demo_env [row_1; row_2] one_id_only no_io_error in
  exists results w' l,
    migrate E demo_config 1 empty_world = (Ok results, w')
    /\ documents w' !! "failed-rows.json" = Some (LedgerJson l)
    /\ failedRowIds l = Some ["i-src-1"; "i-src-2"].
Proof.
  intros E.
  destruct (migrate E demo_config 1 empty_world) as [r w'] eqn:Hrun.
  assert (Hr : exists results,
            r = Ok results
            /\ List.map sourceRowId (failedOnes results) = ["i-src-1"; "i-src-2"]).
  { replace r with (fst (migrate E demo_config 1 empty_world))
      by (by rewrite Hrun).
    eexists. split; vm_compute; reflexivity. }
  destruct Hr as (results & -> & Hfailed).
  assert (Hsome : failedOnes results <> []).
  { intros Hnil. rewrite Hnil in Hfailed. discriminate. }
  destruct (migrate_writes_ledger_of_failures E demo_config 1 empty_world
              results w' Hrun Hsome) as [now Hdoc].
  eexists results, w', _. split; [done |]. split; [exact Hdoc |].
  simpl. by rewrite Hfailed.
Defined.

(** With complete answers the two rows get one result each. *)
Lemma migrate_one_result_per_row_witness :
  let E := demo_env [row_1; row_2] fresh_ids no_io_error in
  exists results,
    fst (migrate E demo_config 1 empty_world) = Ok results
    /\ List.map sourceRowId results ≡ₚ ["i-src-1"; "i-src-2"].
Proof.
  intros E.
  destruct (migrate E demo_config 1 empty_world) as [r w'] eqn:Hrun.
  assert (Hr : exists results, r = Ok results).
  { replace r with (fst (migrate E demo_config 1 empty_world))
      by (by rewrite Hrun).
    eexists. vm_compute. reflexivity. }
  destruct Hr as [results ->]. exists results. split; [done |].
  destruct (migrate_one_result_per_row E demo_config 1 empty_world results w')
    as (wb & ms & wc & rows & wd & _ & _ & Hsweep & Hperm).
  - apply fresh_ids_complete.
  - simpl. lia.
  - exact Hrun.
  - unfold getAllTableRows, sweep, getTableRows, request, bind, read, emit,
      ret in Hsweep.
    simpl in Hsweep. injection Hsweep as <- _. exact Hperm.
Defined.

Lemma migrate_leaves_no_working_files_witness :
  let E := demo_env [row_with_receipt] fresh_ids no_io_error in
  rm_works E
  /\ match migrate E demo_config 1 empty_world with
     | (Diverge, _) => True
     | (_, w') => forall p, p ∈ files w' -> in_workdir p = false
     end.
Proof.
  intros E.
  assert (Hrm : rm_works E) by (by intros w dir).
  split; [exact Hrm |].
  apply migrate_leaves_no_working_files. exact Hrm.
Defined.

(** ** One row, from its attachments to its payload *)
Section PrepareFurther.
Context `{NumberModel}.
Variable E : env.
Variable config : MigrationConfig.

Lemma processRowAttachments_run row atts w r w' :
  processRowAttachments E config row atts w = (Ok r, w') ->
  match r with
  | None => atts = []
  | Some pf =>
      originalName pf <> EmptyString
      /\ Forall (fun c => is_name_char c = true)
                (String.list_ascii_of_string (originalName pf))
      /\ pdfPath pf = path_join uploadDir (originalName pf +:+ ".pdf")
      /\ uploadedUrl pf = getFileUrl config (originalName pf +:+ ".pdf")
      /\ pdfPath pf ∈ files w'
      /\ last (log w')
         = Some (EPutObject (migrationFolder config +:+ "/"
                             +:+ (originalName pf +:+ ".pdf")))
  end.
Proof.
  unfold processRowAttachments. intros Hrun.
  apply bind_Ok in Hrun as (base & w1 & Hbase & Hrun).
  pose proof (getBaseFileName_run row atts w) as Hb. rewrite Hbase in Hb.
  destruct Hb as (-> & Hne & Hchars).
  apply bind_Ok in Hrun as (processed & w2 & Hproc & Hrun).
  apply processAttachments_run in Hproc.
  destruct processed as [pf0 |].
  2: { injection Hrun as <- _. by destruct Hproc. }
  destruct Hproc as (_ & -> & Hstaged & _). simpl in Hrun, Hstaged.
  apply bind_Ok in Hrun as (url & w3 & Hup & Hrun).
  injection Hrun as <- <-. simpl.
  pose proof (uploadFile_run E config (path_join uploadDir (base +:+ ".pdf"))
                (base +:+ ".pdf") w2) as Hu.
  cbv zeta in Hu. rewrite Hup in Hu. destruct Hu as (-> & _ & _ & ->).
  simpl. repeat split; try done. by rewrite last_snoc.
Qed.

(** X26: a prepared row carries the id of its source row and the payload
    computed from its processed files, of which there is at most one.
    When there is one, its name is made of letters, digits, [_] and [-];
    its document is in the staging directory under that name and is on
    disk when the preparation returns; its address is the public address
    of the object [folder/name.pdf]; and the last request made was the
    upload of that object. *)
Theorem prepareRow_links_the_staged_document row ms w p w' :
  prepareRow E config row ms w = (Ok p, w') ->
  prep_sourceRowId p = row_id row
  /\ destinationData p = mapRowData row ms (prep_processedFiles p)
  /\ match prep_processedFiles p with
     | [] => True
     | [pf] =>
         originalName pf <> EmptyString
         /\ Forall (fun c => is_name_char c = true)
                   (String.list_ascii_of_string (originalName pf))
         /\ pdfPath pf = path_join uploadDir (originalName pf +:+ ".pdf")
         /\ uploadedUrl pf = getFileUrl config (originalName pf +:+ ".pdf")
         /\ pdfPath pf ∈ files w'
         /\ last (log w')
            = Some (EPutObject (migrationFolder config +:+ "/"
                                +:+ (originalName pf +:+ ".pdf")))
     | _ => False
     end.
Proof.
  unfold prepareRow. intros Hrun.
  apply bind_Ok in Hrun as (fs & w1 & Hfs & Hrun).
  injection Hrun as <- <-. simpl. split; [done |]. split; [done |].
  destruct (List.find isReceiptMapping ms) as [m |];
    [| by injection Hfs as <- _].
  destruct (0 <? length _)%nat; [| by injection Hfs as <- _].
  apply bind_Ok in Hfs as (processed & w2 & Hproc & Hfs).
  injection Hfs as <- <-.
  apply processRowAttachments_run in Hproc.
  by destruct processed.
Qed.

End PrepareFurther.

(** The row with one receipt: its document is staged as
    [upload/my_receipt.pdf] and linked under the migration folder. *)
Lemma prepareRow_links_the_staged_document_witness :
  let E := demo_env [] fresh_ids no_io_error in
  let ms := [ {| sourceColumn := recordFileColumn;
                 destinationColumn := receiptColumn;
                 transform := None |} ] in
  exists p,
    fst (prepareRow E demo_config row_with_receipt ms empty_world) = Ok p
    /\ List.map pdfPath (prep_processedFiles p) = ["upload/my_receipt.pdf"]
    /\ destinationData p = mapRowData row_with_receipt ms (prep_processedFiles p).
Proof.
  intros E ms.
  destruct (prepareRow E demo_config row_with_receipt ms empty_world)
    as [r w'] eqn:Hrun.
  assert (Hr : exists p,
            r = Ok p
            /\ List.map pdfPath (prep_processedFiles p)
               = ["upload/my_receipt.pdf"]).
  { replace r with (fst (prepareRow E demo_config row_with_receipt ms
                           empty_world)) by (by rewrite Hrun).
    eexists. split; vm_compute; reflexivity. }
  destruct Hr as (p & -> & Hpaths). exists p.
  split; [done |]. split; [exact Hpaths |].
  apply (prepareRow_links_the_staged_document E demo_config row_with_receipt
           ms empty_world p w' Hrun).
Defined.

(** ** The connection tests *)
Section ConnectionFurther.
Context `{NumberModel}.
Variable E : env.
Variable config : MigrationConfig.

(** X29: the connection tests ask for the source table, then for the
    destination table, then put one test object, and stop at the first
    failure.  The test object goes under the migration folder: its key is
    the folder, [/connection-test-], the clock as read once both tables
    have answered, and [.txt].  A failed table request is reported as
    [Coda API access failed] with its cause and nothing more is requested;
    a failed put is reported as [DigitalOcean Spaces connection failed].
    Files, documents and results are left alone. *)
Theorem testConnections_in_order w :
  let src := EGetTable (srcDoc config) (srcTable config) in
  let dst := EGetTable (dstDoc config) (dstTable config) in
  let key := migrationFolder config +:+ "/connection-test-"
             +:+ clock_ms E (with_log (log w ++ [src; dst]) w) +:+ ".txt" in
  match testConnections E config w with
  | (Ok _, w') => w' = with_log (log w ++ [src; dst; EPutObject key]) w
  | (Throw e, w') =>
      ((exists cause, e = "Coda API access failed: " +:+ cause)
       /\ (w' = with_log (log w ++ [src]) w
           \/ w' = with_log (log w ++ [src; dst]) w))
      \/ (e = "DigitalOcean Spaces connection failed"
          /\ w' = with_log (log w ++ [src; dst; EPutObject key]) w)
  | (Diverge, _) => False
  end.
Proof.
  intros src dst key0.
  unfold testConnections, testConnection, getTable, putObject, try_catch.
  unfold bind at 1. unfold bind at 1. rewrite request_run. fold src.
  destruct (net_table E w (srcDoc config) (srcTable config))
    as [msg | status text body | []]; cbn [fst snd].
  { left. split; [by eexists | by left]. }
  { left. split; [by eexists | by left]. }
  rewrite request_run. fold dst.
  set (w1 := with_log (log w ++ [src]) w).
  destruct (net_table E w1 (dstDoc config) (dstTable config))
    as [msg | status text body | []]; cbn [fst snd].
  { left. split; [by eexists |]. right. unfold w1, with_log. simpl.
    by rewrite <- app_assoc. }
  { left. split; [by eexists |]. right. unfold w1, with_log. simpl.
    by rewrite <- app_assoc. }
  set (w2 := with_log (log w1 ++ [dst]) w1).
  assert (Hw2 : w2 = with_log (log w ++ [src; dst]) w).
  { unfold w2, w1, with_log. simpl. by rewrite <- app_assoc. }
  unfold bind, read, emit, ret, throw. cbn [fst snd].
  set (key := migrationFolder config +:+ "/connection-test-"
              +:+ clock_ms E w2 +:+ ".txt").
  assert (Hkey : key = key0) by (unfold key, key0; by rewrite Hw2).
  destruct (net_put E w2 key) as [msg |]; cbn [fst snd].
  - right. split; [done |]. rewrite <- Hkey. unfold w2, w1, with_log. simpl.
    by rewrite <- !app_assoc.
  - rewrite <- Hkey. unfold w2, w1, with_log. simpl. by rewrite <- !app_assoc.
Qed.

End ConnectionFurther.
